(** * vex2zapints: off-source time ranges of a VLBI schedule as rfifind blocks

    A shallow embedding of [extra/vex2zapints.py] and the properties of its
    date arithmetic, schedule filtering, gap walk and block mapping.

    Conventions of the embedding.

    - Python [int] is [Z].  Python [float] is a type [F] with the operations
      of the class [PyFloat]; the script is embedded once, over any such [F],
      and read at two instances: [binary64] (IEEE 754 doubles, what CPython
      executes) and [exactQ] (the same expressions over exact rationals).
      Closed computations are evaluated at [binary64].  Laws of the date
      arithmetic and of the block mapper are proved at [binary64] too, from
      the rational each double stands for and the error of each rounding;
      [exactQ] gives the exact values they are compared with.
    - [math.floor], [math.ceil], [math.trunc] and [int] return integers and
      raise on infinities and NaN, as in Python 3.
    - A call either returns, raises, or leaves through [sys.exit]: type
      [outcome].
    - A VEX date string [YYYYyDDDdHHhMMmSSs] is the record [vexdate] of its
      five integer fields: [int(vdate[5:8])] is the field [v_doy], the format
      ['%04dy%03dd%02dh%02dm%02ds'] builds the record, and comparing two such
      strings compares the fields.
    - [vex['SCHED']] is an insertion-ordered dictionary from scan names to
      scans: an association list, mutated in place by [del].
    - The file [zapints.cmd] is the string of what is written to it, and
      ['%d'] the decimal text of an integer. *)

From Stdlib Require Import ZArith QArith Qround Qpower List Bool String Ascii.
From Stdlib Require Import Lia Lqa.
From Stdlib Require Import Floats DecimalString.
Import ListNotations.

Local Open Scope Z_scope.

(** ** Outcomes of a call *)

Inductive exn : Type :=
| ValueError | KeyError | TypeError | ZeroDivisionError | OverflowError
| IndexError.

(** The three [sys.exit(0)] of the script, told apart by what they print. *)
Inductive exit_point : Type :=
| ExitFewScans      (* 'Number of VEX scans is %d, nothing to do!' *)
| ExitStation       (* 'Nothing to do!' *)
| ExitSource.       (* 'No scans found on source %s. Nothing to do.' *)

Inductive outcome (A : Type) : Type :=
| Return (a : A)
| Exit (p : exit_point)
| Raise (e : exn).

Arguments Return {A} a.
Arguments Exit {A} p.
Arguments Raise {A} e.

Definition bind {A B : Type} (m : outcome A) (k : A -> outcome B) : outcome B :=
  match m with
  | Return a => k a
  | Exit p => Exit p
  | Raise e => Raise e
  end.

Notation "x <- m ;; k" := (bind m (fun x => k))
  (at level 61, m at next level, right associativity).

Definition returns {A : Type} (m : outcome A) : Prop := exists a, m = Return a.
Definition raises {A : Type} (m : outcome A) : Prop := exists e, m = Raise e.
Definition exits {A : Type} (m : outcome A) : Prop := exists p, m = Exit p.

(** ** Python floats *)

(** [math.trunc] on an exact value: towards zero. *)
Definition Qtrunc (q : Q) : Z := Z.quot (Qnum q) (Zpos (Qden q)).

Inductive fvalue : Type :=
| Finite (q : Q)
| Infinite
| NaN.

Class PyFloat (F : Type) : Type := {
  of_int : Z -> F;            (* int operand of a mixed int/float operation *)
  lit : Q -> F;               (* a float literal of the source text *)
  fadd : F -> F -> F;
  fsub : F -> F -> F;
  fmul : F -> F -> F;
  fdiv : F -> F -> F;         (* divisor known to be non-zero *)
  is_zero : F -> bool;
  value : F -> fvalue         (* the number a float stands for *)
}.

(** Conversion of a float to an integer starts from its exact value;
    [OverflowError] on an infinity and [ValueError] on a NaN. *)
Definition to_Q {F : Type} {PF : PyFloat F} (x : F) : outcome Q :=
  match value x with
  | Finite q => Return q
  | Infinite => Raise OverflowError
  | NaN => Raise ValueError
  end.

Declare Scope pyfloat_scope.
Delimit Scope pyfloat_scope with F.
Infix "+" := fadd : pyfloat_scope.
Infix "-" := fsub : pyfloat_scope.
Infix "*" := fmul : pyfloat_scope.
Infix "/" := fdiv : pyfloat_scope.

Section FloatOperations.
Context {F : Type} {PF : PyFloat F}.

(** [x / y] where [y] may be zero: Python raises rather than yield inf. *)
Definition pydiv (x y : F) : outcome F :=
  if is_zero y then Raise ZeroDivisionError else Return (x / y)%F.

Definition floor (x : F) : outcome Z := q <- to_Q x ;; Return (Qfloor q).
Definition ceil (x : F) : outcome Z := q <- to_Q x ;; Return (Qceiling q).
Definition trunc (x : F) : outcome Z := q <- to_Q x ;; Return (Qtrunc q).
End FloatOperations.

(** *** IEEE 754 binary64 *)

Module Binary64.
(** [float(z)]: the double nearest to [z], ties to even.  An integer beyond
    the range of doubles gives an infinity here (CPython raises
    [OverflowError] at the conversion; here the next [int()] or
    [math.floor] of the result does). *)
Definition of_Z (z : Z) : float :=
  SF2Prim (binary_normalize prec emax z 0 false).

(** A decimal literal: the double nearest to it, as one correctly rounded
    division of two integers that doubles hold exactly. *)
Definition of_Q (q : Q) : float :=
  PrimFloat.div (of_Z (Qnum q)) (of_Z (Zpos (Qden q))).

(** The rational a finite double [(-1)^s * m * 2^e] stands for. *)
Definition SF2value (x : spec_float) : fvalue :=
  match x with
  | S754_zero _ => Finite 0%Q
  | S754_finite s m e =>
      let n := if s then Zneg m else Zpos m in
      Finite (if 0 <=? e then inject_Z (n * 2 ^ e)
              else Qmake n (Z.to_pos (2 ^ (- e))))
  | S754_infinity _ => Infinite
  | S754_nan => NaN
  end.

Definition is_zero (x : float) : bool :=
  match Prim2SF x with S754_zero _ => true | _ => false end.
End Binary64.

#[export] Instance binary64 : PyFloat float := {|
  of_int := Binary64.of_Z;
  lit := Binary64.of_Q;
  fadd := PrimFloat.add;
  fsub := PrimFloat.sub;
  fmul := PrimFloat.mul;
  fdiv := PrimFloat.div;
  is_zero := Binary64.is_zero;
  value := fun x => Binary64.SF2value (Prim2SF x)
|}.

(** *** Exact rationals *)

#[export] Instance exactQ : PyFloat Q := {|
  of_int := inject_Z;
  lit := fun q => q;
  fadd := Qplus;
  fsub := Qminus;
  fmul := Qmult;
  fdiv := Qdiv;
  is_zero := fun q => Qeq_bool q 0;
  value := Finite
|}.

(** ** VEX dates *)

Record vexdate : Type := mkvex {
  v_yr : Z;    (* vdate[0:4]   *)
  v_doy : Z;   (* vdate[5:8]   *)
  v_hh : Z;    (* vdate[9:11]  *)
  v_mm : Z;    (* vdate[12:14] *)
  v_ss : Z     (* vdate[15:17] *)
}.

Definition vexdate_eqb (a b : vexdate) : bool :=
  (v_yr a =? v_yr b) && (v_doy a =? v_doy b) && (v_hh a =? v_hh b)
  && (v_mm a =? v_mm b) && (v_ss a =? v_ss b).

Section SecondsOfYear.
Context {F : Type} {PF : PyFloat F}.

(** [dateVEX2sec]: VEX date as seconds-of-year. *)
Definition dateVEX2sec (vdate : vexdate) : F :=
  let doy := v_doy vdate in
  let hh := v_hh vdate in
  let mm := v_mm vdate in
  let ss := v_ss vdate in
  (of_int ss + lit 60 * of_int mm + lit 3600 * of_int hh
   + lit 86400 * of_int doy)%F.

(** [dateSec2VEX]: seconds-of-year into a VEX date. *)
Definition dateSec2VEX (sec : F) (year : Z) : outcome vexdate :=
  doy <- trunc (sec / lit 86400)%F ;;
  let R := (sec - of_int doy * lit 86400)%F in
  hh <- trunc (R / lit 3600)%F ;;
  let R := (R - of_int hh * lit 3600)%F in
  mm <- trunc (R / lit 60)%F ;;
  let R := (R - of_int mm * lit 60)%F in
  ss <- trunc R ;;
  Return (mkvex year doy hh mm ss).

(** [dateVEXaddsec] *)
Definition dateVEXaddsec (vdate : vexdate) (sec : Z) : outcome vexdate :=
  let yr := v_yr vdate in
  let s := dateVEX2sec vdate in
  let s := (s + of_int sec)%F in
  dateSec2VEX s yr.
End SecondsOfYear.

(** ** The calendar of Python's [datetime.date]

    Proleptic Gregorian ordinals (day 1 is 0001-01-01), as CPython computes
    them; years outside 1..9999 raise [ValueError]. *)

Module Datetime.
Definition MINYEAR := 1.
Definition MAXYEAR := 9999.

Definition is_leap (year : Z) : bool :=
  (year mod 4 =? 0) && (negb (year mod 100 =? 0) || (year mod 400 =? 0)).

Definition days_before_year (year : Z) : Z :=
  let y := year - 1 in y * 365 + y / 4 - y / 100 + y / 400.

Definition DAYS_IN_MONTH (month : Z) : Z :=
  match month with
  | 1 => 31 | 2 => 28 | 3 => 31 | 4 => 30 | 5 => 31 | 6 => 30
  | 7 => 31 | 8 => 31 | 9 => 30 | 10 => 31 | 11 => 30 | 12 => 31
  | _ => -1
  end.

Definition DAYS_BEFORE_MONTH (month : Z) : Z :=
  match month with
  | 1 => 0 | 2 => 31 | 3 => 59 | 4 => 90 | 5 => 120 | 6 => 151
  | 7 => 181 | 8 => 212 | 9 => 243 | 10 => 273 | 11 => 304 | 12 => 334
  | _ => -1
  end.

Definition days_in_month (year month : Z) : Z :=
  if (month =? 2) && is_leap year then 29 else DAYS_IN_MONTH month.

Definition days_before_month (year month : Z) : Z :=
  DAYS_BEFORE_MONTH month + (if (2 <? month) && is_leap year then 1 else 0).

Definition ymd2ord (year month day : Z) : Z :=
  days_before_year year + days_before_month year month + day.

Definition DI400Y := 146097.
Definition DI100Y := 36524.
Definition DI4Y := 1461.

Definition ord2ymd (n : Z) : Z * Z * Z :=
  let n := n - 1 in
  let n400 := n / DI400Y in
  let n := n mod DI400Y in
  let year := n400 * 400 + 1 in
  let n100 := n / DI100Y in
  let n := n mod DI100Y in
  let n4 := n / DI4Y in
  let n := n mod DI4Y in
  let n1 := n / 365 in
  let n := n mod 365 in
  let year := year + (n100 * 100 + n4 * 4 + n1) in
  if (n1 =? 4) || (n100 =? 4) then (year - 1, 12, 31)
  else
    let leapyear := (n1 =? 3) && (negb (n4 =? 24) || (n100 =? 3)) in
    let month := Z.shiftr (n + 50) 5 in
    let preceding :=
      DAYS_BEFORE_MONTH month + (if (2 <? month) && leapyear then 1 else 0) in
    if n <? preceding then
      let month := month - 1 in
      let preceding :=
        preceding
        - (DAYS_IN_MONTH month + (if (month =? 2) && leapyear then 1 else 0)) in
      (year, month, n - preceding + 1)
    else (year, month, n - preceding + 1).

(** [datetime.date(year, month, day)] *)
Definition date (year month day : Z) : outcome (Z * Z * Z) :=
  if negb ((MINYEAR <=? year) && (year <=? MAXYEAR)) then Raise ValueError
  else if negb ((1 <=? month) && (month <=? 12)) then Raise ValueError
  else if negb ((1 <=? day) && (day <=? days_in_month year month))
  then Raise ValueError
  else Return (year, month, day).

Definition toordinal (dt : Z * Z * Z) : Z :=
  let '(y, m, d) := dt in ymd2ord y m d.

(** [datetime.date.fromordinal(n)] *)
Definition fromordinal (n : Z) : outcome (Z * Z * Z) :=
  let '(y, m, d) := ord2ymd n in date y m d.
End Datetime.

(** ** Julian dates and block flagging *)

(** The dictionary [d] that [dateVEX2split] returns. *)
Record split_date (F : Type) : Type := mksplit {
  d_vex : vexdate;
  d_yr : Z; d_doy : Z; d_hh : Z; d_mm : Z; d_ss : Z;
  d_mon : Z; d_mday : Z;
  d_mjd : F
}.

Arguments mksplit {F}.
Arguments d_vex {F}.
Arguments d_mon {F}.
Arguments d_mday {F}.
Arguments d_mjd {F}.

(** What the names [fb_Tstart] and [fb_Tint] can be bound to: an option left
    at its default [None], a float, or the VEX start string of a scan. *)
Inductive pyvalue (F : Type) : Type :=
| PyNone
| PyNumber (x : F)
| PyStr (v : vexdate).

Arguments PyNone {F}.
Arguments PyNumber {F} x.
Arguments PyStr {F} v.

(** The module-level variables that [doFlag] reads. *)
Record globals (F : Type) : Type := mkglobals {
  fb_Tstart : pyvalue F;
  fb_Tint : F
}.

Arguments mkglobals {F}.
Arguments fb_Tstart {F}.
Arguments fb_Tint {F}.

(** An entry ['%d:%d' % (start, stop)] of [zapints_list]. *)
Definition zapint : Type := (Z * Z)%type.

Section JulianDate.
Context {F : Type} {PF : PyFloat F}.

Definition before_gregorian (year month day : Z) : bool :=
  (year <? 1582) || ((year =? 1582) && (month <? 10))
  || ((year =? 1582) && (month =? 10) && (day <? 15)).

(** "after start of Gregorian calendar": [A] and [B = 2 - A + trunc(A/4.)] *)
Definition century_correction (yearp : Z) : outcome Z :=
  A <- trunc (of_int yearp / lit 100)%F ;;
  A4 <- trunc (of_int A / lit 4)%F ;;
  Return (2 - A + A4).

(** The term [B] of [date_to_jd]. *)
Definition gregorian_B (year month day yearp : Z) : outcome Z :=
  if before_gregorian year month day then Return 0
  else century_correction yearp.

(** [date_to_jd]: a date to its Julian Day. *)
Definition date_to_jd (year month day : Z) : outcome F :=
  let '(yearp, monthp) :=
    if (month =? 1) || (month =? 2) then (year - 1, month + 12)
    else (year, month) in
  B <- gregorian_B year month day yearp ;;
  C <- (if yearp <? 0
        then trunc (lit 365.25 * of_int yearp - lit 0.75)%F
        else trunc (lit 365.25 * of_int yearp)%F) ;;
  D <- trunc (lit 30.6001 * of_int (monthp + 1))%F ;;
  let jd := (of_int (B + C + D + day) + lit 1720994.5)%F in
  Return jd.

(** [dateVEX2split]: the parts of a VEX date, and its MJD. *)
Definition dateVEX2split (vdate : vexdate) : outcome (split_date F) :=
  let yr := v_yr vdate in
  let doy := v_doy vdate in
  let hh := v_hh vdate in
  let mm := v_mm vdate in
  let ss := v_ss vdate in
  jan1 <- Datetime.date yr 1 1 ;;
  dt <- Datetime.fromordinal (Datetime.toordinal jan1 + doy - 1) ;;
  let '(dt_year, dt_month, dt_day) := dt in
  let jdfract :=
    ((of_int (hh - 12) + of_int mm / lit 60 + of_int ss / lit 3600)
     / lit 24)%F in
  jd <- date_to_jd dt_year dt_month dt_day ;;
  let mjd := (jd + lit 0.5 - lit 2400000.5 + jdfract)%F in
  Return (mksplit vdate yr doy hh mm ss dt_month dt_day mjd).

(** [(mjd - fb_Tstart) / fb_Tint] on the module-level variables. *)
Definition block_offset (G : globals F) (mjd : F) : outcome F :=
  match fb_Tstart G with
  | PyNumber t0 => pydiv (mjd - t0)%F (fb_Tint G)
  | _ => Raise TypeError
  end.

(** [doFlag].  The parameters [fb_tstart] and [fb_tint] are not read: the
    body names the module-level [fb_Tstart] and [fb_Tint]. *)
Definition doFlag (G : globals F) (vex_tstart vex_tstop : vexdate)
    (fb_tstart : pyvalue F) (fb_tint : F) (zapints_list : list zapint)
    : outcome (list zapint) :=
  t1 <- dateVEX2split vex_tstart ;;
  t2 <- dateVEX2split vex_tstop ;;
  x1 <- block_offset G (d_mjd t1) ;;
  f1 <- floor x1 ;;
  let flag_startint := Z.max 0 f1 in
  x2 <- block_offset G (d_mjd t2) ;;
  c2 <- ceil x2 ;;
  let flag_stopint := Z.max 0 c2 in
  if flag_startint =? flag_stopint then Return zapints_list
  else Return (zapints_list ++ [(flag_startint, flag_stopint)]).
End JulianDate.

(** ** The schedule *)

(** A [station] line of a scan: [st[0]] is the station code and
    [int(st[2].split()[0])] the seconds at which its recording stops. *)
Record station : Type := mkstation {
  st_code : string;
  st_dur : Z
}.

Record scan : Type := mkscan {
  sc_start : vexdate;            (* scan['start'] *)
  sc_source : string;            (* scan['source'] *)
  sc_stations : list station     (* scan.getall('station') *)
}.

(** [vex['SCHED']]: scans by name, in file order. *)
Definition sched : Type := list (string * scan).

Definition dict_keys (d : sched) : list string := map fst d.

Fixpoint dict_get (k : string) (d : sched) : outcome scan :=
  match d with
  | [] => Raise KeyError
  | (k', v) :: d' => if String.eqb k k' then Return v else dict_get k d'
  end.

Fixpoint dict_remove (k : string) (d : sched) : sched :=
  match d with
  | [] => []
  | (k', v) :: d' =>
      if String.eqb k k' then dict_remove k d' else (k', v) :: dict_remove k d'
  end.

(** [del d[k]] *)
Definition dict_del (k : string) (d : sched) : outcome sched :=
  _ <- dict_get k d ;; Return (dict_remove k d).

(** [str.upper] on ASCII letters. *)
Definition ascii_upper (c : ascii) : ascii :=
  let n := nat_of_ascii c in
  if (Nat.leb 97 n && Nat.leb n 122)%bool then ascii_of_nat (n - 32) else c.

Fixpoint upper (s : string) : string :=
  match s with
  | EmptyString => EmptyString
  | String c s' => String (ascii_upper c) (upper s')
  end.

(** [st[0].upper() == telescope] *)
Definition on_station (telescope : string) (st : station) : bool :=
  String.eqb (upper (st_code st)) telescope.

(** [any([st[0].upper() == telescope for st in stations])] *)
Definition includes_station (telescope : string) (sc : scan) : bool :=
  existsb (on_station telescope) (sc_stations sc).

Definition on_source (source : string) (sc : scan) : bool :=
  String.eqb (sc_source sc) source.

(** "Keep only scans of the selected station": the loop over a snapshot
    [scannames] of the keys, deleting from the dictionary. *)
Fixpoint keep_station (telescope : string) (scannames : list string)
    (scans : sched) : outcome sched :=
  match scannames with
  | [] => Return scans
  | name :: rest =>
      sc <- dict_get name scans ;;
      if negb (includes_station telescope sc)
      then scans' <- dict_del name scans ;; keep_station telescope rest scans'
      else keep_station telescope rest scans
  end.

(** "Throw away all scans that are off-source". *)
Fixpoint keep_source (source : string) (scannames : list string)
    (scans : sched) : outcome sched :=
  match scannames with
  | [] => Return scans
  | name :: rest =>
      sc <- dict_get name scans ;;
      if negb (on_source source sc)
      then scans' <- dict_del name scans ;; keep_source source rest scans'
      else keep_source source rest scans
  end.

(** [l[i]] for a list. *)
Definition list_get {A : Type} (l : list A) (i : nat) : outcome A :=
  match nth_error l i with
  | Some a => Return a
  | None => Raise IndexError
  end.

(** The command-line options that reach the computation.  With
    [--filterbank], [startmjd] and [tint] hold what the SIGPROC [header]
    utility reports. *)
Record options (F : Type) : Type := mkoptions {
  startmjd : option F;
  tint : option F;
  blocks : Z
}.

Arguments mkoptions {F}.
Arguments startmjd {F}.
Arguments tint {F}.
Arguments blocks {F}.

Section Pipeline.
Context {F : Type} {PF : PyFloat F}.

(** The inner loop [for st in stations] of the zap loop: cursor
    [zap_tstart] and [zapints_list] are threaded through. *)
Fixpoint zap_stations (G : globals F) (telescope : string) (sc : scan)
    (stations : list station) (zap_tstart : vexdate)
    (zapints_list : list zapint) : outcome (vexdate * list zapint) :=
  match stations with
  | [] => Return (zap_tstart, zapints_list)
  | st :: rest =>
      if negb (on_station telescope st)
      then zap_stations G telescope sc rest zap_tstart zapints_list
      else
        let zap_tstop := sc_start sc in
        zl <- doFlag G zap_tstart zap_tstop (fb_Tstart G) (fb_Tint G)
                zapints_list ;;
        let dur_sec := st_dur st in
        cursor <- dateVEXaddsec zap_tstop dur_sec ;;
        zap_stations G telescope sc rest cursor zl
  end.

(** The outer loop [for ii in range(Nscans)]. *)
Fixpoint zap_scans (G : globals F) (telescope : string) (scans : sched)
    (scannames : list string) (zap_tstart : vexdate)
    (zapints_list : list zapint) : outcome (vexdate * list zapint) :=
  match scannames with
  | [] => Return (zap_tstart, zapints_list)
  | name :: rest =>
      sc <- dict_get name scans ;;
      st <- zap_stations G telescope sc (sc_stations sc) zap_tstart
              zapints_list ;;
      zap_scans G telescope scans rest (fst st) (snd st)
  end.

(** "Convert integration time from seconds into MJD fraction", then the
    block length: [fb_Tint / 86400.0 * 480 * options.blocks]. *)
Definition block_duration (opts : options F) : outcome F :=
  match tint opts with
  | None => Raise TypeError
  | Some t => Return (t / lit 86400 * of_int 480 * of_int (blocks opts))%F
  end.

Definition option_value (o : option F) : pyvalue F :=
  match o with
  | Some x => PyNumber x
  | None => PyNone
  end.

(** "Zap all off-source time ranges now": the zap loop and the closing
    test against the last scan. *)
Definition zap_all (G : globals F) (telescope : string) (scans : sched)
    (scan_1 scan_N : scan) (nominal_stop : vexdate)
    (zapints_list : list zapint) : outcome (list zapint) :=
  let scannames := dict_keys scans in
  let zap_tstart := sc_start scan_1 in
  st <- zap_scans G telescope scans scannames zap_tstart zapints_list ;;
  let '(zap_tstart, zapints_list) := st in
  if negb (vexdate_eqb (sc_start scan_N) zap_tstart)
  then
    let zap_tstop := nominal_stop in
    doFlag G zap_tstart zap_tstop (fb_Tstart G) (fb_Tint G) zapints_list
  else Return zapints_list.

(** The script from "Parse the VEX file" on.  [schedule] is [vex['SCHED']],
    [nominal_stop] is [vex['EXPER'][exper]['exper_nominal_stop']]; the
    result is [zapints_list] and the dictionary as the run leaves it. *)
Definition main (opts : options F) (schedule : sched)
    (nominal_stop : vexdate) (source telescope_arg : string)
    : outcome (list zapint * sched) :=
  let telescope := upper telescope_arg in
  let fb_Tstart := option_value (startmjd opts) in
  let zapints_list := [] in
  fb_Tint <- block_duration opts ;;
  let scans := schedule in
  let Nscans := List.length scans in
  if (Nscans <=? 1)%nat then Exit ExitFewScans else
  let scannames := dict_keys scans in
  scans <- keep_station telescope scannames scans ;;
  if (List.length scans <=? 1)%nat then Exit ExitStation else
  let scannames := dict_keys scans in
  let Nscans := List.length scans in
  first <- list_get scannames 0 ;;
  fb_Tstart <-
    (match fb_Tstart with
     | PyNone => sc <- dict_get first scans ;; Return (PyStr (sc_start sc))
     | v => Return v
     end) ;;
  scan_1 <- dict_get first scans ;;
  last <- list_get scannames (Nscans - 1) ;;
  scan_N <- dict_get last scans ;;
  scans <- keep_source source scannames scans ;;
  let Nscans := List.length scans in
  if (Nscans <? 1)%nat then Exit ExitSource else
  let G := mkglobals fb_Tstart fb_Tint in
  zl <- zap_all G telescope scans scan_1 scan_N nominal_stop zapints_list ;;
  Return (zl, scans).
End Pipeline.

(** ** GapExtractor and BlockMapper in the words of the specification *)

(** A candidate gap [{start, stop}]. *)
Definition gap : Type := (vexdate * vexdate)%type.

(** The station's line of an entry, and its dwell seconds. *)
Definition station_line (telescope : string) (e : scan) : option station :=
  find (on_station telescope) (sc_stations e).

Definition dwell (telescope : string) (e : scan) : Z :=
  match station_line telescope e with
  | Some st => st_dur st
  | None => 0
  end.

Section GapExtractor.
Context {F : Type} {PF : PyFloat F}.

(** For each entry in order: emit [{cursor, entry.start}], then advance the
    cursor to [entry.start] plus the dwell.  Returns the gaps and the final
    cursor. *)
Fixpoint gap_walk (telescope : string) (entries : list scan)
    (cursor : vexdate) : outcome (list gap * vexdate) :=
  match entries with
  | [] => Return ([], cursor)
  | e :: rest =>
      cursor' <- dateVEXaddsec (F:=F) (sc_start e) (dwell telescope e) ;;
      r <- gap_walk telescope rest cursor' ;;
      Return ((cursor, sc_start e) :: fst r, snd r)
  end.

(** The gaps of a run: the cursor starts at the first station-filtered
    entry, walks the source-filtered entries, and a final gap up to the
    nominal stop is emitted iff the cursor differs from the start of the
    last station-filtered entry. *)
Definition extracted_gaps (telescope : string)
    (first_station last_station : scan) (source_filtered : list scan)
    (nominal_stop : vexdate) : outcome (list gap) :=
  r <- gap_walk telescope source_filtered (sc_start first_station) ;;
  let '(gaps, cursor) := r in
  if vexdate_eqb (sc_start last_station) cursor then Return gaps
  else Return (gaps ++ [(cursor, nominal_stop)]).

(** Every gap goes through the block mapper, in order. *)
Fixpoint flag_gaps (G : globals F) (gaps : list gap)
    (zapints_list : list zapint) : outcome (list zapint) :=
  match gaps with
  | [] => Return zapints_list
  | (start, stop) :: rest =>
      zl <- doFlag G start stop (fb_Tstart G) (fb_Tint G) zapints_list ;;
      flag_gaps G rest zl
  end.
End GapExtractor.

(** The two filters of the specification, on the entries in file order. *)
Definition station_filtered (telescope : string) (schedule : sched) : sched :=
  filter (fun kv => includes_station telescope (snd kv)) schedule.

Definition source_filtered (source : string) (schedule : sched) : sched :=
  filter (fun kv => on_source source (snd kv)) schedule.

(** ** Auxiliary definitions of the properties *)

(** A call that does not leave through [sys.exit]. *)
Definition no_exit {A : Type} (m : outcome A) : Prop := forall p, m <> Exit p.

(** The entries a deleting loop over [names] leaves: those listed under
    [names] stay only if [keep] holds of them. *)
Definition kept (keep : scan -> bool) (names : list string)
    (kv : string * scan) : bool :=
  if existsb (String.eqb (fst kv)) names then keep (snd kv) else true.

Section RunPhases.
Context {F : Type} {PF : PyFloat F}.

(** [fb_Tstart] and [fb_Tint] as the zap loop finds them: without
    [--startmjd] the start is bound to the VEX string of the first scan. *)
Definition run_globals (opts : options F) (b : F) (scan_1 : scan)
    : globals F :=
  mkglobals
    (match startmjd opts with
     | Some x => PyNumber x
     | None => PyStr (sc_start scan_1)
     end) b.

(** The run as two filters followed by the gap walk. *)
Definition phases (opts : options F) (b : F) (schedule : sched)
    (nominal_stop : vexdate) (source telescope : string)
    : outcome (list zapint * sched) :=
  if (List.length schedule <=? 1)%nat then Exit ExitFewScans else
  match station_filtered telescope schedule with
  | [] => Exit ExitStation
  | [_] => Exit ExitStation
  | first :: rest =>
      let scan_1 := snd first in
      let scan_N := snd (last rest first) in
      match source_filtered source (first :: rest) with
      | [] => Exit ExitSource
      | scans =>
          zl <- zap_all (run_globals opts b scan_1) telescope scans
                  scan_1 scan_N nominal_stop [] ;;
          Return (zl, scans)
      end
  end.

End RunPhases.

(** A decidable property checked on every integer from 0 to [n]. *)
Fixpoint all_upto (n : nat) (p : Z -> bool) : bool :=
  match n with
  | O => p 0
  | S k => p (Z.of_nat n) && all_upto k p
  end.

(** The same on every integer from [lo] to [hi]. *)
Definition all_between (lo hi : Z) (p : Z -> bool) : bool :=
  all_upto (Z.to_nat (hi - lo)) (fun k => p (lo + k)).

(** ** Timestamps within a year *)

(** Days of a year of the proleptic Gregorian calendar. *)
Definition days_in_year (y : Z) : Z := if Datetime.is_leap y then 366 else 365.

(** A timestamp of a year that [datetime] knows, with its fields in range. *)
Definition valid_timestamp (v : vexdate) : Prop :=
  1 <= v_yr v <= 9999 /\ 1 <= v_doy v <= days_in_year (v_yr v)
  /\ 0 <= v_hh v <= 23 /\ 0 <= v_mm v <= 59 /\ 0 <= v_ss v <= 59.

(** Field-wise order on day-of-year, hour, minute, second. *)
Definition earlier (a b : vexdate) : Prop :=
  v_doy a < v_doy b
  \/ (v_doy a = v_doy b
      /\ (v_hh a < v_hh b
          \/ (v_hh a = v_hh b
              /\ (v_mm a < v_mm b
                  \/ (v_mm a = v_mm b /\ v_ss a < v_ss b))))).

(** Whether a timestamp lies before 1582-10-15, day 288 of 1582. *)
Definition before_cutover (v : vexdate) : bool :=
  (v_yr v <? 1582) || ((v_yr v =? 1582) && (v_doy v <? 288)).

(** The tail of [ord2ymd]: month and day from the 0-based day of the year. *)
Definition month_day (leapyear : bool) (n : Z) : Z * Z :=
  let month := Z.shiftr (n + 50) 5 in
  let preceding :=
    Datetime.DAYS_BEFORE_MONTH month
    + (if (2 <? month) && leapyear then 1 else 0) in
  if n <? preceding then
    let month := month - 1 in
    let preceding :=
      preceding
      - (Datetime.DAYS_IN_MONTH month
         + (if (month =? 2) && leapyear then 1 else 0)) in
    (month, n - preceding + 1)
  else (month, n - preceding + 1).

(** What [month_day] must satisfy, checked on every day of a year: a date
    of the calendar, January and February told from the later months, the
    day-of-year terms of [date_to_jd], and the side of 1582-10-15. *)
Definition month_day_ok (leap : bool) (n : Z) : bool :=
  let '(m, d) := month_day leap n in
  let early := (m =? 1) || (m =? 2) in
  let mp := if early then m + 12 else m in
  let l := if leap then 1 else 0 in
  (1 <=? m) && (m <=? 12) && (1 <=? d)
  && (d <=? (if (m =? 2) && leap then 29 else Datetime.DAYS_IN_MONTH m))
  && Bool.eqb early (n <? 59 + l)
  && ((306001 * (mp + 1)) ÷ 10000 + d
      =? (if early then n + 429 else n + 64 - l))
  && Bool.eqb ((m <? 10) || ((m =? 10) && (d <? 15))) (n <? 287 + l).

(** The integer part of [date_to_jd] on day [doy] of year [yr]: the Julian
    calendar's count before 1582-10-15, the Gregorian ordinal plus 430 from
    that day on. *)
Definition day_number (yr doy : Z) : Z :=
  let l := if Datetime.is_leap yr then 1 else 0 in
  if (yr <? 1582) || ((yr =? 1582) && (doy <? 288)) then
    if doy <=? 59 + l
    then 365 * (yr - 1) + (yr - 1) / 4 + doy + 428
    else 365 * yr + yr / 4 + doy + 63 - l
  else Datetime.days_before_year yr + doy + 430.

(** ** The example of the specification *)

Local Open Scope string_scope.

(** The schedule of the specification's example: three scans of station
    [stationA], on sources X, Y, X, each recording for 300 s. *)
Definition on_stationA (source : string) (hh mm : Z) : scan :=
  mkscan (mkvex 2015 262 hh mm 0) source [mkstation "stationA" 300].

Definition example_schedule : sched :=
  [("No0001", on_stationA "X" 11 0);
   ("No0002", on_stationA "Y" 11 10);
   ("No0003", on_stationA "X" 11 20)].

Definition example_stop : vexdate := mkvex 2015 262 11 30 0.

(** The MJD of a VEX date, when it has one. *)
Definition mjd_of {F : Type} {PF : PyFloat F} (v : vexdate) : option F :=
  match dateVEX2split v with
  | Return d => Some (d_mjd d)
  | _ => None
  end.

(** [--startmjd] equal to the MJD of 2015y262d11h00m00s and [--tint 0.625
    --blocks 1], a block of 0.625 * 480 = 300 s. *)
Definition example_options {F : Type} {PF : PyFloat F} : options F :=
  mkoptions (mjd_of (mkvex 2015 262 11 0 0)) (Some (lit 0.625)) 1.

(** [fb_Tint] of the example run. *)
Definition example_block {F : Type} {PF : PyFloat F} : F :=
  (lit 0.625 / lit 86400 * of_int 480 * of_int 1)%F.

(** Two scans, of which one includes [stationA]. *)
Definition lone_schedule : sched :=
  [("No0001", on_stationA "X" 11 0);
   ("No0002",
    mkscan (mkvex 2015 262 11 10 0) "X" [mkstation "stationB" 300])].

(** The candidate gaps of the example run. *)
Definition example_gaps : list gap :=
  [(mkvex 2015 262 11 0 0, mkvex 2015 262 11 0 0);
   (mkvex 2015 262 11 5 0, mkvex 2015 262 11 20 0);
   (mkvex 2015 262 11 25 0, mkvex 2015 262 11 30 0)].

Local Close Scope string_scope.

(** ** The command file *)

Local Open Scope string_scope.

(** ['%d' % z] *)
Definition format_d (z : Z) : string := NilZero.string_of_int (Z.to_int z).

(** ['%d:%d' % (flag_startint, flag_stopint)], the text that [doFlag]
    appends to [zapints_list]. *)
Definition zapint_text (r : zapint) : string :=
  format_d (fst r) ++ ":" ++ format_d (snd r).

(** The loop [for ii in range(len(zapints_list))] of the writer; [out] is
    what has been written to the file. *)
Fixpoint write_zapints (zapints_list : list string) (indices : list nat)
    (out : string) : outcome string :=
  match indices with
  | [] => Return out
  | ii :: rest =>
      z <- list_get zapints_list ii ;;
      let out := out ++ z in
      let out :=
        if (Z.of_nat ii <? Z.of_nat (List.length zapints_list) - 1)%Z
        then out ++ "," else out in
      write_zapints zapints_list rest out
  end.

(** "Write out a 'rfifind -zapints a:b' command file": the content of
    [zapints.cmd]. *)
Definition write_command (blocks : Z) (exper : string)
    (zapints_list : list zapint) (filterbankfile : option string)
    : outcome string :=
  let texts := map zapint_text zapints_list in
  let out :=
    "rfifind -blocks " ++ format_d blocks ++ " -o " ++ exper
    ++ " -zapints " in
  out <- write_zapints texts (seq 0 (List.length texts)) out ;;
  match filterbankfile with
  | Some f => Return (out ++ " -filterbank " ++ f)
  | None => Return out
  end.

Local Close Scope string_scope.

(** ** Auxiliary definitions of the further properties *)

(** A range as [doFlag] may append it: two block indices from 0 on that
    differ. *)
Definition emitted_range (r : zapint) : Prop :=
  0 <= fst r /\ 0 <= snd r /\ fst r <> snd r.

(** What holds of the value of a call, if it returns. *)
Definition on_return {A : Type} (P : A -> Prop) (m : outcome A) : Prop :=
  forall a, m = Return a -> P a.

(** The invariant of the zap loop: the list holds emitted ranges only, and
    grows by at most [n] entries. *)
Definition grown (n : nat) (zl zl' : list zapint) : Prop :=
  (Forall emitted_range zl -> Forall emitted_range zl')
  /\ (List.length zl' <= List.length zl + n)%nat.

(** The [station] lines of a scan that name the telescope. *)
Definition station_lines (telescope : string) (sc : scan) : nat :=
  List.length (filter (on_station telescope) (sc_stations sc)).

(** Seconds from the start of day 0 of the year. *)
Definition seconds_of_year (v : vexdate) : Z :=
  v_ss v + 60 * v_mm v + 3600 * v_hh v + 86400 * v_doy v.

(** The proleptic Gregorian ordinal of a timestamp's day. *)
Definition ordinal (v : vexdate) : Z :=
  Datetime.days_before_year (v_yr v) + v_doy v.

(** A day from 1582-10-15 (ordinal 577736) to 9999-12-31 (ordinal 3652059),
    counted from a year that [datetime] knows. *)
Definition gregorian_day (v : vexdate) : Prop :=
  1 <= v_yr v <= 9999 /\ 577736 <= ordinal v <= 3652059.

(** The timestamps that the format [%04dy%03dd%02dh%02dm%02ds] writes into
    its columns, and that the slices of [dateVEX2split] and [dateVEX2sec]
    read back: no field is wider than its columns. *)
Definition in_columns (v : vexdate) : Prop :=
  -999 <= v_yr v <= 9999 /\ -99 <= v_doy v <= 999 /\ -9 <= v_hh v <= 99
  /\ -9 <= v_mm v <= 99 /\ -9 <= v_ss v <= 99.

(** The smallest block length of the block-range law: [2 ^ -40] day. *)
Definition block_min : Q := 1 # 1099511627776.

(** The MJD of a timestamp from 1582-10-15 on, over exact arithmetic: days
    since 1858-11-17 and the fraction of the day. *)
Definition exact_mjd (v : vexdate) : Q :=
  inject_Z (ordinal v - 678576)
  + inject_Z (3600 * v_hh v + 60 * v_mm v + v_ss v) / 86400.

(** ** Doubles as the rationals they stand for *)

(** Round to nearest, ties to even. *)
Definition rne (y : Q) : Z :=
  let f := Qfloor y in
  match (y - inject_Z f ?= 1 # 2)%Q with
  | Lt => f
  | Gt => f + 1
  | Eq => if Z.even f then f else f + 1
  end.

(** What a shift record knows of the number [t] it was cut from. *)
Definition loc_ok (mrs : shr_record) (t : Q) : Prop :=
  0 <= shr_m mrs
  /\ ((t == inject_Z (shr_m mrs) /\ shr_r mrs = false /\ shr_s mrs = false)
      \/ (inject_Z (shr_m mrs) < t /\ t < inject_Z (shr_m mrs) + (1 # 2)
          /\ shr_r mrs = false /\ shr_s mrs = true)
      \/ (t == inject_Z (shr_m mrs) + (1 # 2)
          /\ shr_r mrs = true /\ shr_s mrs = false)
      \/ (inject_Z (shr_m mrs) + (1 # 2) < t /\ t < inject_Z (shr_m mrs) + 1
          /\ shr_r mrs = true /\ shr_s mrs = true))%Q.

(** [2 ^ n] as a rational, for a positive [n]. *)
Definition P2 (n : positive) : Q := inject_Z (2 ^ Zpos n).

(** The rational [(-1)^s * m * 2^e]. *)
Definition sval (s : bool) (m : positive) (e : Z) : Q :=
  inject_Z (cond_Zopp s (Zpos m)) * 2 ^ e.

(** A normal double, or a zero, that stands for the rational [X]. *)
Definition stands_for (x : spec_float) (X : Q) : Prop :=
  match x with
  | S754_zero _ => (X == 0)%Q
  | S754_finite s m e =>
      Zpos (digits2_pos m) = 53 /\ -1074 <= e <= 971 /\ (X == sval s m e)%Q
  | _ => False
  end.

(** [X] rounded to a multiple of [2 ^ E]. *)
Definition rnd_at (E : Z) (X : Q) : Q := inject_Z (rne (X / 2 ^ E)) * 2 ^ E.

(** The rationals of which 53 significant bits end at [2 ^ E]. *)
Definition binade (E : Z) (X : Q) : Prop :=
  (2 ^ (E + 52) <= X /\ X < 2 ^ (E + 53))%Q.

(** [v] is [X] rounded to 53 significant bits, to nearest, ties to even. *)
Definition rounded (X v : Q) : Prop :=
  (X == 0 /\ v == 0)%Q
  \/ (exists E, binade E X /\ v == rnd_at E X)%Q
  \/ (exists E, binade E (- X) /\ v == - rnd_at E (- X))%Q.

(** Magnitudes well inside the normal doubles. *)
Definition in_range (X : Q) : Prop :=
  (2 ^ (-1000) <= X /\ X < 2 ^ 1000)%Q.

(** Half a unit in the last place, relative to the value: [2 ^ -53]. *)
Definition eps : Q := 1 # 9007199254740992.

(** The magnitude [A] of [X], and the sign. *)
Definition signed (s : bool) (A : Q) : Q := if s then (- A)%Q else A.

(** Zero, or a magnitude among the normal doubles. *)
Definition ok_range (X : Q) : Prop :=
  (X == 0)%Q \/ in_range X \/ in_range (- X).

(** The double [x] is a zero or a normal number, and stands for [X]. *)
Definition dbl (x : float) (X : Q) : Prop := stands_for (Prim2SF x) X.

(** A rational of at most 53 bits above [2 ^ -1000]. *)
Definition dyadic (X : Q) : Prop :=
  exists k j, - 2 ^ 53 < k < 2 ^ 53 /\ -1000 <= j <= 0
              /\ (X == inject_Z k * 2 ^ j)%Q.

(** Bounds of the magnitudes met in the date arithmetic: [2 ^ -100] and
    [2 ^ 100]. *)
Definition tiny : Q := 1 # 1267650600228229401496703205376.
Definition huge : Q := 1267650600228229401496703205376.

(** Zero, or at least [2^j] in absolute value. *)
Definition sized (j : Z) (X : Q) : Prop :=
  (X == 0 \/ 2 ^ j <= X \/ 2 ^ j <= - X)%Q.

(** The difference allowed between the MJD of doubles and the MJD of
    exact arithmetic: 2^-29 day, some 0.16 ms. *)
Definition mjd_tolerance : Q := 1 # 536870912.

(** * Properties *)

(** Splits a conjunction into its conjuncts, and nothing else. *)
Ltac split_conj := repeat match goal with |- _ /\ _ => split end.

(** ** Dictionaries *)

Lemma bind_Return {A B : Type} (a : A) (k : A -> outcome B) :
  bind (Return a) k = k a.
Proof. reflexivity. Qed.

Lemma bind_returns_inv {A B : Type} (m : outcome A) (k : A -> outcome B) b :
  bind m k = Return b -> exists a, m = Return a /\ k a = Return b.
Proof. destruct m; simpl; intros E; try discriminate. eauto. Qed.

Lemma dict_get_head (k : string) (v : scan) (d : sched) :
  dict_get k ((k, v) :: d) = Return v.
Proof. simpl. now rewrite String.eqb_refl. Qed.

Lemma dict_get_in (k : string) (v : scan) (d : sched) :
  NoDup (dict_keys d) -> In (k, v) d -> dict_get k d = Return v.
Proof.
  induction d as [|[k' v'] d IH]; simpl; intros ND HIn; [contradiction|].
  inversion ND as [|? ? Hnotin ND']; subst.
  destruct HIn as [E|HIn].
  - inversion E; subst. now rewrite String.eqb_refl.
  - destruct (String.eqb_spec k k') as [->|Hne]; [|now apply IH].
    exfalso. apply Hnotin. unfold dict_keys.
    change k' with (fst (k', v)). now apply in_map.
Qed.

Lemma dict_remove_filter (k : string) (d : sched) :
  dict_remove k d = filter (fun kv => negb (String.eqb k (fst kv))) d.
Proof.
  induction d as [|[k' v'] d IH]; simpl; [reflexivity|].
  destruct (String.eqb k k'); simpl; now rewrite IH.
Qed.

Lemma dict_keys_filter_incl (p : string * scan -> bool) (d : sched) :
  incl (dict_keys (filter p d)) (dict_keys d).
Proof.
  intros k Hk. unfold dict_keys in *. apply in_map_iff in Hk.
  destruct Hk as [kv [<- HIn]]. apply filter_In in HIn. now apply in_map.
Qed.

Lemma dict_keys_filter_NoDup (p : string * scan -> bool) (d : sched) :
  NoDup (dict_keys d) -> NoDup (dict_keys (filter p d)).
Proof.
  induction d as [|[k v] d IH]; simpl; intros ND; [constructor|].
  inversion ND as [|? ? Hnotin ND']; subst.
  destruct (p (k, v)); simpl; [|now apply IH].
  constructor; [|now apply IH].
  intros Hin. apply Hnotin. now apply (dict_keys_filter_incl p d).
Qed.

Lemma filter_twice {A : Type} (f g h : A -> bool) (l : list A) :
  (forall x, In x l -> h x = g x && f x) ->
  filter f (filter g l) = filter h l.
Proof.
  induction l as [|a l IH]; simpl; intros Hh; [reflexivity|].
  rewrite (Hh a (or_introl eq_refl)).
  destruct (g a); simpl; [destruct (f a)|]; rewrite IH; auto.
Qed.

Lemma in_dict_keys (k : string) (v : scan) (d : sched) :
  In (k, v) d -> In k (dict_keys d).
Proof. intros H. unfold dict_keys. change k with (fst (k, v)). now apply in_map. Qed.

(** A deleting loop over a snapshot of the keys is a filter. *)
Section DeletingLoop.
Variable keep : scan -> bool.
Variable loop : list string -> sched -> outcome sched.
Hypothesis loop_nil : forall d, loop [] d = Return d.
Hypothesis loop_cons : forall name rest d,
  loop (name :: rest) d =
  (sc <- dict_get name d ;;
   if negb (keep sc)
   then d' <- dict_del name d ;; loop rest d'
   else loop rest d).

Lemma deleting_loop_kept (names : list string) :
  forall d, NoDup (dict_keys d) -> NoDup names ->
  incl names (dict_keys d) ->
  loop names d = Return (filter (kept keep names) d).
Proof.
  induction names as [|name rest IH]; intros d ND NDn Hincl.
  - rewrite loop_nil. f_equal. symmetry.
    apply forallb_filter_id. apply forallb_forall. reflexivity.
  - rewrite loop_cons.
    assert (Hname : In name (dict_keys d)) by (apply Hincl; now left).
    unfold dict_keys in Hname. apply in_map_iff in Hname.
    destruct Hname as [[k sc] [Hk HIn]]. simpl in Hk. subst k.
    rewrite (dict_get_in name sc d ND HIn). simpl.
    inversion NDn as [|? ? Hnotin NDrest]; subst.
    assert (Hrest : incl rest (dict_keys d)).
    { intros x Hx. apply Hincl. now right. }
    assert (Hsame : forall v, In (name, v) d -> v = sc).
    { intros v Hv. apply (dict_get_in name v d ND) in Hv.
      rewrite (dict_get_in name sc d ND HIn) in Hv. now inversion Hv. }
    destruct (keep sc) eqn:Hkeep; simpl.
    + rewrite (IH d ND NDrest Hrest). f_equal. apply filter_ext_in.
      intros [k v] HIn'. unfold kept. simpl.
      destruct (String.eqb_spec k name) as [->|Hne]; simpl; [|reflexivity].
      rewrite (Hsame v HIn'), Hkeep. now destruct (existsb _ rest).
    + unfold dict_del. rewrite (dict_get_in name sc d ND HIn). simpl.
      rewrite dict_remove_filter.
      set (p := fun kv : string * scan => negb (String.eqb name (fst kv))).
      rewrite IH; [|now apply dict_keys_filter_NoDup|assumption|].
      * f_equal. apply filter_twice. intros [k v] HIn'. unfold kept, p.
        simpl. rewrite (String.eqb_sym name k).
        destruct (String.eqb_spec k name) as [->|Hne]; simpl; [|reflexivity].
        now rewrite (Hsame v HIn'), Hkeep.
      * intros x Hx. destruct (proj1 (in_map_iff _ _ _) (Hrest x Hx))
          as [[k v] [Hk HIn']]. simpl in Hk. subst k.
        apply (in_dict_keys x v). apply filter_In. split; [assumption|].
        unfold p. simpl. destruct (String.eqb_spec name x) as [->|];
          [contradiction|reflexivity].
Qed.

Lemma deleting_loop_filter (d : sched) :
  NoDup (dict_keys d) ->
  loop (dict_keys d) d = Return (filter (fun kv => keep (snd kv)) d).
Proof.
  intros ND. rewrite deleting_loop_kept; auto using incl_refl.
  f_equal. apply filter_ext_in. intros [k v] HIn. unfold kept.
  assert (E : existsb (String.eqb (fst (k, v))) (dict_keys d) = true).
  { apply existsb_exists. exists k. split; [now apply (in_dict_keys k v)|].
    apply String.eqb_refl. }
  now rewrite E.
Qed.
End DeletingLoop.

Lemma keep_station_filter (telescope : string) (d : sched) :
  NoDup (dict_keys d) ->
  keep_station telescope (dict_keys d) d = Return (station_filtered telescope d).
Proof.
  intros ND.
  apply (deleting_loop_filter (includes_station telescope)
           (keep_station telescope)); auto.
Qed.

Lemma keep_source_filter (source : string) (d : sched) :
  NoDup (dict_keys d) ->
  keep_source source (dict_keys d) d = Return (source_filtered source d).
Proof.
  intros ND.
  apply (deleting_loop_filter (on_source source) (keep_source source)); auto.
Qed.

(** ** The phases of a run *)

Lemma nth_error_last {A : Type} (l : list A) (d : A) :
  l <> [] -> nth_error l (List.length l - 1) = Some (last l d).
Proof.
  induction l as [|a l IH]; intros Hne; [congruence|].
  destruct l as [|b l]; [reflexivity|].
  specialize (IH ltac:(discriminate)).
  replace (List.length (a :: b :: l) - 1)%nat
    with (S (List.length (b :: l) - 1)) by (simpl; lia).
  exact IH.
Qed.

Lemma last_map {A B : Type} (f : A -> B) (l : list A) (d : A) :
  last (map f l) (f d) = f (last l d).
Proof.
  induction l as [|a l IH]; [reflexivity|].
  destruct l as [|b l]; [reflexivity|]. exact IH.
Qed.

Lemma last_in {A : Type} (l : list A) (d : A) : l <> [] -> In (last l d) l.
Proof.
  induction l as [|a l IH]; intros Hne; [congruence|].
  destruct l as [|b l]; [now left|]. right. apply IH. discriminate.
Qed.

Section Phases.
Context {F : Type} {PF : PyFloat F}.

Lemma main_phases (opts : options F) (b : F) (schedule : sched)
      (nominal_stop : vexdate) (source telescope_arg : string) :
    NoDup (dict_keys schedule) ->
    block_duration opts = Return b ->
    main opts schedule nominal_stop source telescope_arg
    = phases opts b schedule nominal_stop source (upper telescope_arg).
Proof.
  intros ND Hb. unfold main, phases. rewrite Hb. simpl bind.
  destruct (List.length schedule <=? 1)%nat; [reflexivity|].
  rewrite (keep_station_filter _ _ ND). simpl bind.
  assert (NDs := dict_keys_filter_NoDup
                   (fun kv => includes_station (upper telescope_arg) (snd kv))
                   schedule ND).
  fold (station_filtered (upper telescope_arg) schedule) in NDs.
  destruct (station_filtered (upper telescope_arg) schedule)
    as [|[k1 scan_1] [|second rest]] eqn:Est; try reflexivity.
  set (st := (k1, scan_1) :: second :: rest) in *.
  assert (Hlen : (List.length st <=? 1)%nat = false) by reflexivity.
  rewrite Hlen.
  change (list_get (dict_keys st) 0) with (Return (A:=string) k1).
  rewrite bind_Return.
  assert (Hget1 : dict_get k1 st = Return scan_1) by apply dict_get_head.
  assert (Hlast : list_get (dict_keys st) (List.length st - 1)
                  = Return (fst (last st (k1, scan_1)))).
  { unfold list_get, dict_keys.
    rewrite <- (length_map fst st).
    rewrite (nth_error_last (map fst st) (fst (k1, scan_1)))
      by discriminate.
    now rewrite last_map. }
  assert (HgetN : dict_get (fst (last st (k1, scan_1))) st
                  = Return (snd (last st (k1, scan_1)))).
  { apply dict_get_in; [assumption|].
    rewrite <- surjective_pairing. apply last_in. discriminate. }
  assert (HlastN : last st (k1, scan_1) = last (second :: rest) (k1, scan_1))
    by reflexivity.
  assert (Hfb : (match option_value (startmjd opts) with
                 | PyNone => sc <- dict_get k1 st ;; Return (PyStr (sc_start sc))
                 | _ => Return (option_value (startmjd opts))
                 end)
                = Return (fb_Tstart (run_globals opts b scan_1))).
  { unfold run_globals, option_value. cbn [fb_Tstart].
    destruct (startmjd opts); [reflexivity|]. now rewrite Hget1. }
  rewrite Hfb, bind_Return, Hget1, bind_Return, Hlast, bind_Return, HgetN,
    bind_Return.
  rewrite (keep_source_filter _ _ NDs). rewrite bind_Return.
  rewrite HlastN. cbn [snd].
  now destruct (source_filtered source st) as [|e es] eqn:Esrc.
Qed.
End Phases.

(** ** Only the three guards of [main] leave through [sys.exit] *)

Lemma no_exit_Return {A : Type} (a : A) : no_exit (Return a).
Proof. intros p; discriminate. Qed.

Lemma no_exit_Raise {A : Type} (e : exn) : no_exit (@Raise A e).
Proof. intros p; discriminate. Qed.

Lemma no_exit_bind {A B : Type} (m : outcome A) (k : A -> outcome B) :
  no_exit m -> (forall a, no_exit (k a)) -> no_exit (bind m k).
Proof.
  intros Hm Hk p. destruct m as [a|q|e]; simpl.
  - apply Hk.
  - now destruct (Hm q).
  - discriminate.
Qed.

Create HintDb no_exit.
#[export] Hint Resolve no_exit_Return no_exit_Raise : no_exit.

Ltac no_exit_step :=
  match goal with
  | |- no_exit (bind _ _) => apply no_exit_bind; [|intros]
  | |- no_exit (if ?c then _ else _) => destruct c
  | |- no_exit (match ?x with _ => _ end) => destruct x
  | |- no_exit (let '(_, _) := ?x in _) => destruct x
  | _ => solve [auto with no_exit]
  end.

Ltac no_exit_auto := repeat no_exit_step.

Section NoExit.
Context {F : Type} {PF : PyFloat F}.

Lemma to_Q_no_exit (x : F) : no_exit (to_Q x).
Proof. unfold to_Q. no_exit_auto. Qed.
Hint Resolve to_Q_no_exit : no_exit.

Lemma trunc_no_exit (x : F) : no_exit (trunc x).
Proof. unfold trunc. no_exit_auto. Qed.

Lemma floor_no_exit (x : F) : no_exit (floor x).
Proof. unfold floor. no_exit_auto. Qed.

Lemma ceil_no_exit (x : F) : no_exit (ceil x).
Proof. unfold ceil. no_exit_auto. Qed.
Hint Resolve trunc_no_exit floor_no_exit ceil_no_exit : no_exit.

Lemma dateSec2VEX_no_exit (sec : F) (year : Z) :
  no_exit (dateSec2VEX sec year).
Proof. unfold dateSec2VEX. no_exit_auto. Qed.

Lemma dateVEXaddsec_no_exit (v : vexdate) (sec : Z) :
  no_exit (dateVEXaddsec (F:=F) v sec).
Proof. apply dateSec2VEX_no_exit. Qed.

Lemma date_no_exit (y m d : Z) : no_exit (Datetime.date y m d).
Proof. unfold Datetime.date. no_exit_auto. Qed.
Hint Resolve date_no_exit : no_exit.

Lemma fromordinal_no_exit (n : Z) : no_exit (Datetime.fromordinal n).
Proof.
  unfold Datetime.fromordinal. destruct (Datetime.ord2ymd n) as [[y m] d].
  auto with no_exit.
Qed.

Lemma date_to_jd_no_exit (y m d : Z) : no_exit (date_to_jd (F:=F) y m d).
Proof. unfold date_to_jd, gregorian_B, century_correction. no_exit_auto. Qed.
Hint Resolve fromordinal_no_exit date_to_jd_no_exit : no_exit.

Lemma dateVEX2split_no_exit (v : vexdate) : no_exit (dateVEX2split (F:=F) v).
Proof. unfold dateVEX2split. no_exit_auto. Qed.
Hint Resolve dateVEX2split_no_exit : no_exit.

Lemma block_offset_no_exit (G : globals F) (x : F) :
  no_exit (block_offset G x).
Proof. unfold block_offset, pydiv. no_exit_auto. Qed.
Hint Resolve block_offset_no_exit : no_exit.

Lemma doFlag_no_exit (G : globals F) a b p1 p2 zl :
  no_exit (doFlag G a b p1 p2 zl).
Proof. unfold doFlag. no_exit_auto. Qed.
Hint Resolve doFlag_no_exit dateVEXaddsec_no_exit : no_exit.

Lemma dict_get_no_exit (k : string) (d : sched) : no_exit (dict_get k d).
Proof.
  induction d as [|[k' v] d IH]; simpl; [auto with no_exit|].
  destruct (String.eqb k k'); auto with no_exit.
Qed.
Hint Resolve dict_get_no_exit : no_exit.

Lemma zap_stations_no_exit (G : globals F) tel sc stations c zl :
  no_exit (zap_stations G tel sc stations c zl).
Proof.
  revert c zl. induction stations as [|st rest IH]; intros c zl; simpl.
  - auto with no_exit.
  - destruct (negb (on_station tel st)); [apply IH|].
    no_exit_auto; apply IH.
Qed.
Hint Resolve zap_stations_no_exit : no_exit.

Lemma zap_scans_no_exit (G : globals F) tel d names c zl :
  no_exit (zap_scans G tel d names c zl).
Proof.
  revert c zl. induction names as [|name rest IH]; intros c zl; simpl.
  - auto with no_exit.
  - no_exit_auto; apply IH.
Qed.
Hint Resolve zap_scans_no_exit : no_exit.

Lemma zap_all_no_exit (G : globals F) tel d s1 sN stop zl :
  no_exit (zap_all G tel d s1 sN stop zl).
Proof. unfold zap_all. no_exit_auto. Qed.
End NoExit.

(** ** The "nothing to do" outcomes *)

Local Open Scope string_scope.
Local Open Scope list_scope.

(** C1, as stated, fails: a station-filtered schedule of exactly one entry is
    not processed, the run stops at the station guard with 'Nothing to do!'. *)
Lemma one_station_scan_is_nothing_to_do :
  List.length (station_filtered (upper "stationA") lone_schedule) = 1%nat
  /\ main (F:=float) example_options lone_schedule example_stop "X" "stationA"
     = Exit ExitStation
  /\ ~ (forall (opts : options float) schedule stop source telescope,
          (1 <= List.length (station_filtered (upper telescope) schedule))%nat ->
          main opts schedule stop source telescope <> Exit ExitStation).
Proof.
  split; [reflexivity|]. split; [vm_compute; reflexivity|].
  intros H.
  apply (H example_options lone_schedule example_stop "X" "stationA").
  - vm_compute. lia.
  - vm_compute. reflexivity.
Qed.

Lemma filter_length_le {A : Type} (p : A -> bool) (l : list A) :
  (List.length (filter p l) <= List.length l)%nat.
Proof.
  induction l as [|a l IH]; simpl; [lia|]. destruct (p a); simpl; lia.
Qed.

(** C1, amended: a run leaves through [sys.exit] exactly when the
    station-filtered schedule has at most one entry or the source-filtered
    schedule has none; the source guard fires exactly on an empty
    source-filtered result of at least two station-filtered entries; with at
    least two station-filtered and one source-filtered entry the run is the
    gap extraction over the source-filtered entries. *)
Theorem nothing_to_do_iff {F : Type} {PF : PyFloat F}
    (opts : options F) (b : F) (schedule : sched) (nominal_stop : vexdate)
    (source telescope_arg : string) :
  NoDup (dict_keys schedule) ->
  block_duration opts = Return b ->
  let st := station_filtered (upper telescope_arg) schedule in
  let src := source_filtered source st in
  let run := main opts schedule nominal_stop source telescope_arg in
  (exits run <-> (List.length st <= 1)%nat \/ List.length src = 0%nat)
  /\ (run = Exit ExitSource <->
      (2 <= List.length st)%nat /\ List.length src = 0%nat)
  /\ ((2 <= List.length st)%nat -> (1 <= List.length src)%nat ->
      exists scan_1 scan_N,
        hd_error st = Some scan_1 /\ last st scan_1 = scan_N
        /\ run = (zl <- zap_all (run_globals opts b (snd scan_1))
                          (upper telescope_arg) src (snd scan_1) (snd scan_N)
                          nominal_stop [] ;;
                  Return (zl, src))).
Proof.
  intros ND Hb st src run.
  assert (Hrun : run = phases opts b schedule nominal_stop source
                         (upper telescope_arg))
    by now apply main_phases.
  assert (Hle : (List.length st <= List.length schedule)%nat)
    by apply filter_length_le.
  unfold phases in Hrun. fold st in Hrun.
  assert (Hzap : forall (first last : string * scan) scans,
    no_exit (zl <- zap_all (run_globals opts b (snd first))
                     (upper telescope_arg) scans (snd first)
                     (snd last) nominal_stop [] ;;
             Return (zl, scans))).
  { intros first last scans. apply no_exit_bind; [apply zap_all_no_exit|].
    intros a. apply no_exit_Return. }
  assert (Hsrc : (List.length src <= List.length st)%nat)
    by apply filter_length_le.
  destruct (Nat.leb_spec (List.length schedule) 1) as [Hfew|Hmany].
  { (* fewer than two scans in the schedule *)
    split; [|split].
    - split; [intros _; left; lia|intros _; now exists ExitFewScans].
    - split; [rewrite Hrun; discriminate|lia].
    - lia. }
  destruct st as [|first [|second rest]] eqn:Est.
  - (* no scan of the station *)
    split; [|split].
    + split; [intros _; left; simpl; lia|intros _; now exists ExitStation].
    + split; [rewrite Hrun; discriminate|simpl; lia].
    + simpl; lia.
  - (* exactly one scan of the station *)
    split; [|split].
    + split; [intros _; left; simpl; lia|intros _; now exists ExitStation].
    + split; [rewrite Hrun; discriminate|simpl; lia].
    + simpl; lia.
  - fold src in Hrun. destruct src as [|e es] eqn:Esrc.
    + (* no scan on the source *)
      split; [|split].
      * split; [intros _; now right|intros _; now exists ExitSource].
      * split; [intros _; simpl; split; [lia|reflexivity]|intros _; exact Hrun].
      * simpl; lia.
    + split; [|split].
      * split.
        -- intros [p Hp]. exfalso. rewrite Hrun in Hp.
           now apply (Hzap first (last (second :: rest) first) (e :: es) p).
        -- simpl. intros [H1|H0]; [lia|discriminate].
      * split.
        -- intros Hp. exfalso. rewrite Hrun in Hp.
           now apply (Hzap first (last (second :: rest) first) (e :: es)
                        ExitSource).
        -- simpl. intros [_ H0]. discriminate.
      * intros _ _. exists first, (last (second :: rest) first).
        split; [reflexivity|]. split; [reflexivity|]. exact Hrun.
Qed.

Lemma example_keys_NoDup : NoDup (dict_keys example_schedule).
Proof.
  unfold example_schedule, dict_keys; simpl.
  repeat constructor; simpl; intuition discriminate.
Qed.

Lemma nothing_to_do_iff_witness :
  NoDup (dict_keys example_schedule)
  /\ block_duration (F:=float) example_options = Return example_block
  /\ (exits (main (F:=float) example_options example_schedule example_stop
               "X" "stationA")
      <-> (List.length (station_filtered (upper "stationA") example_schedule)
           <= 1)%nat
          \/ List.length
               (source_filtered "X"
                  (station_filtered (upper "stationA") example_schedule))
             = 0%nat).
Proof.
  split; [exact example_keys_NoDup|]. split; [reflexivity|].
  exact (proj1 (nothing_to_do_iff (PF:=binary64) example_options
                  example_block example_schedule example_stop "X" "stationA"
                  example_keys_NoDup eq_refl)).
Defined.

(** ** The schedule after a run *)

(** C9, as stated, fails: the run deletes from the schedule it is given.
    After the example run the dictionary holds two of its three scans. *)
Lemma run_deletes_off_source_scans :
  main (F:=float) example_options example_schedule example_stop "X" "stationA"
  = Return ([(0, 4); (4, 6)],
            [("No0001", on_stationA "X" 11 0);
             ("No0003", on_stationA "X" 11 20)])
  /\ List.length example_schedule = 3%nat
  /\ ~ (forall (opts : options float) schedule stop source telescope zl scans,
          main opts schedule stop source telescope = Return (zl, scans) ->
          scans = schedule).
Proof.
  assert (E : main (F:=float) example_options example_schedule example_stop
                "X" "stationA"
              = Return ([(0, 4); (4, 6)],
                        [("No0001", on_stationA "X" 11 0);
                         ("No0003", on_stationA "X" 11 20)]))
    by (vm_compute; reflexivity).
  split; [exact E|]. split; [reflexivity|].
  intros H. specialize (H _ _ _ _ _ _ _ E). discriminate H.
Qed.

(** C9, amended: a run that completes leaves in the schedule exactly the
    entries that include the station and are on the source, unchanged and in
    their original order. *)
Theorem schedule_after_run {F : Type} {PF : PyFloat F}
    (opts : options F) (schedule : sched) (nominal_stop : vexdate)
    (source telescope_arg : string) (zl : list zapint) (scans : sched) :
  NoDup (dict_keys schedule) ->
  main opts schedule nominal_stop source telescope_arg = Return (zl, scans) ->
  scans = filter (fun kv => includes_station (upper telescope_arg) (snd kv)
                            && on_source source (snd kv)) schedule.
Proof.
  intros ND Hrun.
  destruct (block_duration opts) as [b| |] eqn:Hb;
    try (unfold main in Hrun; rewrite Hb in Hrun; discriminate).
  rewrite (main_phases opts b) in Hrun by assumption.
  unfold phases in Hrun.
  destruct (List.length schedule <=? 1)%nat; [discriminate|].
  assert (Hst : source_filtered source
                  (station_filtered (upper telescope_arg) schedule)
                = filter (fun kv => includes_station (upper telescope_arg)
                                      (snd kv)
                                    && on_source source (snd kv)) schedule).
  { apply filter_twice. reflexivity. }
  destruct (station_filtered (upper telescope_arg) schedule)
    as [|first [|second rest]]; try discriminate.
  rewrite <- Hst.
  destruct (source_filtered source (first :: second :: rest)) as [|e es];
    [discriminate|].
  apply bind_returns_inv in Hrun. destruct Hrun as [zl' [_ E]].
  now inversion E.
Qed.

Lemma schedule_after_run_witness :
  NoDup (dict_keys example_schedule)
  /\ [("No0001", on_stationA "X" 11 0); ("No0003", on_stationA "X" 11 20)]
     = filter (fun kv => includes_station (upper "stationA") (snd kv)
                         && on_source "X" (snd kv)) example_schedule.
Proof.
  split; [exact example_keys_NoDup|].
  apply (schedule_after_run (PF:=binary64) example_options example_schedule
           example_stop "X" "stationA" [(0, 4); (4, 6)]).
  - exact example_keys_NoDup.
  - vm_compute. reflexivity.
Defined.

(** ** The zap loop walks the source-filtered entries *)

Lemma find_filter {A : Type} (p : A -> bool) (l : list A) :
  find p l = hd_error (filter p l).
Proof.
  induction l as [|a l IH]; simpl; [reflexivity|]. now destruct (p a).
Qed.

Lemma dwell_of_line (telescope : string) (e : scan) (st : station) :
  filter (on_station telescope) (sc_stations e) = [st] ->
  dwell telescope e = st_dur st.
Proof.
  intros H. unfold dwell, station_line. now rewrite find_filter, H.
Qed.

Section ZapLoop.
Context {F : Type} {PF : PyFloat F}.
Variable G : globals F.
Variable telescope : string.

Lemma zap_stations_none (sc : scan) (stations : list station) c zl :
  filter (on_station telescope) stations = [] ->
  zap_stations G telescope sc stations c zl = Return (c, zl).
Proof.
  induction stations as [|st rest IH]; simpl; intros H; [reflexivity|].
  destruct (on_station telescope st); [discriminate|]. simpl. now apply IH.
Qed.

Lemma zap_stations_one (sc : scan) (stations : list station) st c zl :
  filter (on_station telescope) stations = [st] ->
  zap_stations G telescope sc stations c zl
  = (zl' <- doFlag G c (sc_start sc) (fb_Tstart G) (fb_Tint G) zl ;;
     c' <- dateVEXaddsec (sc_start sc) (st_dur st) ;;
     Return (c', zl')).
Proof.
  induction stations as [|s rest IH]; simpl; intros H; [discriminate|].
  destruct (on_station telescope s); simpl.
  - inversion H as [[Hs Hrest]]. subst s.
    destruct (doFlag G c (sc_start sc) (fb_Tstart G) (fb_Tint G) zl);
      simpl; try reflexivity.
    destruct (dateVEXaddsec (sc_start sc) (st_dur st)); simpl;
      try reflexivity.
    now apply zap_stations_none.
  - now apply IH.
Qed.

Lemma flag_gaps_app (gs gs' : list gap) (zl : list zapint) :
  flag_gaps G (gs ++ gs') zl = (zl' <- flag_gaps G gs zl ;; flag_gaps G gs' zl').
Proof.
  revert zl. induction gs as [|[a b] gs IH]; intros zl; simpl; [reflexivity|].
  destruct (doFlag G a b (fb_Tstart G) (fb_Tint G) zl); simpl; auto.
Qed.

Lemma zap_scans_walk (d : sched) (l : list (string * scan)) :
  (forall kv, In kv l -> dict_get (fst kv) d = Return (snd kv)) ->
  (forall kv, In kv l ->
     exists st, filter (on_station telescope) (sc_stations (snd kv)) = [st]) ->
  forall cursor zl gaps cursor',
    gap_walk (F:=F) telescope (map snd l) cursor = Return (gaps, cursor') ->
    zap_scans G telescope d (map fst l) cursor zl
    = (zl' <- flag_gaps G gaps zl ;; Return (cursor', zl')).
Proof.
  induction l as [|[k e] l IH]; intros Hget Hone cursor zl gaps cursor' Hwalk.
  - simpl in Hwalk. inversion Hwalk; subst. reflexivity.
  - simpl in Hwalk.
    apply bind_returns_inv in Hwalk. destruct Hwalk as [c1 [Hadd Hwalk]].
    apply bind_returns_inv in Hwalk. destruct Hwalk as [[gs c2] [Hrest E]].
    inversion E; subst; clear E. simpl fst. simpl snd.
    simpl map. simpl zap_scans.
    assert (Hk := Hget (k, e) (or_introl eq_refl)). simpl in Hk.
    rewrite Hk. simpl bind.
    destruct (Hone (k, e) (or_introl eq_refl)) as [st Hst]. simpl in Hst.
    rewrite (zap_stations_one e (sc_stations e) st cursor zl Hst).
    rewrite (dwell_of_line telescope e st Hst) in Hadd.
    simpl flag_gaps.
    destruct (doFlag G cursor (sc_start e) (fb_Tstart G) (fb_Tint G) zl)
      as [zl1| |]; simpl; try reflexivity.
    rewrite Hadd. simpl.
    apply IH; auto.
    + intros kv HIn. apply Hget. now right.
    + intros kv HIn. apply Hone. now right.
Qed.
End ZapLoop.

Lemma exactly_one_line (telescope : string) (e : scan) :
  includes_station telescope e = true ->
  (List.length (filter (on_station telescope) (sc_stations e)) <= 1)%nat ->
  exists st, filter (on_station telescope) (sc_stations e) = [st].
Proof.
  unfold includes_station. intros Hex Hle.
  destruct (filter (on_station telescope) (sc_stations e)) as [|st [|st' l]] eqn:E.
  - exfalso. apply existsb_exists in Hex. destruct Hex as [x [HIn Hx]].
    assert (In x (filter (on_station telescope) (sc_stations e)))
      by (apply filter_In; auto).
    rewrite E in H. contradiction.
  - now exists st.
  - simpl in Hle. lia.
Qed.

(** C3: the run is the specification's gap extractor followed by the block
    mapper.  The cursor starts at the first station-filtered entry; each
    source-filtered entry emits [{cursor, entry.start}] and moves the cursor
    to the entry's start plus the station's dwell; a final gap to the nominal
    stop is emitted iff the cursor differs from the start of the last
    station-filtered entry; the gaps are flagged in that order. *)
Theorem zap_loop_extracts_gaps {F : Type} {PF : PyFloat F}
    (opts : options F) (b : F) (schedule : sched) (nominal_stop : vexdate)
    (source telescope_arg : string) (first : string * scan)
    (gaps : list gap) :
  NoDup (dict_keys schedule) ->
  block_duration opts = Return b ->
  (forall kv, In kv schedule ->
     (List.length (filter (on_station (upper telescope_arg))
                     (sc_stations (snd kv))) <= 1)%nat) ->
  let st := station_filtered (upper telescope_arg) schedule in
  let src := source_filtered source st in
  hd_error st = Some first ->
  (2 <= List.length st)%nat ->
  (1 <= List.length src)%nat ->
  extracted_gaps (F:=F) (upper telescope_arg) (snd first)
    (snd (last st first)) (map snd src) nominal_stop = Return gaps ->
  main opts schedule nominal_stop source telescope_arg
  = (zl <- flag_gaps (run_globals opts b (snd first)) gaps [] ;;
     Return (zl, src)).
Proof.
  intros ND Hb Hone. cbv zeta.
  rewrite (main_phases opts b) by assumption. unfold phases.
  assert (Hle : (List.length (station_filtered (upper telescope_arg) schedule)
                  <= List.length schedule)%nat) by apply filter_length_le.
  assert (NDst : NoDup (dict_keys
                          (station_filtered (upper telescope_arg) schedule)))
    by now apply dict_keys_filter_NoDup.
  assert (Hinc : forall kv,
            In kv (station_filtered (upper telescope_arg) schedule) ->
            exists l, filter (on_station (upper telescope_arg))
                        (sc_stations (snd kv)) = [l]).
  { intros kv HIn. apply filter_In in HIn. destruct HIn as [HIn Hinc].
    apply exactly_one_line; auto. }
  destruct (station_filtered (upper telescope_arg) schedule)
    as [|f [|second rest]]; cbn [hd_error List.length];
    intros Hhd Hst Hsrc Hgaps; try lia.
  inversion Hhd; subst f.
  destruct (Nat.leb_spec (List.length schedule) 1) as [Hfew|_];
    [exfalso; clear - Hfew Hle; cbn [List.length] in Hle; lia|].
  assert (NDsrc : NoDup (dict_keys
                           (source_filtered source (first :: second :: rest))))
    by now apply dict_keys_filter_NoDup.
  assert (Hin_src : forall kv,
            In kv (source_filtered source (first :: second :: rest)) ->
            exists l, filter (on_station (upper telescope_arg))
                        (sc_stations (snd kv)) = [l]).
  { intros kv HIn. apply filter_In in HIn. now apply Hinc. }
  destruct (source_filtered source (first :: second :: rest)) as [|e es];
    [simpl in Hsrc; lia|].
  unfold zap_all, dict_keys.
  unfold extracted_gaps in Hgaps.
  apply bind_returns_inv in Hgaps. destruct Hgaps as [[gs c] [Hwalk Hfin]].
  change (last (first :: second :: rest) first)
    with (last (second :: rest) first) in Hfin.
  rewrite (zap_scans_walk (run_globals opts b (snd first))
             (upper telescope_arg) (e :: es) (e :: es)
             ltac:(intros [k v] HIn; now apply dict_get_in)
             Hin_src _ [] gs c Hwalk).
  cbv beta iota in Hfin.
  destruct (vexdate_eqb (sc_start (snd (last (second :: rest) first))) c)
    eqn:Heq; inversion Hfin; subst gaps; clear Hfin;
    [|rewrite flag_gaps_app];
    destruct (flag_gaps (run_globals opts b (snd first)) gs []) as [zl1| |];
    cbn [bind]; try reflexivity; rewrite Heq; cbn [negb bind flag_gaps].
  - reflexivity.
  - now destruct (doFlag _ c nominal_stop _ _ zl1).
Qed.

Lemma zap_loop_extracts_gaps_witness :
  NoDup (dict_keys example_schedule)
  /\ extracted_gaps (F:=float) (upper "stationA") (on_stationA "X" 11 0)
       (on_stationA "X" 11 20)
       [on_stationA "X" 11 0; on_stationA "X" 11 20] example_stop
     = Return example_gaps
  /\ main (F:=float) example_options example_schedule example_stop
       "X" "stationA"
     = (zl <- flag_gaps (F:=float)
                (run_globals example_options example_block
                   (on_stationA "X" 11 0)) example_gaps [] ;;
        Return (zl, [("No0001", on_stationA "X" 11 0);
                     ("No0003", on_stationA "X" 11 20)])).
Proof.
  split; [exact example_keys_NoDup|].
  split; [vm_compute; reflexivity|].
  apply (zap_loop_extracts_gaps (PF:=binary64) example_options example_block
           example_schedule example_stop "X" "stationA"
           ("No0001", on_stationA "X" 11 0) example_gaps).
  - exact example_keys_NoDup.
  - reflexivity.
  - intros kv [<-|[<-|[<-|[]]]]; simpl; lia.
  - reflexivity.
  - simpl; lia.
  - simpl; lia.
  - vm_compute; reflexivity.
Defined.

(** ** The example of the specification *)

(** C5: on the example schedule the run emits exactly two block ranges.  The
    candidate gap before the first X entry (11:00:00 to 11:00:00) maps to no
    range, the gap 11:05:00-11:20:00 to one and the residual gap
    11:25:00-11:30:00 to one.  At binary64 the ranges are 0:4 and 4:6; over
    exact rationals they are 1:4 and 5:6. *)
Theorem example_flags_two_ranges :
  let G := run_globals (F:=float) example_options example_block
             (on_stationA "X" 11 0) in
  let GQ := run_globals (F:=Q) example_options example_block
              (on_stationA "X" 11 0) in
  extracted_gaps (F:=float) (upper "stationA") (on_stationA "X" 11 0)
    (on_stationA "X" 11 20) [on_stationA "X" 11 0; on_stationA "X" 11 20]
    example_stop = Return example_gaps
  /\ doFlag G (mkvex 2015 262 11 0 0) (mkvex 2015 262 11 0 0)
       (fb_Tstart G) (fb_Tint G) [] = Return []
  /\ doFlag G (mkvex 2015 262 11 5 0) (mkvex 2015 262 11 20 0)
       (fb_Tstart G) (fb_Tint G) [] = Return [(0, 4)]
  /\ doFlag G (mkvex 2015 262 11 25 0) (mkvex 2015 262 11 30 0)
       (fb_Tstart G) (fb_Tint G) [(0, 4)] = Return [(0, 4); (4, 6)]
  /\ main (F:=float) example_options example_schedule example_stop
       "X" "stationA"
     = Return ([(0, 4); (4, 6)],
               [("No0001", on_stationA "X" 11 0);
                ("No0003", on_stationA "X" 11 20)])
  /\ main (F:=Q) example_options example_schedule example_stop
       "X" "stationA"
     = Return ([(1, 4); (5, 6)],
               [("No0001", on_stationA "X" 11 0);
                ("No0003", on_stationA "X" 11 20)]).
Proof.
  cbv zeta. split_conj; vm_compute; reflexivity.
Qed.

(** ** The block mapper *)

Lemma doFlag_total {F : Type} {PF : PyFloat F}
    (G : globals F) (gap_start gap_stop : vexdate)
    (fb_tstart : pyvalue F) (fb_tint : F) (zapints_list : list zapint)
    (startMJD : F) (t1 t2 : split_date F) (q1 q2 : Q) :
  fb_Tstart G = PyNumber startMJD ->
  is_zero (fb_Tint G) = false ->
  dateVEX2split gap_start = Return t1 ->
  dateVEX2split gap_stop = Return t2 ->
  value ((d_mjd t1 - startMJD) / fb_Tint G)%F = Finite q1 ->
  value ((d_mjd t2 - startMJD) / fb_Tint G)%F = Finite q2 ->
  exists zl,
    doFlag G gap_start gap_stop fb_tstart fb_tint zapints_list = Return zl.
Proof.
  intros Hstart Hnz H1 H2 Hq1 Hq2.
  unfold doFlag. rewrite H1, H2. cbn [bind].
  unfold block_offset, pydiv. rewrite Hstart, Hnz. cbn [bind].
  unfold floor, ceil, to_Q. rewrite Hq1, Hq2. cbn [bind].
  destruct (Z.max 0 (Qfloor q1) =? Z.max 0 (Qceiling q2))%Z; eauto.
Qed.

(** C4: with a float start reference and a non-zero block duration, on a gap
    whose two timestamps have an MJD and whose block offsets are finite,
    [doFlag] returns; the start block is [max(0, floor(...))] and the stop
    block [max(0, ceil(...))] of the offsets; the list is left as it is iff
    the two are equal, and is otherwise extended by exactly that range. *)
Theorem doFlag_block_range {F : Type} {PF : PyFloat F}
    (G : globals F) (gap_start gap_stop : vexdate)
    (fb_tstart : pyvalue F) (fb_tint : F) (zapints_list : list zapint)
    (startMJD : F) (t1 t2 : split_date F) (q1 q2 : Q) :
  fb_Tstart G = PyNumber startMJD ->
  is_zero (fb_Tint G) = false ->
  dateVEX2split gap_start = Return t1 ->
  dateVEX2split gap_stop = Return t2 ->
  value ((d_mjd t1 - startMJD) / fb_Tint G)%F = Finite q1 ->
  value ((d_mjd t2 - startMJD) / fb_Tint G)%F = Finite q2 ->
  let startBlock := Z.max 0 (Qfloor q1) in
  let stopBlock := Z.max 0 (Qceiling q2) in
  exists zl,
    doFlag G gap_start gap_stop fb_tstart fb_tint zapints_list = Return zl
    /\ (zl = zapints_list <-> startBlock = stopBlock)
    /\ (startBlock <> stopBlock ->
        zl = zapints_list ++ [(startBlock, stopBlock)]).
Proof.
  intros Hstart Hnz H1 H2 Hq1 Hq2 startBlock stopBlock.
  unfold doFlag. rewrite H1, H2. cbn [bind].
  unfold block_offset, pydiv. rewrite Hstart, Hnz. cbn [bind].
  unfold floor, ceil, to_Q. rewrite Hq1, Hq2. cbn [bind].
  fold startBlock stopBlock.
  destruct (Z.eqb_spec startBlock stopBlock) as [E|NE].
  - exists zapints_list. repeat split; auto. intros; contradiction.
  - exists (zapints_list ++ [(startBlock, stopBlock)]). repeat split; auto.
    + intros E. exfalso.
      apply (f_equal (@List.length zapint)) in E.
      rewrite length_app in E. simpl in E. lia.
    + intros; contradiction.
Qed.

Lemma doFlag_block_range_witness :
  let G := run_globals (F:=float) example_options example_block
             (on_stationA "X" 11 0) in
  exists zl,
    doFlag G (mkvex 2015 262 11 5 0) (mkvex 2015 262 11 20 0) PyNone
      0%float [] = Return zl
    /\ (zl = [] <-> Z.max 0 (Qfloor (9007199246352383 # 9007199254740992))
                    = Z.max 0 (Qceiling (9007199251070975 # 2251799813685248)))
    /\ (Z.max 0 (Qfloor (9007199246352383 # 9007199254740992))
        <> Z.max 0 (Qceiling (9007199251070975 # 2251799813685248)) ->
        zl = [] ++ [(Z.max 0 (Qfloor (9007199246352383 # 9007199254740992)),
                     Z.max 0 (Qceiling (9007199251070975 # 2251799813685248)))]).
Proof.
  cbv zeta.
  refine (match dateVEX2split (F:=float) (mkvex 2015 262 11 5 0) as o1,
                dateVEX2split (F:=float) (mkvex 2015 262 11 20 0) as o2
          return dateVEX2split (mkvex 2015 262 11 5 0) = o1 ->
                 dateVEX2split (mkvex 2015 262 11 20 0) = o2 -> _
          with
          | Return t1, Return t2 => fun E1 E2 => _
          | _, _ => fun E1 E2 => _
          end eq_refl eq_refl); try (vm_compute in E1; discriminate E1);
    try (vm_compute in E2; discriminate E2).
  apply (doFlag_block_range (PF:=binary64)
           (run_globals example_options example_block (on_stationA "X" 11 0))
           (mkvex 2015 262 11 5 0) (mkvex 2015 262 11 20 0) PyNone 0%float []
           (match mjd_of (mkvex 2015 262 11 0 0) with
            | Some x => x
            | None => 0%float
            end) t1 t2).
  - reflexivity.
  - vm_compute. reflexivity.
  - exact E1.
  - exact E2.
  - vm_compute in E1. inversion E1. vm_compute. reflexivity.
  - vm_compute in E2. inversion E2. vm_compute. reflexivity.
Defined.

(** C10: the outcome of [doFlag] does not depend on what is passed as
    [fb_tstart] and [fb_tint]; it does depend on the module-level
    [fb_Tstart] and [fb_Tint].  With the example reference in the globals the
    gap 11:05:00-11:20:00 maps to 0:4 whatever the arguments say; with a
    block of twice the length in the globals it maps to 0:2. *)
Theorem doFlag_reads_globals_not_parameters :
  (forall (F : Type) (PF : PyFloat F) (G : globals F)
          (vex_tstart vex_tstop : vexdate)
          (fb_tstart fb_tstart' : pyvalue F) (fb_tint fb_tint' : F)
          (zapints_list : list zapint),
      doFlag G vex_tstart vex_tstop fb_tstart fb_tint zapints_list
      = doFlag G vex_tstart vex_tstop fb_tstart' fb_tint' zapints_list)
  /\ (let G := run_globals (F:=float) example_options example_block
                 (on_stationA "X" 11 0) in
      let G' := mkglobals (fb_Tstart G) (fb_Tint G * 2)%float in
      doFlag G (mkvex 2015 262 11 5 0) (mkvex 2015 262 11 20 0)
        (fb_Tstart G') (fb_Tint G') [] = Return [(0, 4)]
      /\ doFlag G' (mkvex 2015 262 11 5 0) (mkvex 2015 262 11 20 0)
           (fb_Tstart G) (fb_Tint G) [] = Return [(0, 2)]).
Proof.
  split.
  - intros F PF G vex_tstart vex_tstop fb_tstart fb_tstart' fb_tint fb_tint'
      zapints_list.
    unfold doFlag.
    destruct (dateVEX2split vex_tstart) as [t1| |]; [|reflexivity..].
    destruct (dateVEX2split vex_tstop) as [t2| |]; reflexivity.
  - cbv zeta. split; vm_compute; reflexivity.
Qed.

(** ** Truncation of rationals *)

Local Close Scope string_scope.

Lemma Qtrunc_floor_ceiling (q : Q) :
  Qtrunc q = if 0 <=? Qnum q then Qfloor q else Qceiling q.
Proof.
  destruct q as [n d]. unfold Qtrunc, Qceiling, Qfloor, Qopp. simpl.
  destruct (Z.leb_spec 0 n) as [Hn|Hn].
  - apply Z.quot_div_nonneg; lia.
  - rewrite <- (Z.opp_involutive n) at 1. rewrite Z.quot_opp_l by lia.
    f_equal. apply Z.quot_div_nonneg; lia.
Qed.

#[export] Instance Qtrunc_comp : Proper (Qeq ==> eq) Qtrunc.
Proof.
  intros p q Hpq. rewrite !Qtrunc_floor_ceiling.
  assert (Hsign : (0 <=? Qnum p) = (0 <=? Qnum q)).
  { unfold Qeq in Hpq.
    destruct (Z.leb_spec 0 (Qnum p)), (Z.leb_spec 0 (Qnum q)); auto; nia. }
  rewrite Hsign. destruct (0 <=? Qnum q); now rewrite Hpq.
Qed.

Lemma Qtrunc_inject_Z (z : Z) : Qtrunc (inject_Z z) = z.
Proof. unfold Qtrunc. simpl. apply Z.quot_1_r. Qed.

Lemma Qtrunc_div_exact (x : Q) (r : Z) (k : positive) :
  (x == inject_Z r)%Q -> Qtrunc (x / inject_Z (Zpos k))%Q = r ÷ Zpos k.
Proof.
  intros Hx. rewrite Hx. unfold Qtrunc, Qdiv, Qinv, Qmult, inject_Z. simpl.
  now rewrite Z.mul_1_r.
Qed.

(** ** The arithmetic of doubles *)

(** *** The digits of a mantissa *)

Lemma digits2_pos_bounds (p : positive) :
  2 ^ (Zpos (digits2_pos p) - 1) <= Zpos p < 2 ^ Zpos (digits2_pos p).
Proof.
  induction p as [p IH|p IH|]; cbn [digits2_pos].
  - rewrite Pos2Z.inj_succ, (Pos2Z.inj_xI p).
    replace (Z.succ (Zpos (digits2_pos p)) - 1)
      with (Z.succ (Zpos (digits2_pos p) - 1)) by lia.
    rewrite !Z.pow_succ_r by lia. lia.
  - rewrite Pos2Z.inj_succ, (Pos2Z.inj_xO p).
    replace (Z.succ (Zpos (digits2_pos p)) - 1)
      with (Z.succ (Zpos (digits2_pos p) - 1)) by lia.
    rewrite !Z.pow_succ_r by lia. lia.
  - simpl. lia.
Qed.

Lemma digits2_pos_unique (p : positive) (d : Z) :
  2 ^ (d - 1) <= Zpos p < 2 ^ d -> Zpos (digits2_pos p) = d.
Proof.
  intros [Hlo Hhi]. pose proof (digits2_pos_bounds p) as [Blo Bhi].
  set (k := Zpos (digits2_pos p)) in *.
  assert (0 < k) by (unfold k; lia).
  destruct (Z_lt_le_dec d 1) as [Hd|Hd].
  { assert (2 ^ d <= 2 ^ 0) by (destruct (Z_lt_le_dec d 0);
      [rewrite Z.pow_neg_r by lia; simpl; lia|apply Z.pow_le_mono_r; lia]).
    simpl in *. lia. }
  destruct (Z.lt_trichotomy k d) as [Hlt|[Heq|Hgt]]; [|exact Heq|].
  - assert (2 ^ k <= 2 ^ (d - 1)) by (apply Z.pow_le_mono_r; lia). lia.
  - assert (2 ^ d <= 2 ^ (k - 1)) by (apply Z.pow_le_mono_r; lia). lia.
Qed.

(** *** Round to nearest, ties to even, on rationals *)

Lemma Qfloor_unique (m : Z) (t : Q) :
  (inject_Z m <= t)%Q -> (t < inject_Z m + 1)%Q -> Qfloor t = m.
Proof.
  intros H1 H2.
  pose proof (Qfloor_le t) as F1. pose proof (Qlt_floor t) as F2.
  assert (A : (inject_Z m < inject_Z (Qfloor t + 1))%Q) by lra.
  assert (B : (inject_Z (Qfloor t) < inject_Z (m + 1))%Q)
    by (rewrite inject_Z_plus; change (inject_Z 1) with 1%Q; lra).
  rewrite <- Zlt_Qlt in A, B. lia.
Qed.

Lemma loc_ok_bounds (mrs : shr_record) (t : Q) :
  loc_ok mrs t ->
  (inject_Z (shr_m mrs) <= t /\ t < inject_Z (shr_m mrs) + 1)%Q.
Proof. intros (_ & [H|[H|[H|H]]]); lra. Qed.

Lemma loc_ok_eq (mrs : shr_record) (t t' : Q) :
  (t == t')%Q -> loc_ok mrs t -> loc_ok mrs t'.
Proof.
  intros E (H0 & H). split; [exact H0|].
  destruct H as [H|[H|[H|H]]];
    [left|right; left|right; right; left|right; right; right];
    repeat split; try tauto; lra.
Qed.

Ltac loc_case :=
  first
    [ left; repeat split; first [reflexivity | lra]
    | right; left; repeat split; first [reflexivity | lra]
    | right; right; left; repeat split; first [reflexivity | lra]
    | right; right; right; repeat split; first [reflexivity | lra] ].

Lemma shr_1_ok (mrs : shr_record) (t : Q) :
  loc_ok mrs t -> loc_ok (shr_1 mrs) (t * (1 # 2)).
Proof.
  destruct mrs as [m r s]. unfold loc_ok. cbn [shr_m shr_r shr_s].
  intros (H0 & H).
  destruct m as [|p|p]; [| |lia].
  - cbn [shr_1 shr_m shr_r shr_s]. split; [lia|].
    change (inject_Z 0) with 0%Q in *.
    destruct H as [(E & -> & ->)|[(A & B & -> & ->)|[(E & -> & ->)|(A & B & -> & ->)]]];
      cbn [orb]; loc_case.
  - destruct p as [p|p|].
    + assert (E2 : (inject_Z (Zpos p~1) == 2 * inject_Z (Zpos p) + 1)%Q).
      { rewrite (Pos2Z.inj_xI p), inject_Z_plus, inject_Z_mult. reflexivity. }
      cbn [shr_1 shr_m shr_r shr_s]. split; [lia|].
      destruct H as [(E & -> & ->)|[(A & B & -> & ->)|[(E & -> & ->)|(A & B & -> & ->)]]];
        cbn [orb]; loc_case.
    + assert (E2 : (inject_Z (Zpos p~0) == 2 * inject_Z (Zpos p))%Q).
      { rewrite (Pos2Z.inj_xO p), inject_Z_mult. reflexivity. }
      cbn [shr_1 shr_m shr_r shr_s]. split; [lia|].
      destruct H as [(E & -> & ->)|[(A & B & -> & ->)|[(E & -> & ->)|(A & B & -> & ->)]]];
        cbn [orb]; loc_case.
    + cbn [shr_1 shr_m shr_r shr_s]. split; [lia|].
      change (inject_Z 1) with 1%Q in *. change (inject_Z 0) with 0%Q.
      destruct H as [(E & -> & ->)|[(A & B & -> & ->)|[(E & -> & ->)|(A & B & -> & ->)]]];
        cbn [orb]; loc_case.
Qed.

Lemma P2_pos (n : positive) : (0 < P2 n)%Q.
Proof.
  unfold P2. change 0%Q with (inject_Z 0). rewrite <- Zlt_Qlt.
  apply Z.pow_pos_nonneg; lia.
Qed.

Lemma P2_xO (n : positive) : (P2 n~0 == P2 n * P2 n)%Q.
Proof.
  unfold P2. rewrite <- inject_Z_mult, (Pos2Z.inj_xO n).
  replace (2 * Zpos n) with (Zpos n + Zpos n) by lia.
  rewrite Z.pow_add_r by lia. reflexivity.
Qed.

Lemma P2_xI (n : positive) : (P2 n~1 == 2 * (P2 n * P2 n))%Q.
Proof.
  unfold P2. rewrite <- !inject_Z_mult, (Pos2Z.inj_xI n).
  replace (2 * Zpos n + 1) with (1 + (Zpos n + Zpos n)) by lia.
  rewrite !Z.pow_add_r by lia. reflexivity.
Qed.

Lemma iter_shr_1_ok (n : positive) :
  forall (mrs : shr_record) (t : Q),
    loc_ok mrs t -> loc_ok (iter_pos shr_1 n mrs) (t / P2 n).
Proof.
  induction n as [n IH|n IH|]; intros mrs t H; cbn [iter_pos].
  - apply (loc_ok_eq _ (t * (1 # 2) / P2 n / P2 n)).
    + rewrite (P2_xI n). pose proof (P2_pos n). field. lra.
    + apply IH, IH, shr_1_ok, H.
  - apply (loc_ok_eq _ (t / P2 n / P2 n)).
    + rewrite (P2_xO n). pose proof (P2_pos n). field. lra.
    + apply IH, IH, H.
  - apply (loc_ok_eq _ (t * (1 # 2))).
    + unfold P2. change (inject_Z (2 ^ 1)) with 2%Q. field.
    + apply shr_1_ok, H.
Qed.

Lemma round_nearest_even_rne (mrs : shr_record) (t : Q) :
  loc_ok mrs t ->
  round_nearest_even (shr_m mrs) (loc_of_shr_record mrs) = rne t.
Proof.
  intros H. pose proof (loc_ok_bounds _ _ H) as [B1 B2].
  destruct mrs as [m r s]. cbn [shr_m shr_r shr_s] in *.
  unfold rne. rewrite (Qfloor_unique m t B1 B2).
  destruct H as (H0 & H). cbn [shr_m shr_r shr_s] in H.
  destruct H as [(E & -> & ->)|[(A & B & -> & ->)|[(E & -> & ->)|(A & B & -> & ->)]]];
    cbn [loc_of_shr_record round_nearest_even].
  - assert (C : (t - inject_Z m ?= 1 # 2)%Q = Lt) by (apply -> Qlt_alt; lra).
    now rewrite C.
  - assert (C : (t - inject_Z m ?= 1 # 2)%Q = Lt) by (apply -> Qlt_alt; lra).
    now rewrite C.
  - assert (C : (t - inject_Z m ?= 1 # 2)%Q = Eq) by (apply -> Qeq_alt; lra).
    now rewrite C.
  - assert (C : (t - inject_Z m ?= 1 # 2)%Q = Gt) by (apply -> Qgt_alt; lra).
    now rewrite C.
Qed.

Lemma rne_floor (y : Q) : rne y = Qfloor y \/ rne y = Qfloor y + 1.
Proof.
  unfold rne. destruct (_ ?= _)%Q; [destruct (Z.even _)| |]; auto.
Qed.

Lemma rne_error (y : Q) :
  (inject_Z (rne y) - y <= 1 # 2)%Q /\ (y - inject_Z (rne y) <= 1 # 2)%Q.
Proof.
  unfold rne. pose proof (Qfloor_le y) as F1. pose proof (Qlt_floor y) as F2.
  rewrite inject_Z_plus in F2. change (inject_Z 1) with 1%Q in F2.
  destruct (y - inject_Z (Qfloor y) ?= 1 # 2)%Q eqn:C.
  - apply <- Qeq_alt in C. destruct (Z.even _);
      [|rewrite inject_Z_plus; change (inject_Z 1) with 1%Q]; lra.
  - apply <- Qlt_alt in C. lra.
  - apply <- Qgt_alt in C. rewrite inject_Z_plus.
    change (inject_Z 1) with 1%Q. lra.
Qed.

Lemma rne_inject_Z (z : Z) : rne (inject_Z z) = z.
Proof.
  unfold rne. rewrite Qfloor_Z.
  assert (C : (inject_Z z - inject_Z z ?= 1 # 2)%Q = Lt)
    by (apply -> Qlt_alt; lra).
  now rewrite C.
Qed.

Lemma rne_comp (x y : Q) : (x == y)%Q -> rne x = rne y.
Proof.
  intros E. unfold rne. rewrite (Qfloor_comp x y E).
  now rewrite E.
Qed.

(** *** Rounding a mantissa to 53 bits *)

Lemma fexp_normal (x : Z) : -1074 <= x - 53 -> fexp prec emax x = x - 53.
Proof. unfold fexp, SpecFloat.emin, prec, emax. lia. Qed.

Lemma shr_m_of_loc (m : Z) (l : location) : shr_m (shr_record_of_loc m l) = m.
Proof. destruct l as [|[]]; reflexivity. Qed.

Lemma loc_ok_exact (m : Z) :
  0 <= m -> loc_ok (shr_record_of_loc m loc_Exact) (inject_Z m).
Proof. intros H. split; [exact H|]. left. cbn. repeat split; reflexivity. Qed.

Lemma shr_ok (mrs : shr_record) (e n : Z) (t : Q) :
  0 <= n -> loc_ok mrs t ->
  snd (shr mrs e n) = e + n
  /\ loc_ok (fst (shr mrs e n)) (t / inject_Z (2 ^ n)).
Proof.
  intros Hn H. destruct n as [|p|p]; [| |lia]; cbn [shr fst snd].
  - split; [lia|]. apply (loc_ok_eq _ t); [|exact H].
    change (inject_Z (2 ^ 0)) with 1%Q. field.
  - split; [reflexivity|]. apply (iter_shr_1_ok p), H.
Qed.

Lemma pow2_pos_Q (n : Z) : 0 <= n -> (0 < inject_Z (2 ^ n))%Q.
Proof.
  intros H. change 0%Q with (inject_Z 0). rewrite <- Zlt_Qlt.
  apply Z.pow_pos_nonneg; lia.
Qed.

Lemma binary_round_aux_spec (sx : bool) (mx ex : Z) (lx : location) (t : Q)
    (d : Z) :
  0 < mx -> Zdigits2 mx = d -> 53 <= d ->
  -1074 <= d + ex - 53 -> d + ex - 53 < 971 ->
  loc_ok (shr_record_of_loc mx lx) t ->
  exists (M : positive) (E' : Z),
    binary_round_aux prec emax sx mx ex lx = S754_finite sx M E'
    /\ Zpos (digits2_pos M) = 53
    /\ -1074 <= E' <= 971
    /\ (inject_Z (Zpos M) * 2 ^ E'
        == inject_Z (rne (t / inject_Z (2 ^ (d - 53)))) * 2 ^ (d + ex - 53))%Q.
Proof.
  intros Hmx Hd Hd53 Hlo Hhi Hloc.
  set (E := d + ex - 53) in *.
  set (t' := (t / inject_Z (2 ^ (d - 53)))%Q).
  pose proof (loc_ok_bounds _ _ Hloc) as [Bt1 Bt2].
  rewrite shr_m_of_loc in Bt1, Bt2.
  assert (Bm : 2 ^ (d - 1) <= mx < 2 ^ d).
  { destruct mx as [|p|p]; try lia. cbn [Zdigits2] in Hd. subst d.
    apply digits2_pos_bounds. }
  assert (Hc : (0 < inject_Z (2 ^ (d - 53)))%Q) by (apply pow2_pos_Q; lia).
  assert (E52 : 2 ^ (d - 1) = 2 ^ 52 * 2 ^ (d - 53))
    by (rewrite <- Z.pow_add_r by lia; f_equal; lia).
  assert (E53 : 2 ^ d = 2 ^ 53 * 2 ^ (d - 53))
    by (rewrite <- Z.pow_add_r by lia; f_equal; lia).
  assert (Lt' : (inject_Z (2 ^ 52) <= t')%Q).
  { unfold t'. apply Qle_shift_div_l; [exact Hc|].
    rewrite <- inject_Z_mult, <- E52.
    apply Qle_trans with (inject_Z mx); [|exact Bt1].
    rewrite <- Zle_Qle. lia. }
  assert (Ut' : (t' < inject_Z (2 ^ 53))%Q).
  { unfold t'. apply Qlt_shift_div_r; [exact Hc|].
    rewrite <- inject_Z_mult, <- E53.
    apply Qlt_le_trans with (inject_Z mx + 1)%Q; [exact Bt2|].
    change 1%Q with (inject_Z 1). rewrite <- inject_Z_plus, <- Zle_Qle. lia. }
  assert (BM : 2 ^ 52 <= rne t' <= 2 ^ 53).
  { pose proof (Qfloor_resp_le _ _ Lt') as F1. rewrite Qfloor_Z in F1.
    pose proof (Qfloor_le t') as F2.
    assert (F3 : (inject_Z (Qfloor t') < inject_Z (2 ^ 53))%Q)
      by (eapply Qle_lt_trans; eassumption).
    rewrite <- Zlt_Qlt in F3.
    destruct (rne_floor t') as [R|R]; rewrite R; lia. }
  unfold binary_round_aux, shr_fexp. rewrite Hd.
  rewrite (fexp_normal (d + ex)) by (unfold E in Hlo; lia).
  replace (d + ex - 53 - ex) with (d - 53) by lia.
  destruct (shr_ok (shr_record_of_loc mx lx) ex (d - 53) t ltac:(lia) Hloc)
    as [He1 Hloc1].
  destruct (shr (shr_record_of_loc mx lx) ex (d - 53)) as [mrs1 e1].
  cbn [fst snd] in He1, Hloc1.
  assert (He : e1 = E) by (unfold E; lia). rewrite He in *. clear He He1.
  fold t' in Hloc1.
  rewrite (round_nearest_even_rne mrs1 t' Hloc1).
  change (2 ^ 52) with 4503599627370496 in BM.
  change (2 ^ 53) with 9007199254740992 in BM.
  destruct (rne t') as [|p|p] eqn:EM; try lia.
  destruct (Z.eq_dec (Zpos p) 9007199254740992) as [Emax|Hne].
  - (* the mantissa was rounded up to 2^53 *)
    inversion Emax; subst p. cbn [Zdigits2].
    change (Zpos (digits2_pos 9007199254740992)) with 54.
    rewrite (fexp_normal (54 + E)) by lia.
    replace (54 + E - 53 - E) with 1 by lia.
    cbn [shr shr_record_of_loc iter_pos shr_1 shr_m].
    assert (Hle : (E + 1 <=? emax - prec) = true)
      by (apply Z.leb_le; unfold emax, prec; lia).
    rewrite Hle.
    exists 4503599627370496%positive, (E + 1).
    split; [reflexivity|]. split; [reflexivity|]. split; [lia|].
    rewrite Qpower_plus by (intros H; discriminate H).
    change (2 ^ 1)%Q with 2%Q. unfold inject_Z. ring.
  - assert (Hd53' : Zpos (digits2_pos p) = 53)
      by (apply digits2_pos_unique;
          change (2 ^ (53 - 1)) with 4503599627370496;
          change (2 ^ 53) with 9007199254740992; lia).
    cbn [Zdigits2]. rewrite Hd53'.
    rewrite (fexp_normal (53 + E)) by lia.
    replace (53 + E - 53 - E) with 0 by lia.
    cbn [shr shr_record_of_loc shr_m].
    assert (Hle : (E <=? emax - prec) = true)
      by (apply Z.leb_le; unfold emax, prec; lia).
    rewrite Hle.
    exists p, E. split; [reflexivity|]. split; [exact Hd53'|].
    split; [lia|]. reflexivity.
Qed.

(** *** Powers of two *)

Lemma two_neq_0 : ~ (2 == 0)%Q.
Proof. intros H; discriminate H. Qed.

Lemma pow2_pos (a : Z) : (0 < 2 ^ a)%Q.
Proof. apply Qpower_0_lt. reflexivity. Qed.

Lemma pow2_add (a b : Z) : (2 ^ (a + b) == 2 ^ a * 2 ^ b)%Q.
Proof. apply Qpower_plus, two_neq_0. Qed.

Lemma pow2_sub (a b : Z) : (2 ^ (a - b) == 2 ^ a / 2 ^ b)%Q.
Proof. apply Qpower_minus, two_neq_0. Qed.

Lemma pow2_inject (n : Z) : 0 <= n -> (inject_Z (2 ^ n) == 2 ^ n)%Q.
Proof. intros H. now rewrite Zpower_Qpower. Qed.

Lemma pow2_le (a b : Z) : a <= b -> (2 ^ a <= 2 ^ b)%Q.
Proof. intros H. apply Qpower_le_compat_l; [exact H|]. discriminate. Qed.

Lemma pow2_lt (a b : Z) : a < b -> (2 ^ a < 2 ^ b)%Q.
Proof. intros H. apply Qpower_lt_compat_l; [exact H|]. reflexivity. Qed.

Lemma pow2_lt_inv (a b : Z) : (2 ^ a < 2 ^ b)%Q -> a < b.
Proof. intros H. apply (Qpower_lt_compat_l_inv 2); [exact H|reflexivity]. Qed.

(** *** The value of a double and the rounding of a rational *)

Lemma binary_round_aux_rounded (sx : bool) (mx ex : Z) (lx : location)
    (t : Q) (d : Z) (A : Q) :
  0 < mx -> Zdigits2 mx = d -> 53 <= d ->
  loc_ok (shr_record_of_loc mx lx) t ->
  (A == t * 2 ^ ex)%Q -> in_range A ->
  exists (M : positive) (E' : Z),
    binary_round_aux prec emax sx mx ex lx = S754_finite sx M E'
    /\ Zpos (digits2_pos M) = 53
    /\ -1074 <= E' <= 971
    /\ exists E, binade E A /\ (inject_Z (Zpos M) * 2 ^ E' == rnd_at E A)%Q.
Proof.
  intros Hmx Hd Hd53 Hloc HA [Rlo Rhi].
  pose proof (loc_ok_bounds _ _ Hloc) as [Bt1 Bt2].
  rewrite shr_m_of_loc in Bt1, Bt2.
  assert (Bm : 2 ^ (d - 1) <= mx < 2 ^ d).
  { destruct mx as [|p|p]; try lia. cbn [Zdigits2] in Hd. subst d.
    apply digits2_pos_bounds. }
  pose proof (pow2_pos ex) as Pex.
  assert (Alo : (2 ^ (d - 1 + ex) <= A)%Q).
  { rewrite HA, pow2_add. apply Qmult_le_compat_r; [|lra].
    rewrite <- pow2_inject by lia.
    apply Qle_trans with (inject_Z mx); [|exact Bt1].
    rewrite <- Zle_Qle. lia. }
  assert (Ahi : (A < 2 ^ (d + ex))%Q).
  { rewrite HA, pow2_add. apply Qmult_lt_compat_r; [exact Pex|].
    rewrite <- pow2_inject by lia.
    apply Qlt_le_trans with (inject_Z mx + 1)%Q; [exact Bt2|].
    change 1%Q with (inject_Z 1). rewrite <- inject_Z_plus, <- Zle_Qle. lia. }
  assert (H1 : -1000 < d + ex)
    by (apply pow2_lt_inv; eapply Qle_lt_trans; eassumption).
  assert (H2 : d - 1 + ex < 1000)
    by (apply pow2_lt_inv; eapply Qle_lt_trans; eassumption).
  destruct (binary_round_aux_spec sx mx ex lx t d Hmx Hd Hd53
              ltac:(lia) ltac:(lia) Hloc) as (M & E' & HM & HdM & HE' & Hv).
  exists M, E'. split; [exact HM|]. split; [exact HdM|]. split; [exact HE'|].
  exists (d + ex - 53). split.
  - split.
    + replace (d + ex - 53 + 52) with (d - 1 + ex) by lia. exact Alo.
    + replace (d + ex - 53 + 53) with (d + ex) by lia. exact Ahi.
  - rewrite Hv. unfold rnd_at.
    assert (Ey : (t / inject_Z (2 ^ (d - 53)) == A / 2 ^ (d + ex - 53))%Q).
    { rewrite HA, pow2_inject by lia.
      replace (d + ex - 53) with (ex + (d - 53)) by lia.
      rewrite pow2_add.
      pose proof (pow2_pos (d - 53)). field. split; lra. }
    rewrite (rne_comp _ _ Ey). reflexivity.
Qed.

(** *** What a rounded value satisfies *)

Lemma rnd_at_error (E : Z) (X : Q) :
  binade E X ->
  (X - X * eps <= rnd_at E X)%Q /\ (rnd_at E X <= X + X * eps)%Q.
Proof.
  intros [Blo Bhi]. unfold rnd_at.
  pose proof (pow2_pos E) as PE.
  destruct (rne_error (X / 2 ^ E)) as [R1 R2].
  set (r := inject_Z (rne (X / 2 ^ E))) in *.
  assert (EX : (X == X / 2 ^ E * 2 ^ E)%Q) by (field; lra).
  assert (Hh : (2 ^ E * (1 # 2) <= X * eps)%Q).
  { rewrite pow2_add in Blo. change (2 ^ 52)%Q with (4503599627370496 # 1) in Blo.
    unfold eps. lra. }
  assert (M1 : ((r - X / 2 ^ E) * 2 ^ E <= (1 # 2) * 2 ^ E)%Q)
    by (apply Qmult_le_compat_r; lra).
  assert (M2 : ((X / 2 ^ E - r) * 2 ^ E <= (1 # 2) * 2 ^ E)%Q)
    by (apply Qmult_le_compat_r; lra).
  split; lra.
Qed.

Lemma rnd_at_exact (E : Z) (X : Q) (k j : Z) :
  binade E X -> 0 < k < 2 ^ 53 -> (X == inject_Z k * 2 ^ j)%Q ->
  (rnd_at E X == X)%Q.
Proof.
  intros [Blo Bhi] Hk HX.
  assert (Hj : E <= j).
  { destruct (Z_lt_le_dec j E) as [Hlt|]; [exfalso|lia].
    assert (X1 : (X < 2 ^ 53 * 2 ^ j)%Q).
    { rewrite HX. apply Qmult_lt_compat_r; [apply pow2_pos|].
      rewrite <- pow2_inject by lia. rewrite <- Zlt_Qlt. lia. }
    rewrite <- pow2_add in X1.
    assert (X2 : (2 ^ (53 + j) <= 2 ^ (E + 52))%Q) by (apply pow2_le; lia).
    lra. }
  unfold rnd_at.
  assert (Ey : (X / 2 ^ E == inject_Z (k * 2 ^ (j - E)))%Q).
  { rewrite HX, inject_Z_mult, pow2_inject by lia. rewrite pow2_sub.
    pose proof (pow2_pos E). field. lra. }
  rewrite (rne_comp _ _ Ey), rne_inject_Z.
  rewrite HX, inject_Z_mult, pow2_inject by lia. rewrite pow2_sub.
  pose proof (pow2_pos E). field. lra.
Qed.

Lemma rounded_error_pos (X v : Q) :
  rounded X v -> (0 <= X)%Q ->
  (X - X * eps <= v)%Q /\ (v <= X + X * eps)%Q.
Proof.
  intros [[EX Ev]|[(E & B & Hv)|(E & B & Hv)]] H0.
  - unfold eps. lra.
  - destruct (rnd_at_error E X B). lra.
  - destruct B as [Blo _]. pose proof (pow2_pos (E + 52)). lra.
Qed.

Lemma rounded_error_neg (X v : Q) :
  rounded X v -> (X <= 0)%Q ->
  (X + X * eps <= v)%Q /\ (v <= X - X * eps)%Q.
Proof.
  intros [[EX Ev]|[(E & B & Hv)|(E & B & Hv)]] H0.
  - unfold eps. lra.
  - destruct B as [Blo _]. pose proof (pow2_pos (E + 52)). lra.
  - destruct (rnd_at_error E (- X) B). lra.
Qed.

(** The error of a rounding is at most [B * 2 ^ -53] when the magnitude is
    at most [B]. *)
Lemma rounded_within (X v B : Q) :
  rounded X v -> (- B <= X)%Q -> (X <= B)%Q ->
  (X - B * eps <= v)%Q /\ (v <= X + B * eps)%Q.
Proof.
  intros HR H1 H2.
  assert (He : (0 < eps)%Q) by reflexivity.
  destruct (Qlt_le_dec X 0) as [Hneg|Hpos].
  - destruct (rounded_error_neg X v HR) as [A1 A2]; [lra|].
    assert ((- X) * eps <= B * eps)%Q by (apply Qmult_le_compat_r; lra).
    lra.
  - destruct (rounded_error_pos X v HR Hpos) as [A1 A2].
    assert (X * eps <= B * eps)%Q by (apply Qmult_le_compat_r; lra).
    lra.
Qed.

(** A rational of at most 53 significant bits is not changed. *)
Lemma rounded_exact (X v : Q) (k j : Z) :
  rounded X v -> - 2 ^ 53 < k < 2 ^ 53 -> (X == inject_Z k * 2 ^ j)%Q ->
  (v == X)%Q.
Proof.
  intros [[EX Ev]|[(E & B & Hv)|(E & B & Hv)]] Hk HX.
  - lra.
  - rewrite Hv. apply (rnd_at_exact E X k j B); [|exact HX].
    split; [|lia].
    destruct (Z_lt_le_dec 0 k) as [|Hle]; [assumption|exfalso].
    destruct B as [Blo _]. pose proof (pow2_pos (E + 52)).
    pose proof (pow2_pos j).
    assert (inject_Z k <= 0)%Q
      by (change 0%Q with (inject_Z 0); rewrite <- Zle_Qle; lia).
    assert (inject_Z k * 2 ^ j <= 0 * 2 ^ j)%Q
      by (apply Qmult_le_compat_r; lra).
    lra.
  - rewrite Hv.
    assert (HX' : (- X == inject_Z (- k) * 2 ^ j)%Q)
      by (rewrite HX, inject_Z_opp; ring).
    rewrite (rnd_at_exact E (- X) (- k) j B); [ring| |exact HX'].
    split; [|lia].
    destruct (Z_lt_le_dec 0 (- k)) as [|Hle]; [assumption|exfalso].
    destruct B as [Blo _]. pose proof (pow2_pos (E + 52)).
    pose proof (pow2_pos j).
    assert (inject_Z (- k) <= 0)%Q
      by (change 0%Q with (inject_Z 0); rewrite <- Zle_Qle; lia).
    assert (inject_Z (- k) * 2 ^ j <= 0 * 2 ^ j)%Q
      by (apply Qmult_le_compat_r; lra).
    lra.
Qed.

Lemma rounded_comp (X X' v : Q) : (X == X')%Q -> rounded X v -> rounded X' v.
Proof.
  intros EX [[E0 Ev]|[(E & [B1 B2] & Hv)|(E & [B1 B2] & Hv)]].
  - left. split; lra.
  - right; left. exists E. split; [split; lra|].
    rewrite Hv. unfold rnd_at.
    assert (Ey : (X / 2 ^ E == X' / 2 ^ E)%Q) by now rewrite EX.
    now rewrite (rne_comp _ _ Ey).
  - right; right. exists E. split; [split; lra|].
    rewrite Hv. unfold rnd_at.
    assert (Ey : (- X / 2 ^ E == - X' / 2 ^ E)%Q) by now rewrite EX.
    now rewrite (rne_comp _ _ Ey).
Qed.

(** *** The operations on [spec_float] *)

Lemma iter_xO_val (m k : positive) :
  Zpos (Pos.iter xO m k) = Zpos m * 2 ^ Zpos k.
Proof.
  induction k as [|k IH] using Pos.peano_ind.
  - cbn [Pos.iter]. change (2 ^ 1) with 2. lia.
  - rewrite Pos.iter_succ, (Pos2Z.inj_xO (Pos.iter xO m k)), IH,
      Pos2Z.inj_succ, Z.pow_succ_r by lia. lia.
Qed.

Lemma iter_xO_digits (m k : positive) :
  Zpos (digits2_pos (Pos.iter xO m k)) = Zpos (digits2_pos m) + Zpos k.
Proof.
  induction k as [|k IH] using Pos.peano_ind.
  - cbn [Pos.iter digits2_pos]. lia.
  - rewrite Pos.iter_succ. cbn [digits2_pos].
    rewrite Pos2Z.inj_succ, IH. lia.
Qed.

Lemma shl_align_spec (mx : positive) (ex ex' : Z) :
  ex' <= ex ->
  let '(mz, ez) := shl_align mx ex ex' in
  ez = ex' /\ Zpos mz = Zpos mx * 2 ^ (ex - ex')
  /\ Zpos (digits2_pos mz) = Zpos (digits2_pos mx) + (ex - ex').
Proof.
  intros H. unfold shl_align.
  destruct (ex' - ex) as [|p|p] eqn:E; try lia.
  - replace (ex - ex') with 0 by lia. change (2 ^ 0) with 1.
    split; [lia|]. split; lia.
  - replace (ex - ex') with (Zpos p) by lia.
    split; [reflexivity|]. split; [apply iter_xO_val|apply iter_xO_digits].
Qed.

Lemma shl_align_id (mx : positive) (ex ex' : Z) :
  ex <= ex' -> shl_align mx ex ex' = (mx, ex).
Proof.
  intros H. unfold shl_align. destruct (ex' - ex) as [|p|p] eqn:E; try lia;
    reflexivity.
Qed.

Lemma rnd_at_comp (E : Z) (X X' : Q) :
  (X == X')%Q -> (rnd_at E X == rnd_at E X')%Q.
Proof.
  intros EX. unfold rnd_at.
  assert (Ey : (X / 2 ^ E == X' / 2 ^ E)%Q) by now rewrite EX.
  now rewrite (rne_comp _ _ Ey).
Qed.

Lemma sval_signed (s : bool) (m : positive) (e : Z) :
  (sval s m e == signed s (inject_Z (Zpos m) * 2 ^ e))%Q.
Proof.
  unfold sval, signed. destruct s; cbn [cond_Zopp].
  - change (- Zpos m) with (Z.opp (Zpos m)). rewrite inject_Z_opp. ring.
  - reflexivity.
Qed.

Lemma signed_rounded (s : bool) (M : positive) (E' E : Z) (A X : Q) :
  binade E A -> (inject_Z (Zpos M) * 2 ^ E' == rnd_at E A)%Q ->
  (X == signed s A)%Q ->
  rounded X (sval s M E').
Proof.
  intros [B1 B2] HM HX. destruct s; cbn [signed] in *.
  - right; right. exists E. split; [split; lra|].
    rewrite sval_signed. cbn [signed].
    rewrite HM. apply Qopp_comp, rnd_at_comp. lra.
  - right; left. exists E. split; [split; lra|].
    rewrite sval_signed. cbn [signed].
    rewrite HM. apply rnd_at_comp. lra.
Qed.

Lemma binary_round_rounded (s : bool) (m : positive) (e : Z) (A : Q) :
  (A == inject_Z (Zpos m) * 2 ^ e)%Q -> in_range A ->
  exists (M : positive) (E' : Z),
    binary_round prec emax s m e = S754_finite s M E'
    /\ Zpos (digits2_pos M) = 53
    /\ -1074 <= E' <= 971
    /\ exists E, binade E A /\ (inject_Z (Zpos M) * 2 ^ E' == rnd_at E A)%Q.
Proof.
  intros HA HR. pose proof HR as [Rlo Rhi].
  pose proof (digits2_pos_bounds m) as [Bm1 Bm2].
  set (d := Zpos (digits2_pos m)) in *.
  assert (Ahi : (A < 2 ^ (d + e))%Q).
  { rewrite HA, pow2_add. apply Qmult_lt_compat_r; [apply pow2_pos|].
    rewrite <- pow2_inject by (unfold d; lia). rewrite <- Zlt_Qlt. lia. }
  assert (H1 : -1000 < d + e)
    by (apply pow2_lt_inv; eapply Qle_lt_trans; eassumption).
  unfold binary_round. fold d.
  rewrite (fexp_normal (d + e)) by lia.
  destruct (Z_lt_le_dec d 53) as [Hsmall|Hbig].
  - pose proof (shl_align_spec m e (d + e - 53) ltac:(lia)) as Hs.
    destruct (shl_align m e (d + e - 53)) as [mz ez].
    destruct Hs as (-> & Hmz & Hdz). fold d in Hdz.
    apply (binary_round_aux_rounded s (Zpos mz) (d + e - 53) loc_Exact
             (inject_Z (Zpos mz)) 53 A); try lia.
    + cbn [Zdigits2]. lia.
    + apply loc_ok_exact. lia.
    + rewrite HA, Hmz, inject_Z_mult, pow2_inject by lia.
      replace e with ((e - (d + e - 53)) + (d + e - 53)) at 1 by lia.
      rewrite pow2_add. ring.
    + exact HR.
  - rewrite shl_align_id by lia.
    apply (binary_round_aux_rounded s (Zpos m) e loc_Exact
             (inject_Z (Zpos m)) d A); try lia.
    + reflexivity.
    + apply loc_ok_exact. lia.
    + exact HA.
    + exact HR.
Qed.

Lemma binary_normalize_rounded (z e : Z) (szero : bool) (X : Q) :
  (X == inject_Z z * 2 ^ e)%Q -> ok_range X ->
  exists v,
    stands_for (binary_normalize prec emax z e szero) v /\ rounded X v.
Proof.
  intros HX HR. pose proof (pow2_pos e) as Pe.
  destruct z as [|p|p]; cbn [binary_normalize].
  - exists 0%Q. split; [reflexivity|]. left. split; [|reflexivity].
    rewrite HX. change (inject_Z 0) with 0%Q. ring.
  - assert (Xpos : (0 < X)%Q).
    { rewrite HX. apply Qmult_lt_0_compat; [|exact Pe]. reflexivity. }
    assert (R : in_range X).
    { destruct HR as [H|[H|[H _]]]; [lra|exact H|].
      pose proof (pow2_pos (-1000)). lra. }
    destruct (binary_round_rounded false p e X HX R)
      as (M & E' & -> & HdM & HE' & E & HB & Hv).
    exists (sval false M E'). split.
    + cbn [stands_for]. repeat split; try lia. 
    + apply (signed_rounded false M E' E X X HB Hv). reflexivity.
  - assert (HX' : (- X == inject_Z (Zpos p) * 2 ^ e)%Q).
    { rewrite HX. change (Zneg p) with (- Zpos p).
      rewrite inject_Z_opp. ring. }
    assert (Xneg : (0 < - X)%Q).
    { rewrite HX'. apply Qmult_lt_0_compat; [|exact Pe]. reflexivity. }
    assert (R : in_range (- X)).
    { destruct HR as [H|[[H _]|H]]; [lra| |exact H].
      pose proof (pow2_pos (-1000)). lra. }
    destruct (binary_round_rounded true p e (- X) HX' R)
      as (M & E' & -> & HdM & HE' & E & HB & Hv).
    exists (sval true M E'). split.
    + cbn [stands_for]. repeat split; try lia.
    + apply (signed_rounded true M E' E (- X) X HB Hv).
      cbn [signed]. ring.
Qed.

Lemma stands_for_rounded (w : spec_float) (V : Q) :
  stands_for w V -> rounded V V.
Proof.
  destruct w as [s|s| |s m e]; cbn [stands_for]; try contradiction.
  - intros H. left. split; exact H.
  - intros (Hd & He & HV).
    pose proof (digits2_pos_bounds m) as [B1 B2]. rewrite Hd in B1, B2.
    set (A := (inject_Z (Zpos m) * 2 ^ e)%Q).
    assert (HB : binade e A).
    { unfold A. split.
      - rewrite pow2_add, Qmult_comm.
        apply Qmult_le_compat_r; [|pose proof (pow2_pos e); lra].
        rewrite <- pow2_inject by lia. rewrite <- Zle_Qle. exact B1.
      - rewrite pow2_add, (Qmult_comm (2 ^ e)).
        apply Qmult_lt_compat_r; [apply pow2_pos|].
        rewrite <- pow2_inject by lia. rewrite <- Zlt_Qlt. exact B2. }
    assert (HE : (rnd_at e A == A)%Q)
      by (apply (rnd_at_exact e A (Zpos m) e HB); [lia|reflexivity]).
    rewrite sval_signed in HV. fold A in HV.
    destruct s; cbn [signed] in HV.
    + right; right. exists e. split.
      * destruct HB. split; lra.
      * assert (EA : (- V == A)%Q) by lra.
        rewrite (rnd_at_comp e _ _ EA), HE. lra.
    + right; left. exists e. split.
      * destruct HB. split; lra.
      * rewrite (rnd_at_comp e _ _ HV), HE. lra.
Qed.

Lemma stands_for_comp (w : spec_float) (V V' : Q) :
  (V == V')%Q -> stands_for w V -> stands_for w V'.
Proof.
  intros E. destruct w as [s|s| |s m e]; cbn [stands_for]; try tauto.
  - intros H. lra.
  - intros (Hd & He & HV). repeat split; try tauto. lra.
Qed.

Lemma cond_Zopp_mul (s : bool) (a b : Z) :
  cond_Zopp s (a * b) = cond_Zopp s a * b.
Proof. destruct s; cbn [cond_Zopp]; lia. Qed.

Lemma sval_aligned (s : bool) (m : positive) (e ez : Z) :
  ez <= e ->
  (sval s m e == inject_Z (cond_Zopp s (Zpos m * 2 ^ (e - ez))) * 2 ^ ez)%Q.
Proof.
  intros H. unfold sval.
  rewrite cond_Zopp_mul, inject_Z_mult, pow2_inject by lia.
  replace e with ((e - ez) + ez) at 1 by lia. rewrite pow2_add. ring.
Qed.

Lemma SFadd_rounded (x y : spec_float) (X Y : Q) :
  stands_for x X -> stands_for y Y -> ok_range (X + Y) ->
  exists v, stands_for (SFadd prec emax x y) v /\ rounded (X + Y) v.
Proof.
  intros Hx Hy HR.
  destruct x as [sx|sx| |sx mx ex]; cbn [stands_for] in Hx; try contradiction;
    destruct y as [sy|sy| |sy my ey]; cbn [stands_for] in Hy;
    try contradiction.
  - exists 0%Q. split.
    + destruct sx, sy; reflexivity.
    + left. split; lra.
  - exists Y. split; [exact Hy|].
    apply (rounded_comp Y); [lra|].
    apply (stands_for_rounded (S754_finite sy my ey)). exact Hy.
  - exists X. split; [exact Hx|].
    apply (rounded_comp X); [lra|].
    apply (stands_for_rounded (S754_finite sx mx ex)). exact Hx.
  - destruct Hx as (Hdx & Hex & HX). destruct Hy as (Hdy & Hey & HY).
    cbn [SFadd]. set (ez := Z.min ex ey).
    pose proof (shl_align_spec mx ex ez ltac:(unfold ez; lia)) as Ax.
    pose proof (shl_align_spec my ey ez ltac:(unfold ez; lia)) as Ay.
    destruct (shl_align mx ex ez) as [mx' ex'].
    destruct (shl_align my ey ez) as [my' ey'].
    destruct Ax as (_ & Ax & _). destruct Ay as (_ & Ay & _).
    cbn [fst]. apply binary_normalize_rounded; [|exact HR].
    rewrite HX, HY, Ax, Ay, inject_Z_plus.
    rewrite (sval_aligned sx mx ex ez), (sval_aligned sy my ey ez)
      by (unfold ez; lia).
    ring.
Qed.

Lemma sval_negb (s : bool) (m : positive) (e : Z) :
  (sval (negb s) m e == - sval s m e)%Q.
Proof.
  rewrite !sval_signed. destruct s; cbn [negb signed]; ring.
Qed.

Lemma cond_Zopp_inject (s : bool) (z : Z) :
  (inject_Z (cond_Zopp s z) == signed s (inject_Z z))%Q.
Proof.
  destruct s; cbn [cond_Zopp signed]; [rewrite inject_Z_opp|]; reflexivity.
Qed.

Lemma SFsub_rounded (x y : spec_float) (X Y : Q) :
  stands_for x X -> stands_for y Y -> ok_range (X - Y) ->
  exists v, stands_for (SFsub prec emax x y) v /\ rounded (X - Y) v.
Proof.
  intros Hx Hy HR.
  destruct x as [sx|sx| |sx mx ex]; cbn [stands_for] in Hx; try contradiction;
    destruct y as [sy|sy| |sy my ey]; cbn [stands_for] in Hy;
    try contradiction.
  - exists 0%Q. split.
    + destruct sx, sy; reflexivity.
    + left. split; lra.
  - exists (- Y)%Q.
    assert (Hn : stands_for (S754_finite (negb sy) my ey) (- Y)).
    { destruct Hy as (Hd & He & HY). cbn [stands_for].
      repeat split; try lia. rewrite sval_negb. lra. }
    split; [exact Hn|].
    apply (rounded_comp (- Y)); [lra|].
    apply (stands_for_rounded _ _ Hn).
  - exists X. split; [exact Hx|].
    apply (rounded_comp X); [lra|].
    apply (stands_for_rounded (S754_finite sx mx ex)). exact Hx.
  - destruct Hx as (Hdx & Hex & HX). destruct Hy as (Hdy & Hey & HY).
    cbn [SFsub]. set (ez := Z.min ex ey).
    pose proof (shl_align_spec mx ex ez ltac:(unfold ez; lia)) as Ax.
    pose proof (shl_align_spec my ey ez ltac:(unfold ez; lia)) as Ay.
    destruct (shl_align mx ex ez) as [mx' ex'].
    destruct (shl_align my ey ez) as [my' ey'].
    destruct Ax as (_ & Ax & _). destruct Ay as (_ & Ay & _).
    cbn [fst]. apply binary_normalize_rounded; [|exact HR].
    rewrite HX, HY, Ax, Ay. unfold Z.sub at 1. rewrite inject_Z_plus, inject_Z_opp.
    rewrite (sval_aligned sx mx ex ez), (sval_aligned sy my ey ez)
      by (unfold ez; lia).
    ring.
Qed.

Lemma signed_xorb (sx sy : bool) (a b : Q) :
  (signed sx a * signed sy b == signed (xorb sx sy) (a * b))%Q.
Proof. destruct sx, sy; cbn [signed xorb]; ring. Qed.

Lemma in_range_of_ok (s : bool) (A X : Q) :
  (0 < A)%Q -> (X == signed s A)%Q -> ok_range X -> in_range A.
Proof.
  intros HA HX [H|[[H1 H2]|[H1 H2]]]; pose proof (pow2_pos (-1000));
    destruct s; cbn [signed] in HX; split; lra.
Qed.

Lemma SFmul_rounded (x y : spec_float) (X Y : Q) :
  stands_for x X -> stands_for y Y -> ok_range (X * Y) ->
  exists v, stands_for (SFmul prec emax x y) v /\ rounded (X * Y) v.
Proof.
  intros Hx Hy HR.
  destruct x as [sx|sx| |sx mx ex]; cbn [stands_for] in Hx; try contradiction;
    destruct y as [sy|sy| |sy my ey]; cbn [stands_for] in Hy;
    try contradiction;
    try (exists 0%Q; split; [reflexivity|left; split; [|reflexivity]];
         try rewrite Hx; try rewrite Hy; ring).
  destruct Hx as (Hdx & Hex & HX). destruct Hy as (Hdy & Hey & HY).
  cbn [SFmul].
  pose proof (digits2_pos_bounds mx) as [Bx1 Bx2]. rewrite Hdx in Bx1, Bx2.
  pose proof (digits2_pos_bounds my) as [By1 By2]. rewrite Hdy in By1, By2.
  pose proof (digits2_pos_bounds (mx * my)) as [Bp1 Bp2].
  set (d := Zpos (digits2_pos (mx * my))) in *.
  assert (Hd : 53 <= d).
  { assert (2 ^ 104 <= Zpos (mx * my)).
    { rewrite Pos2Z.inj_mul. change (2 ^ 104) with (2 ^ 52 * 2 ^ 52).
      change (2 ^ (53 - 1)) with (2 ^ 52) in Bx1, By1.
      apply Z.mul_le_mono_nonneg; lia. }
    assert (2 ^ 104 < 2 ^ d) by lia.
    apply Z.pow_lt_mono_r_iff in H0; lia. }
  set (A := (inject_Z (Zpos (mx * my)) * 2 ^ (ex + ey))%Q).
  assert (HXY : (X * Y == signed (xorb sx sy) A)%Q).
  { rewrite HX, HY, !sval_signed, signed_xorb. unfold A.
    destruct (xorb sx sy); cbn [signed];
      rewrite Pos2Z.inj_mul, inject_Z_mult, pow2_add; ring. }
  assert (Apos : (0 < A)%Q).
  { unfold A. apply Qmult_lt_0_compat; [reflexivity|apply pow2_pos]. }
  destruct (binary_round_aux_rounded (xorb sx sy) (Zpos (mx * my)) (ex + ey)
              loc_Exact (inject_Z (Zpos (mx * my))) d A)
    as (M & E' & -> & HdM & HE' & E & HB & Hv); try lia.
  - reflexivity.
  - apply loc_ok_exact. lia.
  - reflexivity.
  - apply (in_range_of_ok (xorb sx sy) A (X * Y)); assumption.
  - exists (sval (xorb sx sy) M E'). split.
    + cbn [stands_for]. repeat split; try lia.
    + apply (signed_rounded _ M E' E A _ HB Hv HXY).
Qed.

(** The location of a quotient between two integers. *)
Lemma div_location (a b q r : Z) :
  0 < b -> a = b * q + r -> 0 <= r < b -> 0 <= q ->
  loc_ok (shr_record_of_loc q (new_location b r)) (inject_Z a / inject_Z b).
Proof.
  intros Hb Ha Hr Hq.
  assert (Pb : (0 < inject_Z b)%Q)
    by (change 0%Q with (inject_Z 0); rewrite <- Zlt_Qlt; lia).
  assert (Et : (inject_Z a / inject_Z b == inject_Z q + inject_Z r / inject_Z b)%Q).
  { rewrite Ha, inject_Z_plus, inject_Z_mult. field. lra. }
  set (rho := (inject_Z r / inject_Z b)%Q) in *.
  assert (Hrho : (rho * inject_Z b == inject_Z r)%Q) by (unfold rho; field; lra).
  apply (loc_ok_eq _ (inject_Z q + rho)); [now rewrite Et|].
  assert (R0 : (0 <= inject_Z r)%Q)
    by (change 0%Q with (inject_Z 0); rewrite <- Zle_Qle; lia).
  assert (R1 : (inject_Z r < inject_Z b)%Q) by (rewrite <- Zlt_Qlt; lia).
  assert (Rho0 : (0 <= rho)%Q).
  { unfold rho. apply Qle_shift_div_l; [exact Pb|]. lra. }
  assert (Rho1 : (rho < 1)%Q).
  { unfold rho. apply Qlt_shift_div_r; [exact Pb|]. lra. }
  assert (Cmp : forall c, (2 * r ?= b) = c ->
            match c with
            | Lt => (rho < 1 # 2)%Q
            | Eq => (rho == 1 # 2)%Q
            | Gt => (1 # 2 < rho)%Q
            end).
  { intros c Hc. destruct c.
    - apply Z.compare_eq in Hc.
      assert (inject_Z (2 * r) == inject_Z b)%Q by now rewrite Hc.
      rewrite inject_Z_mult in H. change (inject_Z 2) with 2%Q in H.
      assert ((rho - (1 # 2)) * inject_Z b == 0)%Q by lra.
      apply Qmult_integral in H0. destruct H0; lra.
    - rewrite Z.compare_lt_iff in Hc.
      assert (inject_Z (2 * r) < inject_Z b)%Q by (rewrite <- Zlt_Qlt; lia).
      rewrite inject_Z_mult in H. change (inject_Z 2) with 2%Q in H.
      unfold rho. apply Qlt_shift_div_r; [exact Pb|]. lra.
    - rewrite Z.compare_gt_iff in Hc.
      assert (inject_Z b < inject_Z (2 * r))%Q by (rewrite <- Zlt_Qlt; lia).
      rewrite inject_Z_mult in H. change (inject_Z 2) with 2%Q in H.
      unfold rho. apply Qlt_shift_div_l; [exact Pb|]. lra. }
  split; [rewrite shr_m_of_loc; exact Hq|].
  assert (Hzero : r = 0 -> (rho == 0)%Q).
  { intros ->. change (inject_Z 0) with 0%Q in Hrho.
    apply Qmult_integral in Hrho. destruct Hrho; lra. }
  assert (Rpos : r <> 0 -> (0 < rho)%Q).
  { intros Hr0. unfold rho. apply Qlt_shift_div_l; [exact Pb|].
    assert (inject_Z 0 < inject_Z r)%Q by (rewrite <- Zlt_Qlt; lia).
    change (inject_Z 0) with 0%Q in H. lra. }
  unfold new_location.
  destruct (Z.even b) eqn:Eb; unfold new_location_even, new_location_odd;
    destruct (Z.eqb_spec r 0) as [Hr0|Hr0];
    try (pose proof (Hzero Hr0);
         cbn [shr_record_of_loc shr_m shr_r shr_s]; loc_case);
    pose proof (Rpos Hr0).
  - pose proof (Cmp _ eq_refl) as C.
    destruct (2 * r ?= b); cbn [shr_record_of_loc shr_m shr_r shr_s];
      loc_case.
  - assert (Hodd : 2 * r <> b).
    { intros Heq. rewrite <- Heq, Z.even_mul in Eb. discriminate. }
    pose proof (Cmp _ eq_refl) as C.
    destruct (2 * r + 1 ?= b) eqn:C1.
    + apply Z.compare_eq in C1.
      assert (C2 : (2 * r ?= b) = Lt) by (apply Z.compare_lt_iff; lia).
      rewrite C2 in C.
      cbn [shr_record_of_loc shr_m shr_r shr_s]; loc_case.
    + rewrite Z.compare_lt_iff in C1.
      assert (C2 : (2 * r ?= b) = Lt) by (apply Z.compare_lt_iff; lia).
      rewrite C2 in C.
      cbn [shr_record_of_loc shr_m shr_r shr_s]; loc_case.
    + rewrite Z.compare_gt_iff in C1.
      assert (C2 : (2 * r ?= b) = Gt) by (apply Z.compare_gt_iff; lia).
      rewrite C2 in C.
      cbn [shr_record_of_loc shr_m shr_r shr_s]; loc_case.
Qed.

Lemma SFdiv_rounded (x y : spec_float) (X Y : Q) :
  stands_for x X -> stands_for y Y -> ~ (Y == 0)%Q -> ok_range (X / Y) ->
  exists v, stands_for (SFdiv prec emax x y) v /\ rounded (X / Y) v.
Proof.
  intros Hx Hy HY0 HR.
  destruct x as [sx|sx| |sx mx ex]; cbn [stands_for] in Hx; try contradiction;
    destruct y as [sy|sy| |sy my ey]; cbn [stands_for] in Hy;
    try contradiction; try (exfalso; apply HY0; exact Hy).
  - exists 0%Q. split; [reflexivity|]. left. split; [|reflexivity].
    rewrite Hx. unfold Qdiv. ring.
  - destruct Hx as (Hdx & Hex & HX). destruct Hy as (Hdy & Hey & HY).
    pose proof (digits2_pos_bounds mx) as [Bx1 Bx2]. rewrite Hdx in Bx1, Bx2.
    pose proof (digits2_pos_bounds my) as [By1 By2]. rewrite Hdy in By1, By2.
    change (2 ^ (53 - 1)) with 4503599627370496 in Bx1, By1.
    change (2 ^ 53) with 9007199254740992 in Bx2, By2.
    set (A := (inject_Z (Zpos mx) / inject_Z (Zpos my) * 2 ^ (ex - ey))%Q).
    assert (Pmx : (0 < inject_Z (Zpos mx))%Q) by reflexivity.
    assert (Pmy : (0 < inject_Z (Zpos my))%Q) by reflexivity.
    assert (HXY : (X / Y == signed (xorb sx sy) A)%Q).
    { rewrite HX, HY, !sval_signed. unfold A.
      pose proof (pow2_pos ex). pose proof (pow2_pos ey).
      destruct sx, sy; cbn [signed xorb]; rewrite pow2_sub; field;
        split; lra. }
    assert (Apos : (0 < A)%Q).
    { unfold A. apply Qmult_lt_0_compat; [|apply pow2_pos].
      apply Qlt_shift_div_l; [exact Pmy|]. lra. }
    pose proof (in_range_of_ok _ A _ Apos HXY HR) as RA.
    assert (Hee : -1000 <= ex - ey).
    { destruct RA as [Rlo _].
      assert (A < 2 ^ (ex - ey + 1))%Q.
      { unfold A. rewrite pow2_add, (Qmult_comm (2 ^ (ex - ey))).
        apply Qmult_lt_compat_r; [apply pow2_pos|].
        change (2 ^ 1)%Q with 2%Q.
        apply Qlt_shift_div_r; [exact Pmy|].
        assert (inject_Z (Zpos mx) < inject_Z (2 * Zpos my))%Q
          by (rewrite <- Zlt_Qlt; lia).
        rewrite inject_Z_mult in H. exact H. }
      assert (-1000 < ex - ey + 1)
        by (apply pow2_lt_inv; eapply Qle_lt_trans; eassumption).
      lia. }
    cbn [SFdiv]. unfold SFdiv_core_binary. cbn [Zdigits2].
    rewrite Hdx, Hdy.
    replace (53 + ex - (53 + ey)) with (ex - ey) by lia.
    rewrite (fexp_normal (ex - ey)) by lia.
    rewrite Z.min_l by lia.
    replace (ex - ey - (ex - ey - 53)) with 53 by lia.
    rewrite Z.shiftl_mul_pow2 by lia.
    change (2 ^ 53) with 9007199254740992.
    pose proof (Z_div_mod (Zpos mx * 9007199254740992) (Zpos my) ltac:(lia))
      as Hdm.
    destruct (Z.div_eucl (Zpos mx * 9007199254740992) (Zpos my)) as [q r].
    destruct Hdm as [Hqr Hr].
    assert (Hq : 4503599627370496 <= q) by nia.
    assert (Hloc : loc_ok (shr_record_of_loc q (new_location (Zpos my) r))
                     (inject_Z (Zpos mx * 9007199254740992)
                      / inject_Z (Zpos my)))
      by (apply div_location; [lia|exact Hqr|exact Hr|lia]).
    assert (Hd : 53 <= Zdigits2 q).
    { destruct q as [|p|p]; try lia. cbn [Zdigits2].
      pose proof (digits2_pos_bounds p) as [_ Bp].
      assert (2 ^ 52 < 2 ^ Zpos (digits2_pos p))
        by (change (2 ^ 52) with 4503599627370496; lia).
      apply Z.pow_lt_mono_r_iff in H; lia. }
    destruct (binary_round_aux_rounded (xorb sx sy) q (ex - ey - 53)
                (new_location (Zpos my) r)
                (inject_Z (Zpos mx * 9007199254740992) / inject_Z (Zpos my))
                (Zdigits2 q) A)
      as (M & E' & -> & HdM & HE' & E & HB & Hv); try lia.
    + exact Hloc.
    + unfold A. rewrite inject_Z_mult, (pow2_sub (ex - ey) 53).
      change (2 ^ 53)%Q with (inject_Z 9007199254740992).
      field. lra.
    + exact RA.
    + exists (sval (xorb sx sy) M E'). split.
      * cbn [stands_for]. repeat split; try lia.
      * apply (signed_rounded _ M E' E A _ HB Hv HXY).
Qed.

(** *** Primitive floats and the rationals they stand for *)

Lemma stands_for_valid (w : spec_float) (X : Q) :
  stands_for w X -> valid_binary w = true.
Proof.
  destruct w as [s|s| |s m e]; cbn [stands_for]; try contradiction;
    try reflexivity.
  intros (Hd & He & _). cbn [SpecFloat.valid_binary]. unfold bounded, canonical_mantissa.
  rewrite Hd, (fexp_normal (53 + e)) by lia.
  apply andb_true_iff. split; [apply Z.eqb_eq; lia|].
  apply Z.leb_le. unfold emax, prec. lia.
Qed.

Lemma SF2value_stands_for (w : spec_float) (X : Q) :
  stands_for w X -> exists q, Binary64.SF2value w = Finite q /\ (q == X)%Q.
Proof.
  destruct w as [s|s| |s m e]; cbn [stands_for]; try contradiction.
  - intros H. exists 0%Q. split; [reflexivity|]. lra.
  - intros (Hd & He & HX). cbn [Binary64.SF2value].
    eexists. split; [reflexivity|]. rewrite HX. unfold sval.
    assert (En : (if s then Zneg m else Zpos m) = cond_Zopp s (Zpos m))
      by (destruct s; reflexivity).
    rewrite En. set (n := cond_Zopp s (Zpos m)).
    destruct (Z.leb_spec 0 e) as [Hpos|Hneg].
    + rewrite inject_Z_mult, pow2_inject by lia. reflexivity.
    + assert (Hp : 0 < 2 ^ (- e)) by (apply Z.pow_pos_nonneg; lia).
      rewrite Qmake_Qdiv, Z2Pos.id by exact Hp.
      rewrite pow2_inject by lia.
      assert (E2 : (2 ^ e == / 2 ^ (- e))%Q)
        by (rewrite <- Qpower_opp; now rewrite Z.opp_involutive).
      rewrite E2. reflexivity.
Qed.

Lemma dbl_value (x : float) (X : Q) :
  dbl x X -> exists q, value (F:=float) x = Finite q /\ (q == X)%Q.
Proof. intros H. exact (SF2value_stands_for _ _ H). Qed.

Lemma dbl_comp (x : float) (X X' : Q) : (X == X')%Q -> dbl x X -> dbl x X'.
Proof. apply stands_for_comp. Qed.

Lemma dbl_trunc (x : float) (X : Q) :
  dbl x X -> trunc (F:=float) x = Return (Qtrunc X).
Proof.
  intros H. destruct (dbl_value x X H) as (q & Hq & E).
  unfold trunc, to_Q. rewrite Hq. cbn [bind]. now rewrite E.
Qed.

Lemma dbl_floor (x : float) (X : Q) :
  dbl x X -> floor (F:=float) x = Return (Qfloor X).
Proof.
  intros H. destruct (dbl_value x X H) as (q & Hq & E).
  unfold floor, to_Q. rewrite Hq. cbn [bind]. now rewrite E.
Qed.

Lemma dbl_ceil (x : float) (X : Q) :
  dbl x X -> ceil (F:=float) x = Return (Qceiling X).
Proof.
  intros H. destruct (dbl_value x X H) as (q & Hq & E).
  unfold ceil, to_Q. rewrite Hq. cbn [bind]. now rewrite E.
Qed.

Lemma dbl_add (x y : float) (X Y : Q) :
  dbl x X -> dbl y Y -> ok_range (X + Y) ->
  exists v, dbl (fadd x y) v /\ rounded (X + Y) v.
Proof.
  unfold dbl. cbn [fadd binary64]. rewrite add_spec. apply SFadd_rounded.
Qed.

Lemma dbl_sub (x y : float) (X Y : Q) :
  dbl x X -> dbl y Y -> ok_range (X - Y) ->
  exists v, dbl (fsub x y) v /\ rounded (X - Y) v.
Proof.
  unfold dbl. cbn [fsub binary64]. rewrite sub_spec. apply SFsub_rounded.
Qed.

Lemma dbl_mul (x y : float) (X Y : Q) :
  dbl x X -> dbl y Y -> ok_range (X * Y) ->
  exists v, dbl (fmul x y) v /\ rounded (X * Y) v.
Proof.
  unfold dbl. cbn [fmul binary64]. rewrite mul_spec. apply SFmul_rounded.
Qed.

Lemma dbl_div (x y : float) (X Y : Q) :
  dbl x X -> dbl y Y -> ~ (Y == 0)%Q -> ok_range (X / Y) ->
  exists v, dbl (fdiv x y) v /\ rounded (X / Y) v.
Proof.
  unfold dbl. cbn [fdiv binary64]. rewrite div_spec. apply SFdiv_rounded.
Qed.

Lemma dyadic_int (z : Z) : - 2 ^ 53 < z < 2 ^ 53 -> dyadic (inject_Z z).
Proof.
  intros H. exists z, 0. split; [exact H|]. split; [lia|].
  change (2 ^ 0)%Q with 1%Q. ring.
Qed.

Lemma dyadic_comp (X X' : Q) : (X == X')%Q -> dyadic X -> dyadic X'.
Proof.
  intros E (k & j & Hk & Hj & HX). exists k, j. repeat split; try lia. lra.
Qed.

Lemma dyadic_ok_range (X : Q) : dyadic X -> ok_range X.
Proof.
  intros (k & j & Hk & Hj & HX).
  pose proof (pow2_pos j) as Pj.
  assert (L : (2 ^ (-1000) <= 2 ^ j)%Q) by (apply pow2_le; lia).
  assert (U : (2 ^ j <= 1)%Q)
    by (change 1%Q with (2 ^ 0)%Q; apply pow2_le; lia).
  assert (U2 : (9007199254740992 < 2 ^ 1000)%Q)
    by (change 9007199254740992%Q with (2 ^ 53)%Q; apply pow2_lt; lia).
  change (2 ^ 53) with 9007199254740992 in Hk.
  destruct (Z.lt_trichotomy k 0) as [Hn|[->|Hp]].
  - right; right. split.
    + assert (inject_Z k <= inject_Z (-1))%Q by (rewrite <- Zle_Qle; lia).
      change (inject_Z (-1)) with (-1)%Q in H.
      assert ((- inject_Z k) * 2 ^ j >= 1 * 2 ^ j)%Q
        by (apply Qmult_le_compat_r; lra).
      lra.
    + assert (inject_Z (-9007199254740992) <= inject_Z k)%Q
        by (rewrite <- Zle_Qle; lia).
      change (inject_Z (-9007199254740992)) with (-9007199254740992)%Q in H.
      assert ((- inject_Z k) * 2 ^ j <= 9007199254740992 * 2 ^ j)%Q
        by (apply Qmult_le_compat_r; lra).
      assert (9007199254740992 * 2 ^ j <= 9007199254740992 * 1)%Q
        by (apply Qmult_le_l; lra).
      lra.
  - left. rewrite HX. change (inject_Z 0) with 0%Q. ring.
  - right; left. split.
    + assert (inject_Z 1 <= inject_Z k)%Q by (rewrite <- Zle_Qle; lia).
      change (inject_Z 1) with 1%Q in H.
      assert (1 * 2 ^ j <= inject_Z k * 2 ^ j)%Q
        by (apply Qmult_le_compat_r; lra).
      lra.
    + assert (inject_Z k <= inject_Z 9007199254740992)%Q
        by (rewrite <- Zle_Qle; lia).
      change (inject_Z 9007199254740992) with 9007199254740992%Q in H.
      assert (inject_Z k * 2 ^ j <= 9007199254740992 * 2 ^ j)%Q
        by (apply Qmult_le_compat_r; lra).
      assert (9007199254740992 * 2 ^ j <= 9007199254740992 * 1)%Q
        by (apply Qmult_le_l; lra).
      lra.
Qed.

Lemma rounded_dyadic (X v : Q) : rounded X v -> dyadic X -> (v == X)%Q.
Proof.
  intros HR (k & j & Hk & Hj & HX). exact (rounded_exact X v k j HR Hk HX).
Qed.

(** Operations whose exact result is a dyadic of 53 bits are exact. *)
Lemma dbl_add_exact (x y : float) (X Y : Q) :
  dbl x X -> dbl y Y -> dyadic (X + Y) -> dbl (fadd x y) (X + Y).
Proof.
  intros Hx Hy HD.
  destruct (dbl_add x y X Y Hx Hy (dyadic_ok_range _ HD)) as (v & Hv & HR).
  apply (dbl_comp _ v); [|exact Hv]. exact (rounded_dyadic _ _ HR HD).
Qed.

Lemma dbl_sub_exact (x y : float) (X Y : Q) :
  dbl x X -> dbl y Y -> dyadic (X - Y) -> dbl (fsub x y) (X - Y).
Proof.
  intros Hx Hy HD.
  destruct (dbl_sub x y X Y Hx Hy (dyadic_ok_range _ HD)) as (v & Hv & HR).
  apply (dbl_comp _ v); [|exact Hv]. exact (rounded_dyadic _ _ HR HD).
Qed.

Lemma dbl_mul_exact (x y : float) (X Y : Q) :
  dbl x X -> dbl y Y -> dyadic (X * Y) -> dbl (fmul x y) (X * Y).
Proof.
  intros Hx Hy HD.
  destruct (dbl_mul x y X Y Hx Hy (dyadic_ok_range _ HD)) as (v & Hv & HR).
  apply (dbl_comp _ v); [|exact Hv]. exact (rounded_dyadic _ _ HR HD).
Qed.

(** [float(z)] of an integer of at most 53 bits. *)
Lemma dbl_of_int (z : Z) :
  - 2 ^ 53 < z < 2 ^ 53 -> dbl (of_int (F:=float) z) (inject_Z z).
Proof.
  intros Hz. unfold dbl. cbn [of_int binary64]. unfold Binary64.of_Z.
  assert (HD : dyadic (inject_Z z)) by now apply dyadic_int.
  destruct (binary_normalize_rounded z 0 false (inject_Z z)) as (v & Hv & HR).
  { change (2 ^ 0)%Q with 1%Q. ring. }
  { exact (dyadic_ok_range _ HD). }
  rewrite Prim2SF_SF2Prim by exact (stands_for_valid _ _ Hv).
  apply (stands_for_comp _ v); [|exact Hv]. exact (rounded_dyadic _ _ HR HD).
Qed.

(** *** Literals of the source *)

Ltac dbl_closed :=
  unfold dbl;
  match goal with
  | |- stands_for (Prim2SF ?x) _ =>
      let w := eval vm_compute in (Prim2SF x) in
      replace (Prim2SF x) with w by (vm_compute; reflexivity)
  end;
  cbn [stands_for]; split; [reflexivity|split; [lia|vm_compute; reflexivity]].

Lemma dbl_lit_60 : dbl (lit (F:=float) 60) 60.
Proof. dbl_closed. Qed.

Lemma dbl_lit_3600 : dbl (lit (F:=float) 3600) 3600.
Proof. dbl_closed. Qed.

Lemma dbl_lit_86400 : dbl (lit (F:=float) 86400) 86400.
Proof. dbl_closed. Qed.

Lemma dbl_lit_24 : dbl (lit (F:=float) 24) 24.
Proof. dbl_closed. Qed.

(** *** Truncating a quotient of integers *)

Lemma Qtrunc_nonneg (v : Q) (q : Z) :
  0 <= q -> (inject_Z q <= v)%Q -> (v < inject_Z q + 1)%Q -> Qtrunc v = q.
Proof.
  intros Hq H1 H2. rewrite Qtrunc_floor_ceiling.
  assert (H0 : (0 <= v)%Q).
  { assert (inject_Z 0 <= inject_Z q)%Q by (rewrite <- Zle_Qle; lia).
    change (inject_Z 0) with 0%Q in H. lra. }
  assert (Hn : (0 <=? Qnum v) = true).
  { apply Z.leb_le. unfold Qle in H0. simpl in H0. lia. }
  rewrite Hn. now apply Qfloor_unique.
Qed.

Lemma Qtrunc_nonpos (v : Q) (q : Z) :
  q <= 0 -> (inject_Z q - 1 < v)%Q -> (v <= inject_Z q)%Q -> Qtrunc v = q.
Proof.
  intros Hq H1 H2.
  assert (Hc : Qceiling v = q).
  { unfold Qceiling.
    rewrite (Qfloor_unique (- q) (- v)); [lia| |];
      rewrite inject_Z_opp; lra. }
  rewrite Qtrunc_floor_ceiling.
  destruct (Z.leb_spec 0 (Qnum v)) as [Hn|Hn]; [|exact Hc].
  assert (H0 : (0 <= v)%Q) by (unfold Qle; simpl; lia).
  assert (H : (inject_Z q <= inject_Z 0)%Q) by (rewrite <- Zle_Qle; lia).
  change (inject_Z 0) with 0%Q in H.
  apply Qfloor_unique; lra.
Qed.

Lemma Qtrunc_rounded_quotient (s c : Z) (v : Q) :
  0 < c -> - 2 ^ 53 < s < 2 ^ 53 ->
  rounded (inject_Z s / inject_Z c) v ->
  Qtrunc v = s ÷ c.
Proof.
  intros Hc Hs HR.
  change (2 ^ 53) with 9007199254740992 in Hs.
  pose proof (Z.quot_rem' s c) as Hqr.
  set (q := s ÷ c) in *. set (r := Z.rem s c) in *.
  assert (Pc : (0 < inject_Z c)%Q)
    by (change 0%Q with (inject_Z 0); rewrite <- Zlt_Qlt; lia).
  assert (Pic : (0 < / inject_Z c)%Q) by now apply Qinv_lt_0_compat.
  set (x := (inject_Z s / inject_Z c)%Q) in *.
  assert (Ex : (x == inject_Z q + inject_Z r * / inject_Z c)%Q).
  { unfold x. rewrite Hqr, inject_Z_plus, inject_Z_mult. field. lra. }
  assert (Exe : (x * eps == inject_Z s * eps * / inject_Z c)%Q)
    by (unfold x; field; lra).
  assert (S1 : (inject_Z (-9007199254740992) < inject_Z s)%Q)
    by (rewrite <- Zlt_Qlt; lia).
  assert (S2 : (inject_Z s < inject_Z 9007199254740992)%Q)
    by (rewrite <- Zlt_Qlt; lia).
  change (inject_Z (-9007199254740992)) with (-9007199254740992)%Q in S1.
  change (inject_Z 9007199254740992) with 9007199254740992%Q in S2.
  assert (Xe1 : (x * eps < / inject_Z c)%Q).
  { rewrite Exe.
    assert (inject_Z s * eps * / inject_Z c < 1 * / inject_Z c)%Q
      by (apply Qmult_lt_compat_r; [exact Pic|unfold eps; lra]).
    lra. }
  assert (Xe2 : (- / inject_Z c < x * eps)%Q).
  { rewrite Exe.
    assert ((-1) * / inject_Z c < inject_Z s * eps * / inject_Z c)%Q
      by (apply Qmult_lt_compat_r; [exact Pic|unfold eps; lra]).
    lra. }
  destruct (Z.eq_dec r 0) as [Hr0|Hr0].
  - (* the quotient is an integer *)
    assert (Eq : (x == inject_Z q * 2 ^ 0)%Q).
    { rewrite Ex, Hr0. change (inject_Z 0) with 0%Q.
      change (2 ^ 0)%Q with 1%Q. ring. }
    assert (Hq : - 2 ^ 53 < q < 2 ^ 53).
    { change (2 ^ 53) with 9007199254740992. unfold q.
      pose proof (Z.quot_rem' s c). nia. }
    pose proof (rounded_exact x v q 0 HR Hq Eq) as Ev.
    assert (Ev' : (v == inject_Z q)%Q).
    { rewrite Ev, Eq. change (2 ^ 0)%Q with 1%Q. ring. }
    rewrite Ev'. apply Qtrunc_inject_Z.
  - destruct (Z_lt_le_dec s 0) as [Hneg|Hpos].
    + (* negative *)
      assert (Hr : - c < r < 0).
      { pose proof (Z.rem_bound_abs s c ltac:(lia)) as Ha.
        pose proof (Z.rem_sign_nz s c ltac:(lia) Hr0) as Hs'.
        fold r in Ha, Hs'. lia. }
      assert (Hq : q <= 0) by nia.
      assert (R1 : (inject_Z r * / inject_Z c <= (-1) * / inject_Z c)%Q).
      { apply Qmult_le_compat_r; [|lra].
        change (-1)%Q with (inject_Z (-1)). rewrite <- Zle_Qle. lia. }
      assert (R2 : (inject_Z r * / inject_Z c
                    >= (1 - inject_Z c) * / inject_Z c)%Q).
      { apply Qmult_le_compat_r; [|lra].
        assert (Hz : (inject_Z (1 + - c) <= inject_Z r)%Q)
          by (rewrite <- Zle_Qle; lia).
        rewrite inject_Z_plus, inject_Z_opp in Hz.
        change (inject_Z 1) with 1%Q in Hz. lra. }
      assert (R3 : ((1 - inject_Z c) * / inject_Z c == / inject_Z c - 1)%Q)
        by (field; lra).
      assert (Xneg : (x <= 0)%Q).
      { assert (inject_Z q <= inject_Z 0)%Q by (rewrite <- Zle_Qle; lia).
        change (inject_Z 0) with 0%Q in H. lra. }
      destruct (rounded_error_neg x v HR Xneg) as [V1 V2].
      apply Qtrunc_nonpos; [exact Hq|lra|lra].
    + assert (Hr : 0 < r < c).
      { pose proof (Z.rem_bound_abs s c ltac:(lia)) as Ha.
        pose proof (Z.rem_sign_nz s c ltac:(lia) Hr0) as Hs'.
        fold r in Ha, Hs'. lia. }
      assert (Hq : 0 <= q) by nia.
      assert (R1 : (1 * / inject_Z c <= inject_Z r * / inject_Z c)%Q).
      { apply Qmult_le_compat_r; [|lra].
        change 1%Q with (inject_Z 1). rewrite <- Zle_Qle. lia. }
      assert (R2 : (inject_Z r * / inject_Z c
                    <= (inject_Z c - 1) * / inject_Z c)%Q).
      { apply Qmult_le_compat_r; [|lra].
        assert (Hz : (inject_Z r <= inject_Z (c + - (1)))%Q)
          by (rewrite <- Zle_Qle; lia).
        rewrite inject_Z_plus, inject_Z_opp in Hz.
        change (inject_Z 1) with 1%Q in Hz. lra. }
      assert (R3 : ((inject_Z c - 1) * / inject_Z c == 1 - / inject_Z c)%Q)
        by (field; lra).
      assert (Xpos : (0 <= x)%Q).
      { assert (inject_Z 0 <= inject_Z q)%Q by (rewrite <- Zle_Qle; lia).
        change (inject_Z 0) with 0%Q in H. lra. }
      destruct (rounded_error_pos x v HR Xpos) as [V1 V2].
      apply Qtrunc_nonneg; [exact Hq|lra|lra].
Qed.

(** *** Magnitudes that a double holds *)

Lemma tiny_pow2 : (2 ^ (-1000) <= tiny)%Q.
Proof.
  assert (E : (tiny == 2 ^ (-100))%Q) by reflexivity.
  rewrite E. apply pow2_le. lia.
Qed.

Lemma huge_pow2 : (huge < 2 ^ 1000)%Q.
Proof.
  assert (E : (huge == 2 ^ 100)%Q) by reflexivity.
  rewrite E. apply pow2_lt. lia.
Qed.

Lemma ok_range_bounds (X : Q) :
  (X == 0)%Q \/ (tiny <= X /\ X <= huge)%Q \/ (tiny <= - X /\ - X <= huge)%Q ->
  ok_range X.
Proof.
  pose proof tiny_pow2. pose proof huge_pow2.
  intros [H1|[[H1 H2]|[H1 H2]]].
  - left. exact H1.
  - right; left. split; lra.
  - right; right. split; lra.
Qed.

Lemma inject_Z_bounds (z lo hi : Z) :
  lo <= z <= hi -> (inject_Z lo <= inject_Z z /\ inject_Z z <= inject_Z hi)%Q.
Proof. intros [H1 H2]. split; rewrite <- Zle_Qle; assumption. Qed.

Lemma ok_range_quotient (s c : Z) :
  0 < c < 2 ^ 53 -> - 2 ^ 53 < s < 2 ^ 53 ->
  ok_range (inject_Z s / inject_Z c).
Proof.
  intros Hc Hs. change (2 ^ 53) with 9007199254740992 in *.
  destruct (inject_Z_bounds c 1 9007199254740992 ltac:(lia)) as [C1 C2].
  change (inject_Z 1) with 1%Q in C1.
  change (inject_Z 9007199254740992) with 9007199254740992%Q in C2.
  apply ok_range_bounds. unfold tiny, huge.
  destruct (Z.lt_trichotomy s 0) as [Hn|[->|Hp]].
  - right; right.
    destruct (inject_Z_bounds s (-9007199254740992) (-1) ltac:(lia))
      as [S1 S2].
    change (inject_Z (-1)) with (-1)%Q in S2.
    change (inject_Z (-9007199254740992)) with (-9007199254740992)%Q in S1.
    assert (E : (- (inject_Z s / inject_Z c) == (- inject_Z s) / inject_Z c)%Q)
      by (field; lra).
    rewrite E. split.
    + apply Qle_shift_div_l; lra.
    + apply Qle_shift_div_r; lra.
  - left. change (inject_Z 0) with 0%Q. field. lra.
  - right; left.
    destruct (inject_Z_bounds s 1 9007199254740992 ltac:(lia)) as [S1 S2].
    change (inject_Z 1) with 1%Q in S1.
    change (inject_Z 9007199254740992) with 9007199254740992%Q in S2.
    split.
    + apply Qle_shift_div_l; lra.
    + apply Qle_shift_div_r; lra.
Qed.

(** [int(x / y)] where [x] and [y] hold integers: the quotient towards
    zero, whatever the rounding of the division. *)
Lemma dbl_trunc_div (x y : float) (s c : Z) :
  dbl x (inject_Z s) -> dbl y (inject_Z c) ->
  0 < c < 2 ^ 53 -> - 2 ^ 53 < s < 2 ^ 53 ->
  trunc (F:=float) (x / y)%F = Return (s ÷ c).
Proof.
  intros Hx Hy Hc Hs.
  destruct (dbl_div x y _ _ Hx Hy) as (v & Hv & HR).
  - destruct (inject_Z_bounds c 1 c ltac:(lia)) as [C1 _].
    change (inject_Z 1) with 1%Q in C1. lra.
  - now apply ok_range_quotient.
  - rewrite (dbl_trunc _ v Hv). f_equal.
    apply (Qtrunc_rounded_quotient s c v); [lia|exact Hs|exact HR].
Qed.

Lemma dbl_add_int (x y : float) (a b : Z) :
  dbl x (inject_Z a) -> dbl y (inject_Z b) ->
  - 2 ^ 53 < a + b < 2 ^ 53 ->
  dbl (x + y)%F (inject_Z (a + b)).
Proof.
  intros Hx Hy Hab. apply (dbl_comp _ (inject_Z a + inject_Z b)).
  - now rewrite inject_Z_plus.
  - apply dbl_add_exact; try assumption.
    apply (dyadic_comp (inject_Z (a + b))); [now rewrite inject_Z_plus|].
    now apply dyadic_int.
Qed.

Lemma dbl_sub_int (x y : float) (a b : Z) :
  dbl x (inject_Z a) -> dbl y (inject_Z b) ->
  - 2 ^ 53 < a - b < 2 ^ 53 ->
  dbl (x - y)%F (inject_Z (a - b)).
Proof.
  intros Hx Hy Hab.
  assert (E : (inject_Z (a - b) == inject_Z a - inject_Z b)%Q).
  { unfold Z.sub, Qminus. now rewrite inject_Z_plus, inject_Z_opp. }
  apply (dbl_comp _ (inject_Z a - inject_Z b)).
  - now rewrite E.
  - apply dbl_sub_exact; try assumption.
    apply (dyadic_comp (inject_Z (a - b))); [exact E|].
    now apply dyadic_int.
Qed.

Lemma dbl_mul_int (x y : float) (a b : Z) :
  dbl x (inject_Z a) -> dbl y (inject_Z b) ->
  - 2 ^ 53 < a * b < 2 ^ 53 ->
  dbl (x * y)%F (inject_Z (a * b)).
Proof.
  intros Hx Hy Hab. apply (dbl_comp _ (inject_Z a * inject_Z b)).
  - now rewrite inject_Z_mult.
  - apply dbl_mul_exact; try assumption.
    apply (dyadic_comp (inject_Z (a * b))); [now rewrite inject_Z_mult|].
    now apply dyadic_int.
Qed.

(** ** The seconds-of-year conversions at binary64 *)

(** C2, as stated, fails: negative seconds and a non-positive year are
    converted like any other input, nothing raises. *)
Lemma negative_seconds_are_converted :
  dateSec2VEX (F:=float) (of_int (-1)) 2015 = Return (mkvex 2015 0 0 0 (-1))
  /\ dateSec2VEX (F:=float) (of_int 86399) 0 = Return (mkvex 0 0 23 59 59)
  /\ ~ (forall s year : Z,
          s < 0 \/ year <= 0 ->
          raises (dateSec2VEX (F:=float) (of_int s) year)).
Proof.
  assert (E : dateSec2VEX (F:=float) (of_int (-1)) 2015
              = Return (mkvex 2015 0 0 0 (-1))) by (vm_compute; reflexivity).
  split; [exact E|]. split; [vm_compute; reflexivity|].
  intros H. destruct (H (-1) 2015 ltac:(lia)) as [e He].
  rewrite E in He. discriminate.
Qed.

Lemma quot_rem_bounds (a c M : Z) :
  0 < c -> - M < a < M ->
  - M < a ÷ c < M /\ - M < a ÷ c * c < M
  /\ a - a ÷ c * c = Z.rem a c /\ - c < Z.rem a c < c.
Proof.
  intros Hc Ha.
  pose proof (Z.quot_rem' a c) as E.
  pose proof (Z.rem_bound_abs a c ltac:(lia)) as B.
  destruct (Z_lt_le_dec a 0) as [Hn|Hp].
  - pose proof (Z.rem_nonpos a c ltac:(lia) ltac:(lia)) as S.
    assert (a ÷ c <= 0) by nia.
    split_conj; nia.
  - pose proof (Z.rem_nonneg a c ltac:(lia) Hp) as S.
    assert (0 <= a ÷ c) by nia.
    split_conj; nia.
Qed.

Lemma dateVEX2sec_binary64 (v : vexdate) :
  -99 <= v_doy v <= 999 -> -9 <= v_hh v <= 99 -> -9 <= v_mm v <= 99 ->
  -9 <= v_ss v <= 99 ->
  dbl (dateVEX2sec (F:=float) v) (inject_Z (seconds_of_year v)).
Proof.
  intros Hd Hh Hm Hs.
  unfold dateVEX2sec, seconds_of_year. cbv zeta.
  change (2 ^ 53) with 9007199254740992 in *.
  assert (P : forall z, -99 <= z <= 999 ->
                dbl (of_int (F:=float) z) (inject_Z z))
    by (intros z Hz; apply dbl_of_int; lia).
  repeat first
    [ apply dbl_add_int | apply dbl_mul_int
    | exact dbl_lit_60 | exact dbl_lit_3600 | exact dbl_lit_86400
    | apply P; lia | lia ].
Qed.

Lemma dateSec2VEX_binary64 (sec : float) (s year : Z) :
  dbl sec (inject_Z s) -> - 2 ^ 53 < s < 2 ^ 53 ->
  dateSec2VEX (F:=float) sec year
  = Return (mkvex year
              (s ÷ 86400)
              (Z.rem s 86400 ÷ 3600)
              (Z.rem (Z.rem s 86400) 3600 ÷ 60)
              (Z.rem (Z.rem (Z.rem s 86400) 3600) 60)).
Proof.
  intros Hsec Hs. unfold dateSec2VEX.
  destruct (quot_rem_bounds s 86400 (2 ^ 53) ltac:(lia) Hs)
    as (Q1 & P1 & E1 & B1).
  set (r1 := Z.rem s 86400) in *.
  assert (Hr1 : - 2 ^ 53 < r1 < 2 ^ 53)
    by (change (2 ^ 53) with 9007199254740992; lia).
  destruct (quot_rem_bounds r1 3600 (2 ^ 53) ltac:(lia) Hr1)
    as (Q2 & P2 & E2 & B2).
  set (r2 := Z.rem r1 3600) in *.
  assert (Hr2 : - 2 ^ 53 < r2 < 2 ^ 53)
    by (change (2 ^ 53) with 9007199254740992; lia).
  destruct (quot_rem_bounds r2 60 (2 ^ 53) ltac:(lia) Hr2)
    as (Q3 & P3 & E3 & B3).
  set (r3 := Z.rem r2 60) in *.
  rewrite (dbl_trunc_div sec (lit 86400) s 86400 Hsec dbl_lit_86400)
    by (change (2 ^ 53) with 9007199254740992 in *; lia).
  cbn [bind].
  assert (D1 : dbl (sec - of_int (s ÷ 86400) * lit 86400)%F (inject_Z r1)).
  { rewrite <- E1. apply dbl_sub_int; [exact Hsec| |rewrite E1; exact Hr1].
    apply dbl_mul_int; [now apply dbl_of_int|exact dbl_lit_86400|exact P1]. }
  rewrite (dbl_trunc_div _ (lit 3600) r1 3600 D1 dbl_lit_3600)
    by (change (2 ^ 53) with 9007199254740992 in *; lia).
  cbn [bind].
  assert (D2 : dbl (sec - of_int (s ÷ 86400) * lit 86400
                    - of_int (r1 ÷ 3600) * lit 3600)%F (inject_Z r2)).
  { rewrite <- E2. apply dbl_sub_int; [exact D1| |rewrite E2; exact Hr2].
    apply dbl_mul_int; [now apply dbl_of_int|exact dbl_lit_3600|exact P2]. }
  rewrite (dbl_trunc_div _ (lit 60) r2 60 D2 dbl_lit_60)
    by (change (2 ^ 53) with 9007199254740992 in *; lia).
  cbn [bind].
  assert (D3 : dbl (sec - of_int (s ÷ 86400) * lit 86400
                    - of_int (r1 ÷ 3600) * lit 3600
                    - of_int (r2 ÷ 60) * lit 60)%F (inject_Z r3)).
  { rewrite <- E3.
    apply dbl_sub_int;
      [exact D2| |rewrite E3; change (2 ^ 53) with 9007199254740992; lia].
    apply dbl_mul_int; [now apply dbl_of_int|exact dbl_lit_60|exact P3]. }
  rewrite (dbl_trunc _ _ D3). cbn [bind].
  now rewrite Qtrunc_inject_Z.
Qed.

Lemma decompose_nonneg (doy hh mm ss : Z) :
  0 <= doy -> 0 <= hh <= 23 -> 0 <= mm <= 59 -> 0 <= ss <= 59 ->
  let s := ss + 60 * mm + 3600 * hh + 86400 * doy in
  s ÷ 86400 = doy /\ Z.rem s 86400 ÷ 3600 = hh
  /\ Z.rem (Z.rem s 86400) 3600 ÷ 60 = mm
  /\ Z.rem (Z.rem (Z.rem s 86400) 3600) 60 = ss.
Proof.
  intros Hd Hh Hm Hs s.
  assert (H1 : s ÷ 86400 = doy /\ Z.rem s 86400 = ss + 60 * mm + 3600 * hh).
  { rewrite Z.quot_div_nonneg, Z.rem_mod_nonneg by lia.
    unfold s. split.
    - symmetry. apply (Z.div_unique _ _ _ (ss + 60 * mm + 3600 * hh)); lia.
    - symmetry. apply (Z.mod_unique _ _ doy); lia. }
  destruct H1 as [-> ->].
  assert (H2 : (ss + 60 * mm + 3600 * hh) ÷ 3600 = hh
               /\ Z.rem (ss + 60 * mm + 3600 * hh) 3600 = ss + 60 * mm).
  { rewrite Z.quot_div_nonneg, Z.rem_mod_nonneg by lia. split.
    - symmetry. apply (Z.div_unique _ _ _ (ss + 60 * mm)); lia.
    - symmetry. apply (Z.mod_unique _ _ hh); lia. }
  destruct H2 as [-> ->].
  assert (H3 : (ss + 60 * mm) ÷ 60 = mm /\ Z.rem (ss + 60 * mm) 60 = ss).
  { rewrite Z.quot_div_nonneg, Z.rem_mod_nonneg by lia. split.
    - symmetry. apply (Z.div_unique _ _ _ ss); lia.
    - symmetry. apply (Z.mod_unique _ _ mm); lia. }
  destruct H3 as [-> ->]. repeat split.
Qed.

(** C2, amended: on a whole number of seconds that a double holds
    exactly (below 2^53 in absolute value), [dateSec2VEX] at binary64
    returns for every sign of the seconds and every year; day, hour and
    minute are the quotients by 86400, 3600 and 60 of the successive
    remainders, each truncated towards zero, and the second is the last
    remainder. *)
Theorem dateSec2VEX_truncates (s year : Z) :
  - 2 ^ 53 < s < 2 ^ 53 ->
  dateSec2VEX (F:=float) (of_int s) year
  = Return (mkvex year
              (s ÷ 86400)
              (Z.rem s 86400 ÷ 3600)
              (Z.rem (Z.rem s 86400) 3600 ÷ 60)
              (Z.rem (Z.rem (Z.rem s 86400) 3600) 60)).
Proof.
  intros Hs. apply dateSec2VEX_binary64; [|exact Hs]. now apply dbl_of_int.
Qed.

Lemma dateSec2VEX_truncates_witness :
  - 2 ^ 53 < -90061 < 2 ^ 53
  /\ dateSec2VEX (F:=float) (of_int (-90061)) 2015
     = Return (mkvex 2015 (-1) (-1) (-1) (-1)).
Proof.
  assert (H : - 2 ^ 53 < -90061 < 2 ^ 53) by (vm_compute; split; reflexivity).
  split; [exact H|].
  exact (dateSec2VEX_truncates (-90061) 2015 H).
Defined.

(** C7: seconds-of-year and back, at binary64.  For a timestamp with
    day-of-year from 1 to 999 (the three columns of the format), hour in
    0..23, minute and second in 0..59, [dateSec2VEX] of [dateVEX2sec], with
    the same year, is the timestamp itself. *)
Theorem seconds_of_year_round_trip (ts : vexdate) :
  1 <= v_doy ts <= 999 ->
  0 <= v_hh ts <= 23 ->
  0 <= v_mm ts <= 59 ->
  0 <= v_ss ts <= 59 ->
  dateSec2VEX (F:=float) (dateVEX2sec ts) (v_yr ts) = Return ts.
Proof.
  intros Hd Hh Hm Hs.
  rewrite (dateSec2VEX_binary64 _ (seconds_of_year ts)).
  - destruct ts as [yr doy hh mm ss]. unfold seconds_of_year.
    cbn [v_yr v_doy v_hh v_mm v_ss] in *.
    destruct (decompose_nonneg doy hh mm ss ltac:(lia) Hh Hm Hs)
      as (-> & -> & -> & ->).
    reflexivity.
  - apply dateVEX2sec_binary64; lia.
  - unfold seconds_of_year. change (2 ^ 53) with 9007199254740992. lia.
Qed.

Lemma seconds_of_year_round_trip_witness :
  1 <= 262 <= 999 /\ 0 <= 11 <= 23 /\ 0 <= 56 <= 59 /\ 0 <= 15 <= 59
  /\ dateSec2VEX (F:=float) (dateVEX2sec (mkvex 2015 262 11 56 15)) 2015
     = Return (mkvex 2015 262 11 56 15).
Proof.
  split; [lia|]. split; [lia|]. split; [lia|]. split; [lia|].
  apply (seconds_of_year_round_trip (mkvex 2015 262 11 56 15)); simpl; lia.
Defined.

(** ** The Gregorian cutover *)

Lemma all_upto_spec (n : nat) (p : Z -> bool) :
  all_upto n p = true -> forall z, 0 <= z <= Z.of_nat n -> p z = true.
Proof.
  induction n as [|k IH]; intros H z Hz.
  - simpl in H. replace z with 0 by (simpl in Hz; lia). exact H.
  - change (all_upto (S k) p) with (p (Z.of_nat (S k)) && all_upto k p) in H.
    apply andb_true_iff in H. destruct H as [Hn Hk].
    destruct (Z.eq_dec z (Z.of_nat (S k))) as [->|Hne]; [exact Hn|].
    apply IH; [exact Hk|lia].
Qed.

Lemma all_between_spec (lo hi : Z) (p : Z -> bool) :
  all_between lo hi p = true -> forall z, lo <= z <= hi -> p z = true.
Proof.
  intros H z Hz. unfold all_between in H.
  replace z with (lo + (z - lo)) by lia.
  apply (all_upto_spec _ _ H). lia.
Qed.

Lemma before_gregorian_iff (year month day : Z) :
  before_gregorian year month day = true <->
  year < 1582 \/ (year = 1582 /\ (month < 10 \/ (month = 10 /\ day < 15))).
Proof.
  unfold before_gregorian.
  rewrite !orb_true_iff, !andb_true_iff, !Z.ltb_lt, !Z.eqb_eq. lia.
Qed.

Lemma gregorian_B_exact (year month day yearp : Z) :
  gregorian_B (F:=Q) year month day yearp
  = Return (if before_gregorian year month day then 0
            else 2 - yearp ÷ 100 + yearp ÷ 100 ÷ 4).
Proof.
  unfold gregorian_B. destruct (before_gregorian year month day);
    [reflexivity|].
  unfold century_correction, trunc, to_Q.
  cbn [value exactQ bind lit of_int fdiv].
  assert (HA : Qtrunc (inject_Z yearp / 100)%Q = yearp ÷ 100)
    by exact (Qtrunc_div_exact (inject_Z yearp) yearp 100 (Qeq_refl _)).
  rewrite HA.
  assert (HA4 : Qtrunc (inject_Z (yearp ÷ 100) / 4)%Q = yearp ÷ 100 ÷ 4)
    by exact (Qtrunc_div_exact (inject_Z (yearp ÷ 100)) (yearp ÷ 100) 4
                (Qeq_refl _)).
  rewrite HA4. reflexivity.
Qed.

(** At binary64 the correction term is the same integer for every [yearp]
    that a [datetime.date] year can give. *)
Lemma gregorian_B_binary64 (year month day yearp : Z) :
  0 <= yearp <= 9999 ->
  gregorian_B (F:=float) year month day yearp
  = Return (if before_gregorian year month day then 0
            else 2 - yearp ÷ 100 + yearp ÷ 100 ÷ 4).
Proof.
  intros Hy. unfold gregorian_B.
  destruct (before_gregorian year month day); [reflexivity|].
  set (ok := fun yp : Z =>
    match century_correction (F:=float) yp with
    | Return B => B =? 2 - yp ÷ 100 + yp ÷ 100 ÷ 4
    | _ => false
    end).
  assert (Hall : all_between 0 9999 ok = true) by (vm_compute; reflexivity).
  assert (Hok := all_between_spec 0 9999 ok Hall yearp Hy).
  clear Hall. unfold ok in Hok.
  destruct (century_correction (F:=float) yearp) as [B| |];
    try discriminate Hok.
  apply Z.eqb_eq in Hok. now subst B.
Qed.

(** C6: the correction term [B] of [date_to_jd] is 0 before 1582-10-15 and
    [2 - trunc(yearp/100) + trunc(trunc(yearp/100)/4)] from that day on; the
    Julian dates of 1582-10-04 and 1582-10-15 are 2299159.5 and 2299160.5,
    one day apart. *)
Theorem gregorian_cutover :
  (forall year month day yearp : Z,
      gregorian_B (F:=Q) year month day yearp
      = Return (if before_gregorian year month day then 0
                else 2 - yearp ÷ 100 + yearp ÷ 100 ÷ 4))
  /\ (forall year month day : Z,
        before_gregorian year month day = true <->
        year < 1582
        \/ (year = 1582 /\ (month < 10 \/ (month = 10 /\ day < 15))))
  /\ date_to_jd (F:=float) 1582 10 4 = Return 2299159.5%float
  /\ date_to_jd (F:=float) 1582 10 15 = Return 2299160.5%float
  /\ (2299160.5 - 2299159.5 = 1)%float
  /\ date_to_jd (F:=Q) 1582 10 4 = Return 2299159.5%Q
  /\ date_to_jd (F:=Q) 1582 10 15 = Return 2299160.5%Q.
Proof.
  split; [exact gregorian_B_exact|].
  split; [exact before_gregorian_iff|].
  split_conj; vm_compute; reflexivity.
Qed.

(** ** The calendar and the MJD within a year *)

Section Calendar.
Import Datetime.

Lemma is_leap_digits (a b c e : Z) :
  0 <= b <= 3 -> 0 <= c <= 24 -> 0 <= e <= 3 ->
  is_leap (400 * a + 100 * b + 4 * c + e + 1)
  = (e =? 3) && (negb (c =? 24) || (b =? 3)).
Proof.
  intros Hb Hc He. unfold is_leap.
  destruct (Z.eqb_spec e 3), (Z.eqb_spec c 24), (Z.eqb_spec b 3);
  repeat match goal with
  | |- context [?x mod ?k =? 0] => destruct (Z.eqb_spec (x mod k) 0)
  end; cbn [andb orb negb]; try reflexivity; exfalso;
  Z.div_mod_to_equations; lia.
Qed.

Lemma year_digits (yr : Z) :
  1 <= yr ->
  exists a b c e,
    yr = 400 * a + 100 * b + 4 * c + e + 1
    /\ 0 <= a /\ 0 <= b <= 3 /\ 0 <= c <= 24 /\ 0 <= e <= 3
    /\ days_before_year yr = 146097 * a + 36524 * b + 1461 * c + 365 * e.
Proof.
  intros Hy.
  exists ((yr - 1) / 400), ((yr - 1) mod 400 / 100),
         ((yr - 1) mod 100 / 4), ((yr - 1) mod 4).
  unfold days_before_year. cbv zeta. Z.div_mod_to_equations. lia.
Qed.

Lemma ord2ymd_regular (yr doy : Z) :
  1 <= yr -> 1 <= doy <= 365 ->
  ord2ymd (days_before_year yr + doy)
  = (yr, fst (month_day (is_leap yr) (doy - 1)),
     snd (month_day (is_leap yr) (doy - 1))).
Proof.
  intros Hy Hd.
  destruct (year_digits yr Hy) as (a & b & c & e & Eyr & Ha & Hb & Hc & He & Edby).
  assert (Eleap : is_leap yr = (e =? 3) && (negb (c =? 24) || (b =? 3))).
  { rewrite Eyr. now apply is_leap_digits. }
  rewrite Eleap.
  unfold ord2ymd, DI400Y, DI100Y, DI4Y. rewrite Edby. cbv zeta.
  set (n0 := 146097 * a + 36524 * b + 1461 * c + 365 * e + doy - 1).
  assert (E400 : n0 / 146097 = a
                 /\ n0 mod 146097 = 36524 * b + 1461 * c + 365 * e + doy - 1).
  { unfold n0. Z.div_mod_to_equations. lia. }
  destruct E400 as [-> ->].
  set (n1 := 36524 * b + 1461 * c + 365 * e + doy - 1).
  assert (E100 : n1 / 36524 = b /\ n1 mod 36524 = 1461 * c + 365 * e + doy - 1).
  { unfold n1. Z.div_mod_to_equations. lia. }
  destruct E100 as [-> ->].
  set (n2 := 1461 * c + 365 * e + doy - 1).
  assert (E4 : n2 / 1461 = c /\ n2 mod 1461 = 365 * e + doy - 1).
  { unfold n2. Z.div_mod_to_equations. lia. }
  destruct E4 as [-> ->].
  set (n3 := 365 * e + doy - 1).
  assert (E1 : n3 / 365 = e /\ n3 mod 365 = doy - 1).
  { unfold n3. Z.div_mod_to_equations. lia. }
  destruct E1 as [-> ->].
  replace (a * 400 + 1 + (b * 100 + c * 4 + e)) with yr by lia.
  assert (Hn1 : (e =? 4) = false) by (apply Z.eqb_neq; lia).
  assert (Hn100 : (b =? 4) = false) by (apply Z.eqb_neq; lia).
  rewrite Hn1, Hn100. cbn [orb]. unfold month_day. cbv zeta.
  match goal with |- context [if ?c then _ else _] => destruct c end;
    reflexivity.
Qed.

Lemma ord2ymd_leap_day (yr : Z) :
  1 <= yr -> is_leap yr = true ->
  ord2ymd (days_before_year yr + 366) = (yr, 12, 31).
Proof.
  intros Hy Hleap.
  destruct (year_digits yr Hy) as (a & b & c & e & Eyr & Ha & Hb & Hc & He & Edby).
  assert (Eleap : is_leap yr = (e =? 3) && (negb (c =? 24) || (b =? 3))).
  { rewrite Eyr. now apply is_leap_digits. }
  rewrite Hleap in Eleap. symmetry in Eleap.
  apply andb_true_iff in Eleap. destruct Eleap as [He3 Hcb].
  apply Z.eqb_eq in He3. subst e.
  unfold ord2ymd, DI400Y, DI100Y, DI4Y. rewrite Edby. cbv zeta.
  set (n0 := 146097 * a + 36524 * b + 1461 * c + 365 * 3 + 366 - 1).
  assert (E400 : n0 / 146097 = a
                 /\ n0 mod 146097 = 36524 * b + 1461 * c + 1460).
  { unfold n0. Z.div_mod_to_equations. lia. }
  destruct E400 as [-> ->].
  destruct (Z.eqb_spec c 24) as [->|Hc24].
  - (* the last day of a 400-year cycle *)
    simpl in Hcb. apply Z.eqb_eq in Hcb. subst b.
    change ((36524 * 3 + 1461 * 24 + 1460) / 36524) with 4.
    change ((36524 * 3 + 1461 * 24 + 1460) mod 36524) with 0.
    change (0 mod 1461) with 0. change (0 / 1461) with 0.
    change (0 / 365) with 0. change (4 =? 4) with true.
    rewrite orb_true_r. f_equal. f_equal. lia.
  - set (n1 := 36524 * b + 1461 * c + 1460).
    assert (E100 : n1 / 36524 = b /\ n1 mod 36524 = 1461 * c + 1460).
    { unfold n1. Z.div_mod_to_equations. lia. }
    destruct E100 as [-> ->].
    set (n2 := 1461 * c + 1460).
    assert (E4 : n2 / 1461 = c /\ n2 mod 1461 = 1460).
    { unfold n2. Z.div_mod_to_equations. lia. }
    destruct E4 as [-> ->].
    change (1460 / 365) with 4. rewrite Z.eqb_refl. cbn [orb].
    f_equal. f_equal. lia.
Qed.

Lemma month_day_checked :
  all_between 0 364 (month_day_ok false) && all_between 0 365 (month_day_ok true)
  = true.
Proof. vm_compute. reflexivity. Qed.

Lemma month_day_facts (leap : bool) (n : Z) :
  0 <= n <= (if leap then 365 else 364) ->
  month_day_ok leap n = true.
Proof.
  intros Hn. pose proof month_day_checked as H.
  apply andb_true_iff in H. destruct H as [Hf Ht].
  destruct leap.
  - now apply (all_between_spec 0 365 _ Ht).
  - now apply (all_between_spec 0 364 _ Hf).
Qed.

(** The date and day number of a day of a year, as [dateVEX2split] finds
    them through [datetime]. *)
Lemma fromordinal_in_year (yr doy : Z) :
  1 <= yr <= 9999 -> 1 <= doy <= days_in_year yr ->
  exists m d,
    Datetime.fromordinal (Datetime.toordinal (yr, 1, 1) + doy - 1)
    = Return (yr, m, d)
    /\ month_day (is_leap yr) (doy - 1) = (m, d).
Proof.
  intros Hy Hd.
  assert (Eord : Datetime.toordinal (yr, 1, 1) + doy - 1
                 = days_before_year yr + doy).
  { unfold Datetime.toordinal, ymd2ord, days_before_month. simpl. lia. }
  rewrite Eord. unfold Datetime.fromordinal.
  assert (Hn : 0 <= doy - 1 <= (if is_leap yr then 365 else 364)).
  { unfold days_in_year in Hd. destruct (is_leap yr); lia. }
  pose proof (month_day_facts (is_leap yr) (doy - 1) Hn) as Hok.
  unfold month_day_ok in Hok.
  destruct (month_day (is_leap yr) (doy - 1)) as [m d] eqn:Emd.
  exists m, d. split; [|reflexivity].
  repeat (apply andb_true_iff in Hok; destruct Hok as [Hok ?]).
  assert (Eymd : ord2ymd (days_before_year yr + doy) = (yr, m, d)).
  { destruct (Z.eq_dec doy 366) as [->|Hne].
    - unfold days_in_year in Hd.
      destruct (is_leap yr) eqn:Hleap; [|lia].
      rewrite ord2ymd_leap_day by (lia || assumption).
      vm_compute in Emd. now inversion Emd.
    - rewrite ord2ymd_regular.
      + now rewrite Emd.
      + lia.
      + unfold days_in_year in Hd. destruct (is_leap yr); lia. }
  rewrite Eymd. unfold Datetime.date, MINYEAR, MAXYEAR, days_in_month.
  assert (Hyr : ((1 <=? yr) && (yr <=? 9999)) = true)
    by (apply andb_true_iff; split; apply Z.leb_le; lia).
  assert (Hm : ((1 <=? m) && (m <=? 12)) = true)
    by (apply andb_true_iff; split; assumption).
  assert (Hdd : ((1 <=? d)
                 && (d <=? (if (m =? 2) && is_leap yr then 29
                            else DAYS_IN_MONTH m))) = true)
    by (apply andb_true_iff; split; assumption).
  now rewrite Hyr, Hm, Hdd.
Qed.

(** [date_to_jd] over exact rationals, for a year from 1 on. *)
Lemma date_to_jd_exact (year month day : Z) :
  1 <= year ->
  let early := (month =? 1) || (month =? 2) in
  let yearp := if early then year - 1 else year in
  let monthp := if early then month + 12 else month in
  date_to_jd (F:=Q) year month day
  = Return (inject_Z
              ((if before_gregorian year month day then 0
                else 2 - yearp ÷ 100 + yearp ÷ 100 ÷ 4)
               + (36525 * yearp) ÷ 100
               + (306001 * (monthp + 1)) ÷ 10000
               + day) + 1720994.5)%Q.
Proof.
  intros Hy early yearp monthp. unfold date_to_jd. fold early.
  assert (Hpair : (if early then (year - 1, month + 12) else (year, month))
                  = (yearp, monthp)).
  { unfold yearp, monthp. now destruct early. }
  rewrite Hpair. rewrite gregorian_B_exact. cbn [bind].
  assert (Hyp : (yearp <? 0) = false).
  { apply Z.ltb_ge. unfold yearp. destruct early; lia. }
  rewrite Hyp. reflexivity.
Qed.

Lemma quot_36525 (y : Z) : 0 <= y -> (36525 * y) ÷ 100 = 365 * y + y / 4.
Proof.
  intros Hy. rewrite Z.quot_div_nonneg by lia. Z.div_mod_to_equations. lia.
Qed.

Lemma century_terms (y : Z) :
  0 <= y -> 2 - y ÷ 100 + y ÷ 100 ÷ 4 = 2 - y / 100 + y / 400.
Proof.
  intros Hy.
  rewrite (Z.quot_div_nonneg y 100) by lia.
  rewrite (Z.quot_div_nonneg (y / 100) 4)
    by (try apply Z.div_pos; lia).
  rewrite Z.div_div by lia. reflexivity.
Qed.

Lemma is_leap_cases (yr : Z) :
  (if is_leap yr then 1 else 0)
  = (yr / 4 - (yr - 1) / 4) - (yr / 100 - (yr - 1) / 100)
    + (yr / 400 - (yr - 1) / 400).
Proof.
  unfold is_leap.
  destruct (Z.eqb_spec (yr mod 4) 0), (Z.eqb_spec (yr mod 100) 0),
    (Z.eqb_spec (yr mod 400) 0); cbn [andb orb negb];
    Z.div_mod_to_equations; lia.
Qed.

Lemma split_day_number (v : vexdate) :
  1 <= v_yr v <= 9999 -> 1 <= v_doy v <= days_in_year (v_yr v) ->
  exists d,
    dateVEX2split (F:=Q) v = Return d
    /\ (d_mjd d
        == inject_Z (day_number (v_yr v) (v_doy v)) + 1720994.5 + 0.5
           - 2400000.5
           + (inject_Z (v_hh v - 12) + inject_Z (v_mm v) / 60
              + inject_Z (v_ss v) / 3600) / 24)%Q.
Proof.
  intros Hy Hd. destruct v as [yr doy hh mm ss].
  cbn [v_yr v_doy v_hh v_mm v_ss] in *.
  unfold dateVEX2split. cbn [v_yr v_doy v_hh v_mm v_ss].
  assert (Hjan : Datetime.date yr 1 1 = Return (yr, 1, 1)).
  { unfold Datetime.date, MINYEAR, MAXYEAR.
    assert (Hyr : ((1 <=? yr) && (yr <=? 9999)) = true)
      by (apply andb_true_iff; split; apply Z.leb_le; lia).
    rewrite Hyr. cbn [negb]. 
    unfold days_in_month. reflexivity. }
  rewrite Hjan. cbn [bind].
  destruct (fromordinal_in_year yr doy Hy Hd) as (m & d & Hfrom & Hmd).
  rewrite Hfrom. cbn [bind].
  rewrite (date_to_jd_exact yr m d) by lia. cbn [bind].
  eexists. split; [reflexivity|]. cbn [d_mjd].
  cbn [exactQ lit of_int fadd fsub fmul fdiv].
  assert (Hn : 0 <= doy - 1 <= (if is_leap yr then 365 else 364)).
  { unfold days_in_year in Hd. destruct (is_leap yr); lia. }
  pose proof (month_day_facts (is_leap yr) (doy - 1) Hn) as Hok.
  unfold month_day_ok in Hok. rewrite Hmd in Hok.
  repeat (apply andb_true_iff in Hok; destruct Hok as [Hok ?]).
  match goal with H : Bool.eqb _ (_ <? 59 + _) = true |- _ =>
    apply Bool.eqb_prop in H; rename H into Hearly end.
  match goal with H : Bool.eqb _ (_ <? 287 + _) = true |- _ =>
    apply Bool.eqb_prop in H; rename H into Hcut end.
  match goal with H : (_ =? _) = true |- _ =>
    apply Z.eqb_eq in H; rename H into Hsum end.
  assert (Hday :
    (if before_gregorian yr m d then 0
     else 2 - (if (m =? 1) || (m =? 2) then yr - 1 else yr) ÷ 100
          + (if (m =? 1) || (m =? 2) then yr - 1 else yr) ÷ 100 ÷ 4)
    + (36525 * (if (m =? 1) || (m =? 2) then yr - 1 else yr)) ÷ 100
    + (306001 * ((if (m =? 1) || (m =? 2) then m + 12 else m) + 1)) ÷ 10000
    + d = day_number yr doy).
  { unfold day_number, before_gregorian.
    pose proof (is_leap_cases yr) as Hl.
    assert (Hside : (yr <? 1582) || (yr =? 1582) && (m <? 10)
                    || (yr =? 1582) && (m =? 10) && (d <? 15)
                    = (yr <? 1582) || ((yr =? 1582) && (doy <? 288))).
    { destruct (Z.ltb_spec yr 1582); [reflexivity|]. cbn [orb].
      destruct (Z.eqb_spec yr 1582) as [->|]; [|reflexivity]. cbn [andb].
      change (is_leap 1582) with false in Hcut. cbv iota in Hcut.
      rewrite Hcut.
      destruct (Z.ltb_spec (doy - 1) (287 + 0)), (Z.ltb_spec doy 288);
        auto; lia. }
    rewrite Hside.
    replace (doy <=? 59 + (if is_leap yr then 1 else 0))
      with (doy - 1 <? 59 + (if is_leap yr then 1 else 0))
      by (destruct (Z.ltb_spec (doy - 1) (59 + (if is_leap yr then 1 else 0))),
            (Z.leb_spec doy (59 + (if is_leap yr then 1 else 0)));
          auto; lia).
    rewrite <- Hearly.
    destruct ((m =? 1) || (m =? 2));
      rewrite quot_36525 by lia;
      destruct ((yr <? 1582) || ((yr =? 1582) && (doy <? 288)));
      try rewrite century_terms by lia;
      unfold days_before_year; cbv zeta;
      Z.div_mod_to_equations; lia. }
  rewrite Hday. reflexivity.
Qed.

Lemma day_number_increasing (yr doy doy' : Z) :
  1 <= yr -> 1 <= doy -> doy < doy' ->
  ((yr <? 1582) || ((yr =? 1582) && (doy <? 288)))
  = ((yr <? 1582) || ((yr =? 1582) && (doy' <? 288))) ->
  day_number yr doy + 1 <= day_number yr doy'.
Proof.
  intros Hy Hd Hlt Hside. unfold day_number. rewrite <- Hside.
  pose proof (is_leap_cases yr) as Hl.
  destruct ((yr <? 1582) || ((yr =? 1582) && (doy <? 288))); [|lia].
  destruct (Z.leb_spec doy (59 + (if is_leap yr then 1 else 0))),
    (Z.leb_spec doy' (59 + (if is_leap yr then 1 else 0))); try lia.
  assert (0 <= yr / 100 - (yr - 1) / 100 - (yr / 400 - (yr - 1) / 400))
    by (Z.div_mod_to_equations; lia).
  Z.div_mod_to_equations. lia.
Qed.

Lemma mjd_seconds (J hh mm ss : Z) :
  (inject_Z J + 1720994.5 + 0.5 - 2400000.5
   + (inject_Z (hh - 12) + inject_Z mm / 60 + inject_Z ss / 3600) / 24
   == (inject_Z (86400 * J + 3600 * hh + 60 * mm + ss) - 58666118400)
      / 86400)%Q.
Proof.
  rewrite !inject_Z_plus, !inject_Z_mult. unfold Z.sub.
  rewrite inject_Z_plus, inject_Z_opp.
  change (inject_Z 86400) with 86400%Q. change (inject_Z 3600) with 3600%Q.
  change (inject_Z 60) with 60%Q. change (inject_Z 12) with 12%Q.
  field.
Qed.

End Calendar.

(** ** The MJD at binary64 *)

(** *** The order of doubles *)

Lemma mantissa_bounds (m : positive) :
  Zpos (digits2_pos m) = 53 ->
  (4503599627370496 <= inject_Z (Zpos m)
   /\ inject_Z (Zpos m) < 9007199254740992)%Q.
Proof.
  intros Hd. pose proof (digits2_pos_bounds m) as [Lo Hi].
  rewrite Hd in Lo, Hi.
  change (2 ^ (53 - 1)) with 4503599627370496 in Lo.
  change (2 ^ 53) with 9007199254740992 in Hi.
  split.
  - change 4503599627370496%Q with (inject_Z 4503599627370496).
    now rewrite <- Zle_Qle.
  - change 9007199254740992%Q with (inject_Z 9007199254740992).
    now rewrite <- Zlt_Qlt.
Qed.

Lemma magnitude_lt (m1 m2 : positive) (e1 e2 : Z) :
  Zpos (digits2_pos m1) = 53 -> Zpos (digits2_pos m2) = 53 -> e1 < e2 ->
  (inject_Z (Zpos m1) * 2 ^ e1 < inject_Z (Zpos m2) * 2 ^ e2)%Q.
Proof.
  intros H1 H2 He.
  destruct (mantissa_bounds m1 H1) as [_ U1].
  destruct (mantissa_bounds m2 H2) as [L2 _].
  pose proof (pow2_pos e1) as P1. pose proof (pow2_pos e2) as P2.
  assert (S : (2 * 2 ^ e1 <= 2 ^ e2)%Q).
  { assert (E : (2 * 2 ^ e1 == 2 ^ (e1 + 1))%Q).
    { rewrite pow2_add. change (2 ^ 1)%Q with 2%Q. ring. }
    rewrite E. apply pow2_le. lia. }
  assert (A : (inject_Z (Zpos m1) * 2 ^ e1 < 9007199254740992 * 2 ^ e1)%Q)
    by (apply Qmult_lt_compat_r; assumption).
  assert (B : (4503599627370496 * 2 ^ e2 <= inject_Z (Zpos m2) * 2 ^ e2)%Q)
    by (apply Qmult_le_compat_r; lra).
  lra.
Qed.

Lemma mantissa_lt (m1 m2 : positive) (e : Z) :
  (inject_Z (Zpos m1) * 2 ^ e < inject_Z (Zpos m2) * 2 ^ e)%Q ->
  (m1 < m2)%positive.
Proof.
  intros H. pose proof (pow2_pos e) as P.
  destruct (Pos.lt_total m1 m2) as [L|[E|G]]; [exact L|exfalso|exfalso].
  - subst m2. lra.
  - assert (A : (inject_Z (Zpos m2) < inject_Z (Zpos m1))%Q)
      by (rewrite <- Zlt_Qlt; lia).
    assert (B : (inject_Z (Zpos m2) * 2 ^ e < inject_Z (Zpos m1) * 2 ^ e)%Q)
      by (apply Qmult_lt_compat_r; assumption).
    lra.
Qed.

Lemma sval_sign (s : bool) (m : positive) (e : Z) :
  (0 < inject_Z (Zpos m) * 2 ^ e)%Q.
Proof.
  apply Qmult_lt_0_compat; [|apply pow2_pos].
  change 0%Q with (inject_Z 0). rewrite <- Zlt_Qlt. lia.
Qed.

(** [x < y] on two doubles that stand for rationals is the order of the
    rationals. *)
Lemma SFltb_lt (x y : spec_float) (X Y : Q) :
  stands_for x X -> stands_for y Y -> (X < Y)%Q -> SFltb x y = true.
Proof.
  destruct x as [sx|sx| |sx mx ex]; cbn [stands_for]; try contradiction;
  destruct y as [sy|sy| |sy my ey]; cbn [stands_for]; try contradiction.
  - intros HX HY H. lra.
  - intros HX (Hd & He & HY) H. rewrite sval_signed in HY.
    pose proof (sval_sign sy my ey).
    destruct sy; cbn [signed] in HY; [lra|reflexivity].
  - intros (Hd & He & HX) HY H. rewrite sval_signed in HX.
    pose proof (sval_sign sx mx ex).
    destruct sx; cbn [signed] in HX; [reflexivity|lra].
  - intros (Hdx & Hex & HX) (Hdy & Hey & HY) H.
    rewrite sval_signed in HX, HY.
    pose proof (sval_sign sx mx ex). pose proof (sval_sign sy my ey).
    unfold SFltb, SFcompare.
    destruct sx, sy; cbn [signed] in HX, HY; try reflexivity; try lra.
    + destruct (Z.compare_spec ex ey) as [E|L|G]; try reflexivity.
      * subst ey.
        assert (M : (my < mx)%positive) by (apply (mantissa_lt my mx ex); lra).
        rewrite Pos.compare_cont_spec. cbn [Pos.switch_Eq].
        apply Pos.compare_gt_iff in M. rewrite M. reflexivity.
      * pose proof (magnitude_lt mx my ex ey Hdx Hdy L). lra.
    + destruct (Z.compare_spec ex ey) as [E|L|G]; try reflexivity.
      * subst ey.
        assert (M : (mx < my)%positive) by (apply (mantissa_lt mx my ex); lra).
        rewrite Pos.compare_cont_spec. cbn [Pos.switch_Eq].
        apply Pos.compare_lt_iff in M. rewrite M. reflexivity.
      * pose proof (magnitude_lt my mx ey ex Hdy Hdx G). lra.
Qed.

Lemma dbl_ltb (x y : float) (X Y : Q) :
  dbl x X -> dbl y Y -> (X < Y)%Q -> PrimFloat.ltb x y = true.
Proof. intros Hx Hy H. rewrite ltb_spec. exact (SFltb_lt _ _ X Y Hx Hy H). Qed.

(** *** Sums of doubles that are not too small *)

Lemma sized_le (j j' : Z) (X : Q) : j' <= j -> sized j X -> sized j' X.
Proof.
  intros Hj H. pose proof (pow2_le j' j Hj). unfold sized in *.
  destruct H as [H|[H|H]]; [left|right; left|right; right]; lra.
Qed.

Lemma sized_comp (j : Z) (X X' : Q) : (X == X')%Q -> sized j X -> sized j X'.
Proof. intros E H. unfold sized in *. destruct H as [H|[H|H]]; lra. Qed.

Lemma stands_for_grid (w : spec_float) (X : Q) (j : Z) :
  stands_for w X -> sized j X ->
  exists k, (X == inject_Z k * 2 ^ (j - 52))%Q.
Proof.
  destruct w as [s|s| |s m e]; cbn [stands_for]; try contradiction.
  - intros H _. exists 0. rewrite H. change (inject_Z 0) with 0%Q. ring.
  - intros (Hd & He & HX) Hs. rewrite sval_signed in HX.
    pose proof (sval_sign s m e) as Pv.
    destruct (mantissa_bounds m Hd) as [_ U].
    pose proof (pow2_pos e) as Pe.
    assert (HM : (2 ^ j <= inject_Z (Zpos m) * 2 ^ e)%Q).
    { destruct s; cbn [signed] in HX; destruct Hs as [H0|[H1|H1]]; lra. }
    assert (Hj : j < 53 + e).
    { apply pow2_lt_inv.
      assert (A : (inject_Z (Zpos m) * 2 ^ e < 9007199254740992 * 2 ^ e)%Q)
        by (apply Qmult_lt_compat_r; assumption).
      assert (E : (2 ^ (53 + e) == 9007199254740992 * 2 ^ e)%Q).
      { rewrite pow2_add. change (2 ^ 53)%Q with 9007199254740992%Q.
        reflexivity. }
      rewrite E. lra. }
    exists (cond_Zopp s (Zpos m) * 2 ^ (e - (j - 52))).
    rewrite inject_Z_mult, pow2_inject by lia.
    assert (E : (2 ^ e == 2 ^ (e - (j - 52)) * 2 ^ (j - 52))%Q).
    { rewrite <- pow2_add. replace (e - (j - 52) + (j - 52)) with e by lia.
      reflexivity. }
    rewrite HX, <- sval_signed. unfold sval. rewrite E at 1. ring.
Qed.

Lemma grid_sum_sized (X Y : Q) (kx ky i : Z) :
  (X == inject_Z kx * 2 ^ i)%Q -> (Y == inject_Z ky * 2 ^ i)%Q ->
  sized i (X + Y).
Proof.
  intros HX HY. pose proof (pow2_pos i) as P.
  assert (E : (X + Y == inject_Z (kx + ky) * 2 ^ i)%Q)
    by (rewrite inject_Z_plus, HX, HY; ring).
  destruct (Z.lt_trichotomy (kx + ky) 0) as [Hn|[H0|Hp]].
  - right; right.
    assert (A : (inject_Z (kx + ky) <= inject_Z (-1))%Q)
      by (rewrite <- Zle_Qle; lia).
    change (inject_Z (-1)) with (-1)%Q in A.
    assert (B : (inject_Z (kx + ky) * 2 ^ i <= (-1) * 2 ^ i)%Q)
      by (apply Qmult_le_compat_r; lra).
    lra.
  - left. rewrite E, H0. change (inject_Z 0) with 0%Q. ring.
  - right; left.
    assert (A : (inject_Z 1 <= inject_Z (kx + ky))%Q)
      by (rewrite <- Zle_Qle; lia).
    change (inject_Z 1) with 1%Q in A.
    assert (B : (1 * 2 ^ i <= inject_Z (kx + ky) * 2 ^ i)%Q)
      by (apply Qmult_le_compat_r; lra).
    lra.
Qed.

Lemma dbl_sum_sized (x y : float) (X Y : Q) (j : Z) :
  dbl x X -> dbl y Y -> sized j X -> sized j Y -> sized (j - 52) (X + Y).
Proof.
  intros Hx Hy Sx Sy.
  destruct (stands_for_grid _ X j Hx Sx) as (kx & Ex).
  destruct (stands_for_grid _ Y j Hy Sy) as (ky & Ey).
  exact (grid_sum_sized X Y kx ky (j - 52) Ex Ey).
Qed.

Lemma sized_ok_range (j : Z) (X : Q) :
  -1000 <= j -> sized j X -> (- huge <= X)%Q -> (X <= huge)%Q -> ok_range X.
Proof.
  intros Hj H L U. pose proof (pow2_le (-1000) j Hj) as P.
  pose proof huge_pow2 as Hh.
  destruct H as [H|[H|H]].
  - left. exact H.
  - right; left. split; lra.
  - right; right. split; lra.
Qed.

Lemma rounded_zero (v : Q) : rounded 0 v -> (v == 0)%Q.
Proof.
  intros HR. apply (rounded_exact 0 v 0 0 HR); [split; reflexivity|].
  change (inject_Z 0) with 0%Q. ring.
Qed.

Lemma rounded_sized (X v : Q) (j : Z) :
  rounded X v -> sized j X -> sized (j - 1) v.
Proof.
  intros HR HS. pose proof (pow2_pos j) as P.
  assert (E : (2 ^ (j - 1) == 2 ^ j / 2)%Q)
    by (rewrite pow2_sub; change (2 ^ 1)%Q with 2%Q; reflexivity).
  assert (E' : (2 ^ j / 2 == 2 ^ j * (1 # 2))%Q) by (field).
  unfold sized. rewrite E, E'.
  destruct HS as [H|[H|H]].
  - left. apply rounded_zero. apply (rounded_comp X); assumption.
  - right; left.
    destruct (rounded_error_pos X v HR) as [A _]; [lra|].
    unfold eps in A. lra.
  - right; right.
    destruct (rounded_error_neg X v HR) as [_ A]; [lra|].
    unfold eps in A. lra.
Qed.

(** *** One rounded operation, with its error *)

Lemma add_step (x y : float) (X Y B : Q) (j : Z) :
  dbl x X -> dbl y Y -> sized j X -> sized j Y -> -900 <= j ->
  (- B <= X + Y)%Q -> (X + Y <= B)%Q -> (B <= huge)%Q ->
  exists v,
    dbl (x + y)%F v /\ sized (j - 53) v
    /\ (X + Y - B * eps <= v)%Q /\ (v <= X + Y + B * eps)%Q.
Proof.
  intros Hx Hy Sx Sy Hj L U HB.
  pose proof (dbl_sum_sized x y X Y j Hx Hy Sx Sy) as HS.
  destruct (dbl_add x y X Y Hx Hy) as (v & Hv & HR).
  { apply (sized_ok_range (j - 52)); [lia|exact HS|lra|lra]. }
  exists v. split; [exact Hv|]. split.
  - replace (j - 53) with (j - 52 - 1) by lia.
    exact (rounded_sized _ _ _ HR HS).
  - exact (rounded_within _ _ B HR L U).
Qed.

Lemma div_step (x y : float) (X B : Q) (c j : Z) :
  dbl x X -> dbl y (inject_Z c) -> 1 <= c <= 2 ^ 20 ->
  sized j X -> -900 <= j ->
  (- B <= X)%Q -> (X <= B)%Q -> (B <= huge)%Q ->
  exists v,
    dbl (x / y)%F v /\ sized (j - 21) v
    /\ (X / inject_Z c - B * eps <= v)%Q /\ (v <= X / inject_Z c + B * eps)%Q.
Proof.
  intros Hx Hy Hc Sx Hj L U HB.
  change (2 ^ 20) with 1048576 in Hc.
  destruct (inject_Z_bounds c 1 1048576 Hc) as [C1 C2].
  change (inject_Z 1) with 1%Q in C1.
  change (inject_Z 1048576) with 1048576%Q in C2.
  pose proof (pow2_pos j) as P.
  assert (E : (2 ^ (j - 20) == 2 ^ j / 1048576)%Q)
    by (rewrite pow2_sub; change (2 ^ 20)%Q with 1048576%Q; reflexivity).
  assert (B0 : (0 <= B)%Q) by lra.
  assert (HS : sized (j - 20) (X / inject_Z c)).
  { unfold sized. rewrite E.
    destruct Sx as [H|[H|H]].
    - left. rewrite H. field. lra.
    - right; left. apply Qle_shift_div_l; [lra|].
      assert (2 ^ j / 1048576 * inject_Z c <= 2 ^ j / 1048576 * 1048576)%Q
        by (apply Qmult_le_l; [apply Qlt_shift_div_l; lra|lra]).
      assert (2 ^ j / 1048576 * 1048576 == 2 ^ j)%Q by field.
      lra.
    - right; right.
      assert (E2 : (- (X / inject_Z c) == (- X) / inject_Z c)%Q)
        by (field; lra).
      rewrite E2. apply Qle_shift_div_l; [lra|].
      assert (2 ^ j / 1048576 * inject_Z c <= 2 ^ j / 1048576 * 1048576)%Q
        by (apply Qmult_le_l; [apply Qlt_shift_div_l; lra|lra]).
      assert (2 ^ j / 1048576 * 1048576 == 2 ^ j)%Q by field.
      lra. }
  assert (L' : (- B <= X / inject_Z c)%Q).
  { apply Qle_shift_div_l; [lra|].
    assert (0 <= B * (inject_Z c - 1))%Q by (apply Qmult_le_0_compat; lra).
    lra. }
  assert (U' : (X / inject_Z c <= B)%Q).
  { apply Qle_shift_div_r; [lra|].
    assert (0 <= B * (inject_Z c - 1))%Q by (apply Qmult_le_0_compat; lra).
    lra. }
  destruct (dbl_div x y X (inject_Z c) Hx Hy) as (v & Hv & HR).
  { lra. }
  { apply (sized_ok_range (j - 20)); [lia|exact HS|lra|lra]. }
  exists v. split; [exact Hv|]. split.
  - replace (j - 21) with (j - 20 - 1) by lia.
    exact (rounded_sized _ _ _ HR HS).
  - exact (rounded_within _ _ B HR L' U').
Qed.

(** *** [date_to_jd] at binary64 *)

Lemma dbl_lit_365_25 : dbl (lit (F:=float) 365.25) 365.25.
Proof. dbl_closed. Qed.

Lemma dbl_lit_1720994_5 : dbl (lit (F:=float) 1720994.5) 1720994.5.
Proof. dbl_closed. Qed.

Lemma dbl_lit_0_5 : dbl (lit (F:=float) 0.5) 0.5.
Proof. dbl_closed. Qed.

Lemma dbl_lit_2400000_5 : dbl (lit (F:=float) 2400000.5) 2400000.5.
Proof. dbl_closed. Qed.

(** [math.trunc(365.25 * yearp)]: the product is exact. *)
Lemma year_term_binary64 (yearp : Z) :
  0 <= yearp <= 9999 ->
  trunc (F:=float) (lit 365.25 * of_int yearp)%F
  = Return ((36525 * yearp) ÷ 100).
Proof.
  intros Hy.
  assert (D : dbl (lit 365.25 * of_int yearp)%F (365.25 * inject_Z yearp)).
  { apply dbl_mul_exact; [exact dbl_lit_365_25| |].
    - apply dbl_of_int. change (2 ^ 53) with 9007199254740992. lia.
    - exists (1461 * yearp), (-2).
      split; [change (2 ^ 53) with 9007199254740992; lia|].
      split; [lia|].
      rewrite inject_Z_mult. change (2 ^ (-2))%Q with (1 # 4)%Q.
      change (inject_Z 1461) with 1461%Q. field. }
  rewrite (dbl_trunc _ _ D). reflexivity.
Qed.

(** [math.trunc(30.6001 * (monthp + 1))], on each of its twelve arguments. *)
Lemma month_term_binary64 (k : Z) :
  4 <= k <= 15 ->
  trunc (F:=float) (lit 30.6001 * of_int k)%F
  = Return ((306001 * k) ÷ 10000).
Proof.
  intros Hk.
  set (ok := fun k : Z =>
    match trunc (F:=float) (lit 30.6001 * of_int k)%F with
    | Return D => D =? (306001 * k) ÷ 10000
    | _ => false
    end).
  assert (Hall : all_between 4 15 ok = true) by (vm_compute; reflexivity).
  assert (Hok := all_between_spec 4 15 ok Hall k Hk).
  clear Hall. unfold ok in Hok.
  destruct (trunc (F:=float) (lit 30.6001 * of_int k)%F) as [D| |];
    try discriminate Hok.
  apply Z.eqb_eq in Hok. now subst D.
Qed.

(** The integer part of a Julian Day of [datetime]'s range. *)
Lemma jd_integer_bounds (year month day yearp monthp B : Z) :
  0 <= yearp <= 9999 -> 3 <= monthp <= 14 -> 1 <= day <= 31 ->
  B = 0 \/ B = 2 - yearp ÷ 100 + yearp ÷ 100 ÷ 4 ->
  0 <= B + (36525 * yearp) ÷ 100 + (306001 * (monthp + 1)) ÷ 10000 + day
    <= 4000000.
Proof.
  intros Hy Hm Hd HB.
  rewrite quot_36525 by lia.
  rewrite (Z.quot_div_nonneg (306001 * (monthp + 1)) 10000) by lia.
  rewrite century_terms in HB by lia.
  Z.div_mod_to_equations. lia.
Qed.

Lemma date_to_jd_binary64 (year month day : Z) :
  1 <= year <= 9999 -> 1 <= month <= 12 -> 1 <= day <= 31 ->
  exists (x : float) (n : Z),
    date_to_jd (F:=float) year month day = Return x
    /\ date_to_jd (F:=Q) year month day
       = Return (inject_Z n + 1720994.5)%Q
    /\ dbl x (inject_Z n + 1720994.5)
    /\ 0 <= n <= 4000000.
Proof.
  intros Hy Hm Hd.
  rewrite (date_to_jd_exact year month day) by lia. cbv zeta.
  unfold date_to_jd.
  set (early := (month =? 1) || (month =? 2)).
  set (yearp := if early then year - 1 else year).
  set (monthp := if early then month + 12 else month).
  assert (Hpair : (if early then (year - 1, month + 12) else (year, month))
                  = (yearp, monthp)).
  { unfold yearp, monthp. now destruct early. }
  rewrite Hpair.
  assert (Hyp : 0 <= yearp <= 9999) by (unfold yearp; destruct early; lia).
  assert (Hmp : 3 <= monthp <= 14).
  { unfold monthp, early.
    destruct (Z.eqb_spec month 1), (Z.eqb_spec month 2); cbn [orb]; lia. }
  rewrite (gregorian_B_binary64 year month day yearp Hyp). cbn [bind].
  assert (Hneg : (yearp <? 0) = false) by (apply Z.ltb_ge; lia).
  rewrite Hneg.
  rewrite (year_term_binary64 yearp Hyp). cbn [bind].
  rewrite (month_term_binary64 (monthp + 1)) by lia. cbn [bind].
  set (B := if before_gregorian year month day then 0
            else 2 - yearp ÷ 100 + yearp ÷ 100 ÷ 4).
  assert (HB : B = 0 \/ B = 2 - yearp ÷ 100 + yearp ÷ 100 ÷ 4)
    by (unfold B; destruct (before_gregorian year month day); auto).
  pose proof (jd_integer_bounds year month day yearp monthp B Hyp Hmp Hd HB)
    as Hn.
  set (n := B + (36525 * yearp) ÷ 100 + (306001 * (monthp + 1)) ÷ 10000
            + day) in *.
  eexists. exists n. split; [reflexivity|]. split; [reflexivity|].
  split; [|exact Hn].
  apply dbl_add_exact;
    [apply dbl_of_int; change (2 ^ 53) with 9007199254740992; lia
    |exact dbl_lit_1720994_5|].
  exists (2 * n + 3441989), (-1).
  split; [change (2 ^ 53) with 9007199254740992; lia|]. split; [lia|].
  rewrite inject_Z_plus, inject_Z_mult. change (2 ^ (-1))%Q with (1 # 2)%Q.
  change (inject_Z 2) with 2%Q. change (inject_Z 3441989) with 3441989%Q.
  field.
Qed.

(** *** The fraction of the day and the MJD at binary64 *)

Lemma grid_sized (X : Q) (k i : Z) :
  (X == inject_Z k * 2 ^ i)%Q -> sized i X.
Proof.
  intros HX. apply (sized_comp i (X + 0)); [ring|].
  apply (grid_sum_sized X 0 k 0 i HX).
  change (inject_Z 0) with 0%Q. ring.
Qed.

Lemma sized_int (z : Z) : sized 0 (inject_Z z).
Proof.
  apply (grid_sized _ z 0). change (2 ^ 0)%Q with 1%Q. ring.
Qed.

Lemma jdfract_binary64 (hh mm ss : Z) :
  -9 <= hh <= 99 -> -9 <= mm <= 99 -> -9 <= ss <= 99 ->
  exists f,
    dbl ((of_int (hh - 12) + of_int mm / lit 60 + of_int ss / lit 3600)
         / lit 24)%F f
    /\ sized (-148) f
    /\ ((inject_Z (hh - 12) + inject_Z mm / 60 + inject_Z ss / 3600) / 24
        - 256 * eps <= f)%Q
    /\ (f <= (inject_Z (hh - 12) + inject_Z mm / 60 + inject_Z ss / 3600) / 24
             + 256 * eps)%Q
    /\ (-4 <= f)%Q /\ (f <= 4)%Q.
Proof.
  intros Hh Hm Hs.
  assert (P : forall z, -99 <= z <= 999 ->
                dbl (of_int (F:=float) z) (inject_Z z))
    by (intros z Hz; apply dbl_of_int;
        change (2 ^ 53) with 9007199254740992; lia).
  destruct (inject_Z_bounds (hh - 12) (-21) 87 ltac:(lia)) as [H1 H2].
  destruct (inject_Z_bounds mm (-9) 99 Hm) as [M1 M2].
  destruct (inject_Z_bounds ss (-9) 99 Hs) as [S1 S2].
  change (inject_Z (-21)) with (-21)%Q in H1.
  change (inject_Z 87) with 87%Q in H2.
  change (inject_Z (-9)) with (-9)%Q in M1, S1.
  change (inject_Z 99) with 99%Q in M2, S2.
  assert (Hhuge : (128 <= huge)%Q) by (unfold huge; lra).
  (* mm / 60.0 *)
  destruct (div_step (of_int mm) (lit 60) (inject_Z mm) 128 60 0
              (P mm ltac:(lia)) dbl_lit_60 ltac:(lia) (sized_int mm)
              ltac:(lia) ltac:(lra) ltac:(lra) Hhuge)
    as (vm & Dm & Sm & Lm & Um).
  change (inject_Z mm / inject_Z 60)%Q with (inject_Z mm * (1 # 60))%Q
    in Lm, Um.
  (* hh - 12 + mm / 60.0 *)
  destruct (add_step (of_int (hh - 12)) (of_int mm / lit 60)%F
              (inject_Z (hh - 12)) vm 128 (-21)
              (P (hh - 12) ltac:(lia)) Dm
              (sized_le 0 (-21) _ ltac:(lia) (sized_int (hh - 12))) Sm
              ltac:(lia))
    as (g1 & D1 & G1 & L1 & U1);
    [unfold eps in *; lra|unfold eps in *; lra|exact Hhuge|].
  (* ss / 3600.0 *)
  destruct (div_step (of_int ss) (lit 3600) (inject_Z ss) 128 3600 0
              (P ss ltac:(lia)) dbl_lit_3600 ltac:(lia) (sized_int ss)
              ltac:(lia) ltac:(lra) ltac:(lra) Hhuge)
    as (vs & Ds & Ss & Ls & Us).
  change (inject_Z ss / inject_Z 3600)%Q with (inject_Z ss * (1 # 3600))%Q
    in Ls, Us.
  (* the sum of the three *)
  destruct (add_step _ _ g1 vs 128 (-74) D1 Ds G1
              (sized_le (-21) (-74) _ ltac:(lia) Ss) ltac:(lia))
    as (g2 & D2 & G2 & L2 & U2);
    [unfold eps in *; lra|unfold eps in *; lra|exact Hhuge|].
  (* / 24.0 *)
  destruct (div_step _ (lit 24) g2 128 24 (-127) D2 dbl_lit_24 ltac:(lia)
              G2 ltac:(lia))
    as (f & Df & Sf & Lf & Uf);
    [unfold eps in *; lra|unfold eps in *; lra|exact Hhuge|].
  change (g2 / inject_Z 24)%Q with (g2 * (1 # 24))%Q in Lf, Uf.
  exists f. split; [exact Df|]. split; [exact Sf|].
  change ((inject_Z (hh - 12) + inject_Z mm / 60 + inject_Z ss / 3600) / 24)%Q
    with ((inject_Z (hh - 12) + inject_Z mm * (1 # 60)
           + inject_Z ss * (1 # 3600)) * (1 # 24))%Q.
  unfold eps in *. split_conj; lra.
Qed.

Lemma month_day_bounds (leap : bool) (n m d : Z) :
  0 <= n <= (if leap then 365 else 364) ->
  month_day leap n = (m, d) -> 1 <= m <= 12 /\ 1 <= d <= 31.
Proof.
  intros Hn E. pose proof (month_day_facts leap n Hn) as Hok.
  unfold month_day_ok in Hok. rewrite E in Hok.
  repeat (apply andb_true_iff in Hok; destruct Hok as [Hok ?]).
  repeat match goal with
  | H : (_ <=? _) = true |- _ => apply Z.leb_le in H
  end.
  split; [lia|]. split; [assumption|].
  match goal with
  | H : d <= (if ?c then 29 else Datetime.DAYS_IN_MONTH m) |- _ =>
      destruct c; [lia|]; unfold Datetime.DAYS_IN_MONTH in H
  end.
  destruct m as [|p|p]; try lia.
  do 4 (try destruct p as [p|p|]); lia.
Qed.

(** The MJD that [dateVEX2split] computes at binary64 is the one of exact
    arithmetic within [mjd_tolerance]. *)
Lemma split_binary64 (v : vexdate) :
  1 <= v_yr v <= 9999 -> 1 <= v_doy v <= days_in_year (v_yr v) ->
  -9 <= v_hh v <= 99 -> -9 <= v_mm v <= 99 -> -9 <= v_ss v <= 99 ->
  exists (d : split_date float) (dq : split_date Q) (X : Q),
    dateVEX2split (F:=float) v = Return d
    /\ dateVEX2split (F:=Q) v = Return dq
    /\ dbl (d_mjd d) X /\ sized (-201) X
    /\ (d_mjd dq - mjd_tolerance <= X)%Q /\ (X <= d_mjd dq + mjd_tolerance)%Q.
Proof.
  intros Hy Hd Hh Hm Hs. destruct v as [yr doy hh mm ss].
  cbn [v_yr v_doy v_hh v_mm v_ss] in *.
  unfold dateVEX2split. cbn [v_yr v_doy v_hh v_mm v_ss].
  assert (Hjan : Datetime.date yr 1 1 = Return (yr, 1, 1)).
  { unfold Datetime.date, Datetime.MINYEAR, Datetime.MAXYEAR.
    assert (Hyr : ((1 <=? yr) && (yr <=? 9999)) = true)
      by (apply andb_true_iff; split; apply Z.leb_le; lia).
    rewrite Hyr. reflexivity. }
  rewrite Hjan. cbn [bind].
  destruct (fromordinal_in_year yr doy Hy Hd) as (m & dd & Hfrom & Hmd).
  rewrite Hfrom. cbn [bind].
  assert (Hn0 : 0 <= doy - 1 <= (if Datetime.is_leap yr then 365 else 364)).
  { unfold days_in_year in Hd. destruct (Datetime.is_leap yr); lia. }
  destruct (month_day_bounds _ _ _ _ Hn0 Hmd) as [Hm12 Hd31].
  destruct (date_to_jd_binary64 yr m dd Hy Hm12 Hd31)
    as (x & n & Ef & Eq & Dx & Hn).
  rewrite Ef, Eq. cbn [bind].
  destruct (jdfract_binary64 hh mm ss Hh Hm Hs)
    as (f & Df & Sf & Lf & Uf & F1 & F2).
  destruct (inject_Z_bounds n 0 4000000 Hn) as [N1 N2].
  change (inject_Z 0) with 0%Q in N1.
  change (inject_Z 4000000) with 4000000%Q in N2.
  (* jd + 0.5 *)
  assert (D1 : dbl (x + lit 0.5)%F (inject_Z n + 1720994.5 + 0.5)).
  { apply dbl_add_exact; [exact Dx|exact dbl_lit_0_5|].
    apply (dyadic_comp (inject_Z (n + 1720995))).
    - rewrite inject_Z_plus. change (inject_Z 1720995) with 1720995%Q. lra.
    - apply dyadic_int. change (2 ^ 53) with 9007199254740992. lia. }
  (* - 2400000.5 *)
  assert (G2 : (inject_Z n + 1720994.5 + 0.5 - 2400000.5
                == inject_Z (2 * n - 1358011) * 2 ^ (-1))%Q).
  { unfold Z.sub. rewrite inject_Z_plus, inject_Z_mult, inject_Z_opp.
    change (2 ^ (-1))%Q with (1 # 2)%Q. change (inject_Z 2) with 2%Q.
    change (inject_Z 1358011) with 1358011%Q. field. }
  assert (D2 : dbl (x + lit 0.5 - lit 2400000.5)%F
                 (inject_Z n + 1720994.5 + 0.5 - 2400000.5)).
  { apply dbl_sub_exact; [exact D1|exact dbl_lit_2400000_5|].
    exists (2 * n - 1358011), (-1).
    split; [change (2 ^ 53) with 9007199254740992; lia|]. split; [lia|].
    exact G2. }
  (* + jdfract *)
  destruct (add_step _ _ _ f 8388608 (-148) D2 Df
              (sized_le (-1) (-148) _ ltac:(lia) (grid_sized _ _ _ G2)) Sf
              ltac:(lia))
    as (X & DX & SX & LX & UX);
    [lra|lra|unfold huge; lra|].
  eexists. eexists. exists X. split; [reflexivity|]. split; [reflexivity|].
  cbn [d_mjd]. split; [exact DX|]. split; [exact SX|].
  cbn [exactQ lit of_int fadd fsub fmul fdiv].
  unfold mjd_tolerance, eps in *. split; lra.
Qed.

(** The exact MJD of two timestamps of a year on the same side of the
    cutover, the first earlier than the second, differ by a second or
    more. *)
Lemma mjd_gap_exact (a b : vexdate) (da db : split_date Q) :
  valid_timestamp a -> valid_timestamp b ->
  v_yr a = v_yr b ->
  earlier a b ->
  before_cutover a = before_cutover b ->
  dateVEX2split (F:=Q) a = Return da ->
  dateVEX2split (F:=Q) b = Return db ->
  (d_mjd da + (1 # 86400) <= d_mjd db)%Q.
Proof.
  intros (Hya & Hda & Hha & Hma & Hsa) (Hyb & Hdb & Hhb & Hmb & Hsb)
    Hyr Hearlier Hside Ea Eb.
  destruct (split_day_number a Hya Hda) as (da' & Ea' & Ma).
  destruct (split_day_number b Hyb Hdb) as (db' & Eb' & Mb).
  rewrite Ea in Ea'. injection Ea' as <-.
  rewrite Eb in Eb'. injection Eb' as <-.
  rewrite Ma, Mb, !mjd_seconds.
  set (ta := 86400 * day_number (v_yr a) (v_doy a) + 3600 * v_hh a
             + 60 * v_mm a + v_ss a).
  set (tb := 86400 * day_number (v_yr b) (v_doy b) + 3600 * v_hh b
             + 60 * v_mm b + v_ss b).
  assert (Ht : ta + 1 <= tb).
  { unfold ta, tb. unfold before_cutover in Hside. rewrite <- Hyr in *.
    destruct Hearlier as [Hlt|[Heq Hrest]].
    - pose proof (day_number_increasing (v_yr a) (v_doy a) (v_doy b)
                    ltac:(lia) ltac:(lia) Hlt Hside).
      lia.
    - rewrite <- Heq. lia. }
  assert (Hq : (inject_Z ta + 1 <= inject_Z tb)%Q).
  { change 1%Q with (inject_Z 1). rewrite <- inject_Z_plus, <- Zle_Qle.
    exact Ht. }
  change ((inject_Z ta - 58666118400) / 86400)%Q
    with ((inject_Z ta - 58666118400) * (1 # 86400))%Q.
  change ((inject_Z tb - 58666118400) / 86400)%Q
    with ((inject_Z tb - 58666118400) * (1 # 86400))%Q.
  lra.
Qed.

(** C8, amended: at binary64, for two valid timestamps of the same year,
    the first earlier than the second field-wise, both before 1582-10-15 or
    both from that day on, [dateVEX2split] returns on both and the MJD of
    the first is strictly smaller, as doubles. *)
Theorem mjd_increasing_within_a_year (a b : vexdate) :
  valid_timestamp a -> valid_timestamp b ->
  v_yr a = v_yr b ->
  earlier a b ->
  before_cutover a = before_cutover b ->
  exists da db,
    dateVEX2split (F:=float) a = Return da
    /\ dateVEX2split (F:=float) b = Return db
    /\ PrimFloat.ltb (d_mjd da) (d_mjd db) = true.
Proof.
  intros Ha Hb Hyr Hearlier Hside.
  pose proof Ha as (Hya & Hda & Hha & Hma & Hsa).
  pose proof Hb as (Hyb & Hdb & Hhb & Hmb & Hsb).
  destruct (split_binary64 a Hya Hda ltac:(lia) ltac:(lia) ltac:(lia))
    as (da & qa & Xa & Ea & Qa & Da & _ & La & Ua).
  destruct (split_binary64 b Hyb Hdb ltac:(lia) ltac:(lia) ltac:(lia))
    as (db & qb & Xb & Eb & Qb & Db & _ & Lb & Ub).
  exists da, db. split; [exact Ea|]. split; [exact Eb|].
  pose proof (mjd_gap_exact a b qa qb Ha Hb Hyr Hearlier Hside Qa Qb) as Hgap.
  apply (dbl_ltb _ _ Xa Xb Da Db).
  unfold mjd_tolerance in *. lra.
Qed.

Lemma mjd_increasing_within_a_year_witness :
  valid_timestamp (mkvex 2015 262 11 0 0)
  /\ valid_timestamp (mkvex 2015 262 11 5 0)
  /\ earlier (mkvex 2015 262 11 0 0) (mkvex 2015 262 11 5 0)
  /\ exists da db,
       dateVEX2split (F:=float) (mkvex 2015 262 11 0 0) = Return da
       /\ dateVEX2split (F:=float) (mkvex 2015 262 11 5 0) = Return db
       /\ PrimFloat.ltb (d_mjd da) (d_mjd db) = true.
Proof.
  assert (Ha : valid_timestamp (mkvex 2015 262 11 0 0))
    by (unfold valid_timestamp, days_in_year; simpl; lia).
  assert (Hb : valid_timestamp (mkvex 2015 262 11 5 0))
    by (unfold valid_timestamp, days_in_year; simpl; lia).
  assert (He : earlier (mkvex 2015 262 11 0 0) (mkvex 2015 262 11 5 0))
    by (unfold earlier; simpl; lia).
  split; [exact Ha|]. split; [exact Hb|]. split; [exact He|].
  exact (mjd_increasing_within_a_year
           (mkvex 2015 262 11 0 0) (mkvex 2015 262 11 5 0)
           Ha Hb eq_refl He eq_refl).
Defined.

(** C8, as stated, fails in 1582: day 287 is 1582-10-14, day 288 is
    1582-10-15, and the MJD of the later midnight is nine days smaller. *)
Lemma mjd_decreases_across_the_cutover :
  valid_timestamp (mkvex 1582 287 0 0 0)
  /\ valid_timestamp (mkvex 1582 288 0 0 0)
  /\ earlier (mkvex 1582 287 0 0 0) (mkvex 1582 288 0 0 0)
  /\ mjd_of (F:=float) (mkvex 1582 287 0 0 0) = Some (-100831)%float
  /\ mjd_of (F:=float) (mkvex 1582 288 0 0 0) = Some (-100840)%float
  /\ PrimFloat.ltb (-100840) (-100831) = true
  /\ (exists da db,
        dateVEX2split (F:=Q) (mkvex 1582 287 0 0 0) = Return da
        /\ dateVEX2split (F:=Q) (mkvex 1582 288 0 0 0) = Return db
        /\ (d_mjd db < d_mjd da)%Q).
Proof.
  split; [unfold valid_timestamp, days_in_year; simpl; lia|].
  split; [unfold valid_timestamp, days_in_year; simpl; lia|].
  split; [unfold earlier; simpl; lia|].
  split; [vm_compute; reflexivity|].
  split; [vm_compute; reflexivity|].
  split; [vm_compute; reflexivity|].
  eexists. eexists.
  split; [vm_compute; reflexivity|].
  split; [vm_compute; reflexivity|].
  vm_compute. reflexivity.
Qed.

(** ** The block mapper over exact rationals *)

(** Over exact rationals [doFlag] returns on every gap of valid timestamps,
    whenever the start reference is a number and the block is not zero. *)
Lemma doFlag_exact_returns (G : globals Q) (gap_start gap_stop : vexdate)
    (fb_tstart : pyvalue Q) (fb_tint : Q) (zapints_list : list zapint)
    (startMJD : Q) :
  fb_Tstart G = PyNumber startMJD ->
  ~ (fb_Tint G == 0)%Q ->
  valid_timestamp gap_start -> valid_timestamp gap_stop ->
  returns (doFlag G gap_start gap_stop fb_tstart fb_tint zapints_list).
Proof.
  intros Hstart Hnz (Hy1 & Hd1 & _) (Hy2 & Hd2 & _).
  destruct (split_day_number gap_start Hy1 Hd1) as (t1 & E1 & _).
  destruct (split_day_number gap_stop Hy2 Hd2) as (t2 & E2 & _).
  assert (Hz : is_zero (fb_Tint G) = false).
  { cbn [is_zero exactQ]. destruct (Qeq_bool (fb_Tint G) 0) eqn:E; [|reflexivity].
    apply Qeq_bool_iff in E. contradiction. }
  destruct (doFlag_total G gap_start gap_stop fb_tstart fb_tint zapints_list
              startMJD t1 t2 _ _ Hstart Hz E1 E2 eq_refl eq_refl)
    as [zl Hzl].
  now exists zl.
Qed.

(** * Further properties *)

(** ** The ranges of a run *)

Lemma on_return_Return {A : Type} (P : A -> Prop) (a : A) :
  P a -> on_return P (Return a).
Proof. intros H b E. inversion E; subst. exact H. Qed.

Lemma on_return_Raise {A : Type} (P : A -> Prop) (e : exn) :
  on_return P (Raise e).
Proof. intros b E. discriminate. Qed.

Lemma on_return_Exit {A : Type} (P : A -> Prop) (p : exit_point) :
  on_return P (Exit p).
Proof. intros b E. discriminate. Qed.

Lemma on_return_bind {A B : Type} (Q : A -> Prop) (P : B -> Prop)
    (m : outcome A) (k : A -> outcome B) :
  on_return Q m -> (forall a, Q a -> on_return P (k a)) ->
  on_return P (bind m k).
Proof.
  intros Hm Hk b E. apply bind_returns_inv in E. destruct E as [a [Ea Eb]].
  exact (Hk a (Hm a Ea) b Eb).
Qed.

Lemma on_return_any {A : Type} (m : outcome A) : on_return (fun _ => True) m.
Proof. intros a _. exact I. Qed.

Section EmittedRanges.
Context {F : Type} {PF : PyFloat F}.
Variable G : globals F.
Variable telescope : string.

(** [doFlag] keeps the list and appends at most one range, from 0 on and
    not degenerate. *)
Lemma doFlag_appends (a b : vexdate) (p1 : pyvalue F) (p2 : F)
    (zl : list zapint) :
  on_return (fun zl' => zl' = zl \/ exists r, zl' = zl ++ [r] /\ emitted_range r)
    (doFlag G a b p1 p2 zl).
Proof.
  unfold doFlag.
  apply (on_return_bind (fun _ => True)); [apply on_return_any|intros t1 _].
  apply (on_return_bind (fun _ => True)); [apply on_return_any|intros t2 _].
  apply (on_return_bind (fun _ => True)); [apply on_return_any|intros x1 _].
  apply (on_return_bind (fun _ => True)); [apply on_return_any|intros f1 _].
  apply (on_return_bind (fun _ => True)); [apply on_return_any|intros x2 _].
  apply (on_return_bind (fun _ => True)); [apply on_return_any|intros c2 _].
  destruct (Z.eqb_spec (Z.max 0 f1) (Z.max 0 c2)) as [E|NE];
    apply on_return_Return; [now left|right].
  eexists. split; [reflexivity|]. unfold emitted_range. simpl. lia.
Qed.

Lemma grown_refl (zl : list zapint) : grown 0 zl zl.
Proof. split; [auto|lia]. Qed.

Lemma grown_trans (n m : nat) (zl zl1 zl2 : list zapint) :
  grown n zl zl1 -> grown m zl1 zl2 -> grown (n + m) zl zl2.
Proof. intros [F1 L1] [F2 L2]. split; [auto|lia]. Qed.

Lemma grown_weaken (n m : nat) (zl zl' : list zapint) :
  (n <= m)%nat -> grown n zl zl' -> grown m zl zl'.
Proof. intros Hnm [F1 L1]. split; [auto|lia]. Qed.

Lemma doFlag_grown (a b : vexdate) (p1 : pyvalue F) (p2 : F)
    (zl : list zapint) :
  on_return (grown 1 zl) (doFlag G a b p1 p2 zl).
Proof.
  intros zl' E. destruct (doFlag_appends a b p1 p2 zl zl' E) as [->|[r [-> Hr]]].
  - apply (grown_weaken 0); [lia|apply grown_refl].
  - split.
    + intros Hzl. apply Forall_app. split; [assumption|]. now constructor.
    + rewrite length_app. simpl. lia.
Qed.

Lemma zap_stations_grown (sc : scan) (stations : list station) :
  forall c zl,
    on_return (fun st => grown (List.length (filter (on_station telescope)
                                               stations)) zl (snd st))
      (zap_stations G telescope sc stations c zl).
Proof.
  induction stations as [|s rest IH]; intros c zl; simpl.
  - apply on_return_Return. apply grown_refl.
  - destruct (on_station telescope s); simpl.
    + apply (on_return_bind (grown 1 zl)); [apply doFlag_grown|].
      intros zl1 H1.
      apply (on_return_bind (fun _ => True)); [apply on_return_any|].
      intros c1 _ st E.
      exact (grown_trans 1 _ zl zl1 (snd st) H1 (IH c1 zl1 st E)).
    + apply IH.
Qed.

Lemma zap_scans_grown (d : sched) (l : list (string * scan)) :
  (forall kv, In kv l -> dict_get (fst kv) d = Return (snd kv)) ->
  forall c zl,
    on_return (fun st => grown (list_sum (map (fun kv => station_lines telescope (snd kv)) l))
                           zl (snd st))
      (zap_scans G telescope d (map fst l) c zl).
Proof.
  induction l as [|[k sc] l IH]; intros Hget c zl; simpl.
  - apply on_return_Return. apply grown_refl.
  - assert (Hk := Hget (k, sc) (or_introl eq_refl)). simpl in Hk.
    rewrite Hk. cbn [bind].
    apply (on_return_bind (fun st => grown (station_lines telescope sc) zl (snd st)));
      [apply zap_stations_grown|].
    intros [c1 zl1] H1 st E. cbn [fst snd] in *.
    apply (grown_trans _ _ zl zl1 (snd st) H1).
    apply (IH (fun kv HIn => Hget kv (or_intror HIn)) c1 zl1 st E).
Qed.

(** Without any assumption on the dictionary: the loops only ever append
    emitted ranges. *)
Lemma zap_stations_keeps (sc : scan) (stations : list station) :
  forall c zl,
    Forall emitted_range zl ->
    on_return (fun st => Forall emitted_range (snd st))
      (zap_stations G telescope sc stations c zl).
Proof.
  intros c zl Hzl st E.
  exact (proj1 (zap_stations_grown sc stations c zl st E) Hzl).
Qed.

Lemma zap_scans_keeps (d : sched) (names : list string) :
  forall c zl,
    Forall emitted_range zl ->
    on_return (fun st => Forall emitted_range (snd st))
      (zap_scans G telescope d names c zl).
Proof.
  induction names as [|name rest IH]; intros c zl Hzl; simpl.
  - now apply on_return_Return.
  - apply (on_return_bind (fun _ => True)); [apply on_return_any|intros sc _].
    apply (on_return_bind (fun st => Forall emitted_range (snd st)));
      [now apply zap_stations_keeps|].
    intros [c1 zl1] H1. now apply IH.
Qed.

Lemma zap_all_keeps (d : sched) (s1 sN : scan) (stop : vexdate)
    (zl : list zapint) :
  Forall emitted_range zl ->
  on_return (Forall emitted_range) (zap_all G telescope d s1 sN stop zl).
Proof.
  intros Hzl. unfold zap_all.
  apply (on_return_bind (fun st => Forall emitted_range (snd st)));
    [now apply zap_scans_keeps|].
  intros [c1 zl1] H1. cbn [snd] in H1.
  destruct (negb (vexdate_eqb (sc_start sN) c1)).
  - intros zl2 E. exact (proj1 (doFlag_grown _ _ _ _ zl1 zl2 E) H1).
  - now apply on_return_Return.
Qed.

Lemma zap_all_grown (d : sched) (s1 sN : scan) (stop : vexdate)
    (zl : list zapint) :
  NoDup (dict_keys d) ->
  on_return (grown (list_sum (map (fun kv => station_lines telescope (snd kv)) d) + 1) zl)
    (zap_all G telescope d s1 sN stop zl).
Proof.
  intros ND. unfold zap_all, dict_keys.
  apply (on_return_bind
           (fun st => grown (list_sum (map (fun kv => station_lines telescope (snd kv)) d))
                        zl (snd st))).
  - apply zap_scans_grown. intros [k v] HIn. now apply dict_get_in.
  - intros [c1 zl1] H1. cbn [snd] in H1.
    destruct (negb (vexdate_eqb (sc_start sN) c1)).
    + intros zl2 E.
      exact (grown_trans _ 1 zl zl1 zl2 H1 (doFlag_grown _ _ _ _ zl1 zl2 E)).
    + apply on_return_Return. eapply grown_weaken; [|exact H1]. lia.
Qed.
End EmittedRanges.

(** X1: whatever the schedule and the options, the ranges a completed run
    hands to the command file are block indices from 0 on with start and
    stop different: no negative index and no empty range is written. *)
Theorem main_emits_proper_ranges {F : Type} {PF : PyFloat F}
    (opts : options F) (schedule : sched) (nominal_stop : vexdate)
    (source telescope_arg : string) (zl : list zapint) (scans : sched) :
  main opts schedule nominal_stop source telescope_arg = Return (zl, scans) ->
  Forall emitted_range zl.
Proof.
  revert zl scans.
  enough (H : on_return (fun r => Forall emitted_range (fst r))
                (main opts schedule nominal_stop source telescope_arg))
    by (intros zl scans E; exact (H _ E)).
  unfold main.
  apply (on_return_bind (fun _ => True)); [apply on_return_any|intros b _].
  destruct (List.length schedule <=? 1)%nat; [apply on_return_Exit|].
  apply (on_return_bind (fun _ => True)); [apply on_return_any|intros st _].
  destruct (List.length st <=? 1)%nat; [apply on_return_Exit|].
  apply (on_return_bind (fun _ => True)); [apply on_return_any|intros k1 _].
  apply (on_return_bind (fun _ => True)); [apply on_return_any|intros t0 _].
  apply (on_return_bind (fun _ => True)); [apply on_return_any|intros s1 _].
  apply (on_return_bind (fun _ => True)); [apply on_return_any|intros kN _].
  apply (on_return_bind (fun _ => True)); [apply on_return_any|intros sN _].
  apply (on_return_bind (fun _ => True)); [apply on_return_any|intros src _].
  destruct (List.length src <? 1)%nat; [apply on_return_Exit|].
  apply (on_return_bind (Forall emitted_range));
    [apply zap_all_keeps; constructor|].
  intros zl Hzl. now apply on_return_Return.
Qed.

(** X2: a completed run emits at most one range for each [station] line
    that names the telescope in the scans left in the schedule, and one
    more for the time up to the nominal stop. *)
Theorem main_range_count {F : Type} {PF : PyFloat F}
    (opts : options F) (schedule : sched) (nominal_stop : vexdate)
    (source telescope_arg : string) (zl : list zapint) (scans : sched) :
  NoDup (dict_keys schedule) ->
  main opts schedule nominal_stop source telescope_arg = Return (zl, scans) ->
  (List.length zl
   <= list_sum (map (fun kv => station_lines (upper telescope_arg) (snd kv))
                  scans) + 1)%nat.
Proof.
  intros ND Hrun.
  destruct (block_duration opts) as [b| |] eqn:Hb;
    try (unfold main in Hrun; rewrite Hb in Hrun; discriminate).
  rewrite (main_phases opts b) in Hrun by assumption.
  unfold phases in Hrun.
  destruct (List.length schedule <=? 1)%nat; [discriminate|].
  assert (NDst : NoDup (dict_keys
                          (station_filtered (upper telescope_arg) schedule)))
    by now apply dict_keys_filter_NoDup.
  destruct (station_filtered (upper telescope_arg) schedule)
    as [|first [|second rest]]; try discriminate.
  assert (NDsrc : NoDup (dict_keys
                           (source_filtered source (first :: second :: rest))))
    by now apply dict_keys_filter_NoDup.
  destruct (source_filtered source (first :: second :: rest)) as [|e es];
    [discriminate|].
  apply bind_returns_inv in Hrun. destruct Hrun as [zl' [Hzap E]].
  inversion E; subst zl' scans; clear E.
  destruct (zap_all_grown _ _ _ _ _ _ [] NDsrc zl Hzap) as [_ Hlen].
  exact Hlen.
Qed.

(** ** A failing first gap ends the run *)

Section FirstGap.
Context {F : Type} {PF : PyFloat F}.

Lemma zap_stations_first_raises (G : globals F) (telescope : string)
    (sc : scan) (stations : list station) (c : vexdate) (zl : list zapint)
    (x : exn) :
  existsb (on_station telescope) stations = true ->
  doFlag G c (sc_start sc) (fb_Tstart G) (fb_Tint G) zl = Raise x ->
  zap_stations G telescope sc stations c zl = Raise x.
Proof.
  induction stations as [|s rest IH]; simpl; intros Hex Hflag;
    [discriminate|].
  destruct (on_station telescope s); simpl.
  - now rewrite Hflag.
  - now apply IH.
Qed.

(** The first call of [doFlag] is on the gap from the first station-filtered
    scan to the first source-filtered scan; if it raises, so does the run. *)
Lemma main_first_gap_raises (opts : options F) (b : F) (schedule : sched)
    (nominal_stop : vexdate) (source telescope_arg : string)
    (first e : string * scan) (x : exn) :
  NoDup (dict_keys schedule) ->
  block_duration opts = Return b ->
  hd_error (station_filtered (upper telescope_arg) schedule) = Some first ->
  (2 <= List.length (station_filtered (upper telescope_arg) schedule))%nat ->
  hd_error (source_filtered source
              (station_filtered (upper telescope_arg) schedule)) = Some e ->
  (let G := run_globals opts b (snd first) in
   doFlag G (sc_start (snd first)) (sc_start (snd e)) (fb_Tstart G)
     (fb_Tint G) [] = Raise x) ->
  main opts schedule nominal_stop source telescope_arg = Raise x.
Proof.
  intros ND Hb Hfirst Hlen He Hflag. cbv zeta in Hflag.
  rewrite (main_phases opts b) by assumption. unfold phases.
  assert (Hle : (List.length (station_filtered (upper telescope_arg) schedule)
                  <= List.length schedule)%nat) by apply filter_length_le.
  assert (Hinc : includes_station (upper telescope_arg) (snd e) = true).
  { destruct (source_filtered source
                (station_filtered (upper telescope_arg) schedule))
      as [|e' es] eqn:Esrc; [discriminate|].
    inversion He; subst e'.
    assert (Hin : In e (source_filtered source
                          (station_filtered (upper telescope_arg) schedule)))
      by (rewrite Esrc; now left).
    apply filter_In in Hin. destruct Hin as [Hin _].
    apply filter_In in Hin. tauto. }
  destruct (station_filtered (upper telescope_arg) schedule)
    as [|f [|second rest]]; cbn [hd_error List.length] in *; try lia;
    try discriminate.
  inversion Hfirst; subst f.
  destruct (Nat.leb_spec (List.length schedule) 1) as [Hfew|_];
    [exfalso; clear - Hfew Hle; lia|].
  destruct (source_filtered source (first :: second :: rest)) as [|e' es];
    [discriminate|].
  inversion He; subst e'. destruct e as [k sc]. cbn [snd] in *.
  unfold zap_all, dict_keys. cbn [map fst zap_scans].
  rewrite dict_get_head. cbn [bind].
  rewrite (zap_stations_first_raises _ _ sc (sc_stations sc) _ [] x Hinc Hflag).
  reflexivity.
Qed.
End FirstGap.

(** The MJD of a date is computed before the start reference is looked at. *)
Lemma doFlag_start_not_a_number {F : Type} {PF : PyFloat F}
    (G : globals F) (a b : vexdate) (p1 : pyvalue F) (p2 : F)
    (zl : list zapint) (v : vexdate) :
  fb_Tstart G = PyStr v ->
  returns (dateVEX2split (F:=F) a) -> returns (dateVEX2split (F:=F) b) ->
  doFlag G a b p1 p2 zl = Raise TypeError.
Proof.
  intros Hstart [t1 H1] [t2 H2]. unfold doFlag. rewrite H1, H2. cbn [bind].
  unfold block_offset. now rewrite Hstart.
Qed.

(** X3: without [--startmjd] the script warns that it assumes the start of
    the first VEX scan, and binds [fb_Tstart] to that scan's VEX string: a
    run that gets to its first gap, with dates that have an MJD, then raises
    [TypeError] instead of flagging anything. *)
Theorem main_without_startmjd_raises {F : Type} {PF : PyFloat F}
    (opts : options F) (b : F) (schedule : sched) (nominal_stop : vexdate)
    (source telescope_arg : string) (first e : string * scan) :
  NoDup (dict_keys schedule) ->
  startmjd opts = None ->
  block_duration opts = Return b ->
  hd_error (station_filtered (upper telescope_arg) schedule) = Some first ->
  (2 <= List.length (station_filtered (upper telescope_arg) schedule))%nat ->
  hd_error (source_filtered source
              (station_filtered (upper telescope_arg) schedule)) = Some e ->
  returns (dateVEX2split (F:=F) (sc_start (snd first))) ->
  returns (dateVEX2split (F:=F) (sc_start (snd e))) ->
  main opts schedule nominal_stop source telescope_arg = Raise TypeError.
Proof.
  intros ND Hnone Hb Hfirst Hlen He H1 H2.
  apply (main_first_gap_raises opts b schedule nominal_stop source
           telescope_arg first e TypeError); auto.
  cbv zeta.
  apply (doFlag_start_not_a_number _ _ _ _ _ _ (sc_start (snd first)));
    auto.
  unfold run_globals. cbn [fb_Tstart]. now rewrite Hnone.
Qed.

Lemma doFlag_zero_block {F : Type} {PF : PyFloat F}
    (G : globals F) (a b : vexdate) (p1 : pyvalue F) (p2 : F)
    (zl : list zapint) (t0 : F) :
  fb_Tstart G = PyNumber t0 ->
  is_zero (fb_Tint G) = true ->
  returns (dateVEX2split (F:=F) a) -> returns (dateVEX2split (F:=F) b) ->
  doFlag G a b p1 p2 zl = Raise ZeroDivisionError.
Proof.
  intros Hstart Hz [t1 H1] [t2 H2]. unfold doFlag. rewrite H1, H2. cbn [bind].
  unfold block_offset, pydiv. now rewrite Hstart, Hz.
Qed.

(** X4: the block length [tint / 86400 * 480 * blocks] is not checked: when
    it is zero ([--blocks 0] or [--tint 0]) a run that gets to its first
    gap, with a start reference and dates that have an MJD, raises
    [ZeroDivisionError]. *)
Theorem main_zero_block_raises {F : Type} {PF : PyFloat F}
    (opts : options F) (b t0 : F) (schedule : sched) (nominal_stop : vexdate)
    (source telescope_arg : string) (first e : string * scan) :
  NoDup (dict_keys schedule) ->
  startmjd opts = Some t0 ->
  block_duration opts = Return b ->
  is_zero b = true ->
  hd_error (station_filtered (upper telescope_arg) schedule) = Some first ->
  (2 <= List.length (station_filtered (upper telescope_arg) schedule))%nat ->
  hd_error (source_filtered source
              (station_filtered (upper telescope_arg) schedule)) = Some e ->
  returns (dateVEX2split (F:=F) (sc_start (snd first))) ->
  returns (dateVEX2split (F:=F) (sc_start (snd e))) ->
  main opts schedule nominal_stop source telescope_arg
  = Raise ZeroDivisionError.
Proof.
  intros ND Hsome Hb Hz Hfirst Hlen He H1 H2.
  apply (main_first_gap_raises opts b schedule nominal_stop source
           telescope_arg first e ZeroDivisionError); auto.
  cbv zeta. apply (doFlag_zero_block _ _ _ _ _ _ t0); auto.
  unfold run_globals. cbn [fb_Tstart]. now rewrite Hsome.
Qed.

Local Open Scope string_scope.

Lemma main_without_startmjd_raises_witness :
  let opts := mkoptions (F:=float) None (Some (lit 0.625)) 1 in
  NoDup (dict_keys example_schedule)
  /\ startmjd opts = None
  /\ block_duration opts = Return example_block
  /\ main opts example_schedule example_stop "X" "stationA" = Raise TypeError.
Proof.
  cbv zeta.
  split; [exact example_keys_NoDup|].
  split; [reflexivity|]. split; [reflexivity|].
  apply (main_without_startmjd_raises (PF:=binary64)
           (mkoptions None (Some (lit 0.625)) 1) example_block
           example_schedule example_stop "X" "stationA"
           ("No0001", on_stationA "X" 11 0)
           ("No0001", on_stationA "X" 11 0)).
  - exact example_keys_NoDup.
  - reflexivity.
  - reflexivity.
  - reflexivity.
  - simpl; lia.
  - reflexivity.
  - eexists; vm_compute; reflexivity.
  - eexists; vm_compute; reflexivity.
Defined.

Lemma main_zero_block_raises_witness :
  let opts := mkoptions (F:=float) (Some 57284%float) (Some (lit 0.625)) 0 in
  let b := (lit 0.625 / lit 86400 * of_int 480 * of_int 0)%F in
  NoDup (dict_keys example_schedule)
  /\ startmjd opts = Some 57284%float
  /\ block_duration opts = Return b
  /\ is_zero b = true
  /\ main opts example_schedule example_stop "X" "stationA"
     = Raise ZeroDivisionError.
Proof.
  cbv zeta.
  split; [exact example_keys_NoDup|].
  split; [reflexivity|]. split; [reflexivity|].
  split; [vm_compute; reflexivity|].
  apply (main_zero_block_raises (PF:=binary64)
           (mkoptions (Some 57284%float) (Some (lit 0.625)) 0)
           (lit 0.625 / lit 86400 * of_int 480 * of_int 0)%F 57284%float
           example_schedule example_stop "X" "stationA"
           ("No0001", on_stationA "X" 11 0)
           ("No0001", on_stationA "X" 11 0)).
  - exact example_keys_NoDup.
  - reflexivity.
  - reflexivity.
  - vm_compute; reflexivity.
  - reflexivity.
  - simpl; lia.
  - reflexivity.
  - eexists; vm_compute; reflexivity.
  - eexists; vm_compute; reflexivity.
Defined.

Lemma main_emits_proper_ranges_witness :
  main (F:=float) example_options example_schedule example_stop "X"
    "stationA"
  = Return ([(0, 4); (4, 6)],
            [("No0001", on_stationA "X" 11 0);
             ("No0003", on_stationA "X" 11 20)])
  /\ Forall emitted_range [(0, 4); (4, 6)].
Proof.
  assert (H : main (F:=float) example_options example_schedule example_stop
                "X" "stationA"
              = Return ([(0, 4); (4, 6)],
                        [("No0001", on_stationA "X" 11 0);
                         ("No0003", on_stationA "X" 11 20)]))
    by (vm_compute; reflexivity).
  split; [exact H|].
  exact (main_emits_proper_ranges (PF:=binary64) example_options
           example_schedule example_stop "X" "stationA" [(0, 4); (4, 6)]
           [("No0001", on_stationA "X" 11 0);
            ("No0003", on_stationA "X" 11 20)] H).
Defined.

Lemma main_range_count_witness :
  NoDup (dict_keys example_schedule)
  /\ main (F:=float) example_options example_schedule example_stop "X"
       "stationA"
     = Return ([(0, 4); (4, 6)],
               [("No0001", on_stationA "X" 11 0);
                ("No0003", on_stationA "X" 11 20)])
  /\ (List.length [(0, 4); (4, 6)]
      <= list_sum (map (fun kv => station_lines (upper "stationA") (snd kv))
                     [("No0001", on_stationA "X" 11 0);
                      ("No0003", on_stationA "X" 11 20)]) + 1)%nat.
Proof.
  assert (H : main (F:=float) example_options example_schedule example_stop
                "X" "stationA"
              = Return ([(0, 4); (4, 6)],
                        [("No0001", on_stationA "X" 11 0);
                         ("No0003", on_stationA "X" 11 20)]))
    by (vm_compute; reflexivity).
  split; [exact example_keys_NoDup|]. split; [exact H|].
  exact (main_range_count (PF:=binary64) example_options
           example_schedule example_stop "X" "stationA" [(0, 4); (4, 6)]
           [("No0001", on_stationA "X" 11 0);
            ("No0003", on_stationA "X" 11 20)] example_keys_NoDup H).
Defined.

Local Close Scope string_scope.

(** ** Ordinals, year ends and the MJD *)

Lemma days_before_next_year (yr : Z) :
  Datetime.days_before_year (yr + 1)
  = Datetime.days_before_year yr + days_in_year yr.
Proof.
  unfold Datetime.days_before_year, days_in_year.
  pose proof (is_leap_cases yr) as H.
  replace (yr + 1 - 1) with yr by lia.
  destruct (Datetime.is_leap yr); lia.
Qed.

Lemma date_jan1 (yr : Z) :
  1 <= yr <= 9999 -> Datetime.date yr 1 1 = Return (yr, 1, 1).
Proof.
  intros Hy. unfold Datetime.date, Datetime.MINYEAR, Datetime.MAXYEAR.
  assert (Hyr : ((1 <=? yr) && (yr <=? 9999)) = true)
    by (apply andb_true_iff; split; apply Z.leb_le; lia).
  rewrite Hyr. reflexivity.
Qed.

Lemma toordinal_jan1 (yr doy : Z) :
  Datetime.toordinal (yr, 1, 1) + doy - 1
  = Datetime.days_before_year yr + doy.
Proof.
  unfold Datetime.toordinal, Datetime.ymd2ord, Datetime.days_before_month.
  simpl. lia.
Qed.

(** [dateVEX2split] reads year and day-of-year through their ordinal only. *)
Lemma dateVEX2split_ordinal {F : Type} {PF : PyFloat F}
    (yr doy yr' doy' hh mm ss : Z) :
  1 <= yr <= 9999 -> 1 <= yr' <= 9999 ->
  Datetime.days_before_year yr + doy = Datetime.days_before_year yr' + doy' ->
  dateVEX2split (F:=F) (mkvex yr' doy' hh mm ss)
  = (d <- dateVEX2split (F:=F) (mkvex yr doy hh mm ss) ;;
     Return (mksplit (mkvex yr' doy' hh mm ss) yr' doy' hh mm ss
               (d_mon d) (d_mday d) (d_mjd d))).
Proof.
  intros Hy Hy' Hord. unfold dateVEX2split.
  cbn [v_yr v_doy v_hh v_mm v_ss].
  rewrite (date_jan1 yr Hy), (date_jan1 yr' Hy'). cbn [bind].
  rewrite !toordinal_jan1, <- Hord.
  destruct (Datetime.fromordinal _) as [[[y m] d]| |]; cbn [bind];
    try reflexivity.
  destruct (date_to_jd y m d); reflexivity.
Qed.

(** X5: a day-of-year that runs past the end of its year, as [dateVEXaddsec]
    leaves it, has the MJD of the day it reaches in the next year; the
    day-of-year is one of three digits, as the format holds it. *)
Theorem mjd_rolls_over_the_year {F : Type} {PF : PyFloat F}
    (yr k hh mm ss : Z) :
  1 <= yr <= 9998 ->
  0 <= k -> days_in_year yr + k <= 999 ->
  mjd_of (F:=F) (mkvex yr (days_in_year yr + k) hh mm ss)
  = mjd_of (F:=F) (mkvex (yr + 1) k hh mm ss).
Proof.
  intros Hy _ _. unfold mjd_of.
  rewrite (dateVEX2split_ordinal yr (days_in_year yr + k) (yr + 1) k)
    by (try rewrite days_before_next_year; lia).
  destruct (dateVEX2split _); reflexivity.
Qed.

Lemma days_before_year_le (a b : Z) :
  a <= b -> Datetime.days_before_year a <= Datetime.days_before_year b.
Proof.
  intros H. unfold Datetime.days_before_year.
  Z.div_mod_to_equations. lia.
Qed.

(** Every ordinal of [datetime]'s range lies in one of its years. *)
Lemma year_of_ordinal (k : nat) (N : Z) :
  1 <= N <= Datetime.days_before_year (1 + Z.of_nat k) ->
  exists y, 1 <= y <= Z.of_nat k
            /\ Datetime.days_before_year y < N
               <= Datetime.days_before_year (y + 1).
Proof.
  induction k as [|k IH]; intros HN.
  - change (Datetime.days_before_year (1 + Z.of_nat 0)) with 0 in HN. lia.
  - destruct (Z_le_gt_dec N (Datetime.days_before_year (1 + Z.of_nat k)))
      as [Hle|Hgt].
    + destruct (IH (conj (proj1 HN) Hle)) as (y & Hy & Hb).
      exists y. split; [lia|exact Hb].
    + exists (1 + Z.of_nat k).
      replace (1 + Z.of_nat k + 1) with (1 + Z.of_nat (S k)) by lia.
      split; [lia|]. split; [lia|apply HN].
Qed.

(** The MJD from 1582-10-15 on: days since 1858-11-17 (ordinal 678576) and
    the fraction of the day. *)
Lemma mjd_gregorian (v : vexdate) :
  gregorian_day v ->
  exists d,
    dateVEX2split (F:=Q) v = Return d
    /\ (d_mjd d
        == inject_Z (ordinal v - 678576)
           + inject_Z (3600 * v_hh v + 60 * v_mm v + v_ss v) / 86400)%Q.
Proof.
  intros [Hy HN]. destruct v as [yr doy hh mm ss].
  unfold ordinal in *. cbn [v_yr v_doy v_hh v_mm v_ss] in *.
  destruct (year_of_ordinal (Z.to_nat 9999)
              (Datetime.days_before_year yr + doy))
    as (y & Hy' & Hlo & Hhi).
  { replace (1 + Z.of_nat (Z.to_nat 9999)) with 10000 by lia.
    change (Datetime.days_before_year 10000) with 3652059. lia. }
  assert (Hy9 : 1 <= y <= 9999) by lia.
  set (doy' := Datetime.days_before_year yr + doy
               - Datetime.days_before_year y).
  assert (Hdoy : 1 <= doy' <= days_in_year y).
  { rewrite days_before_next_year in Hhi. unfold doy'. lia. }
  destruct (split_day_number (mkvex y doy' hh mm ss) Hy9 Hdoy)
    as (d & Hd & Hmjd).
  cbn [v_yr v_doy v_hh v_mm v_ss] in Hmjd.
  rewrite (dateVEX2split_ordinal y doy' yr doy) by (unfold doy'; lia).
  rewrite Hd. cbn [bind]. eexists. split; [reflexivity|].
  cbn [d_mjd]. rewrite Hmjd, mjd_seconds.
  assert (Hday : day_number y doy'
                 = Datetime.days_before_year yr + doy + 430).
  { unfold day_number.
    assert (Hgreg : (y <? 1582) || ((y =? 1582) && (doy' <? 288)) = false).
    { apply orb_false_iff. split.
      - apply Z.ltb_ge.
        destruct (Z_lt_ge_dec y 1582) as [Hlt|]; [exfalso|lia].
        pose proof (days_before_year_le (y + 1) 1582 ltac:(lia)) as Hm.
        change (Datetime.days_before_year 1582) with 577448 in Hm. lia.
      - destruct (Z.eqb_spec y 1582) as [->|]; [|reflexivity].
        cbn [andb]. apply Z.ltb_ge. unfold doy'.
        change (Datetime.days_before_year 1582) with 577448. lia. }
    rewrite Hgreg. unfold doy'. lia. }
  rewrite Hday.
  set (N := Datetime.days_before_year yr + doy).
  unfold Z.sub.
  rewrite !inject_Z_plus, !inject_Z_mult, !inject_Z_plus, !inject_Z_opp.
  change (inject_Z 86400) with 86400%Q. change (inject_Z 3600) with 3600%Q.
  change (inject_Z 60) with 60%Q. change (inject_Z 430) with 430%Q.
  change (inject_Z 678576) with 678576%Q.
  field.
Qed.

(** The same when the day-of-year runs past the end of its year. *)
Lemma mjd_binary64 (v : vexdate) :
  1 <= v_yr v <= 9999 -> 1 <= ordinal v <= 3652059 ->
  -9 <= v_hh v <= 99 -> -9 <= v_mm v <= 99 -> -9 <= v_ss v <= 99 ->
  exists (d : split_date float) (dq : split_date Q) (X : Q),
    dateVEX2split (F:=float) v = Return d
    /\ dateVEX2split (F:=Q) v = Return dq
    /\ dbl (d_mjd d) X /\ sized (-201) X
    /\ (d_mjd dq - mjd_tolerance <= X)%Q /\ (X <= d_mjd dq + mjd_tolerance)%Q.
Proof.
  intros Hy HN Hh Hm Hs. destruct v as [yr doy hh mm ss].
  unfold ordinal in *. cbn [v_yr v_doy v_hh v_mm v_ss] in *.
  destruct (year_of_ordinal (Z.to_nat 9999)
              (Datetime.days_before_year yr + doy))
    as (y & Hy' & Hlo & Hhi).
  { replace (1 + Z.of_nat (Z.to_nat 9999)) with 10000 by lia.
    change (Datetime.days_before_year 10000) with 3652059. lia. }
  assert (Hy9 : 1 <= y <= 9999) by lia.
  set (doy' := Datetime.days_before_year yr + doy
               - Datetime.days_before_year y).
  assert (Hdoy : 1 <= doy' <= days_in_year y).
  { rewrite days_before_next_year in Hhi. unfold doy'. lia. }
  destruct (split_binary64 (mkvex y doy' hh mm ss) Hy9 Hdoy Hh Hm Hs)
    as (d & dq & X & Ed & Eq & DX & SX & LX & UX).
  rewrite (dateVEX2split_ordinal (F:=float) y doy' yr doy)
    by (unfold doy'; lia).
  rewrite (dateVEX2split_ordinal (F:=Q) y doy' yr doy)
    by (unfold doy'; lia).
  rewrite Ed, Eq. cbn [bind].
  eexists. eexists. exists X. split; [reflexivity|]. split; [reflexivity|].
  cbn [d_mjd]. split; [exact DX|]. split; [exact SX|]. split; assumption.
Qed.

(** X14: from 1582-10-15 on, the MJD that [dateVEX2split] computes at
    binary64 is, within [mjd_tolerance], the number of days from 1858-11-17
    to the day of the timestamp plus its time of day as a fraction of
    86400 s; the day-of-year may run past the end of the year, and hour,
    minute and second are any that fit their columns. *)
Theorem mjd_counts_days_from_1858 (v : vexdate) :
  gregorian_day v -> in_columns v ->
  exists d q,
    dateVEX2split (F:=float) v = Return d
    /\ value (d_mjd d) = Finite q
    /\ (inject_Z (ordinal v - 678576)
        + inject_Z (3600 * v_hh v + 60 * v_mm v + v_ss v) / 86400
        - mjd_tolerance <= q)%Q
    /\ (q <= inject_Z (ordinal v - 678576)
             + inject_Z (3600 * v_hh v + 60 * v_mm v + v_ss v) / 86400
             + mjd_tolerance)%Q.
Proof.
  intros Hv (_ & _ & Hh & Hm & Hs).
  pose proof Hv as [Hy HN].
  destruct (mjd_binary64 v Hy ltac:(lia) Hh Hm Hs)
    as (d & dq & X & Ed & Eq & DX & _ & LX & UX).
  destruct (mjd_gregorian v Hv) as (dq' & Eq' & Hm').
  rewrite Eq in Eq'. injection Eq' as <-.
  destruct (dbl_value _ _ DX) as (q & Hq & EqX).
  exists d, q. split; [exact Ed|]. split; [exact Hq|].
  rewrite <- Hm', EqX. split; assumption.
Qed.

(** ** Adding seconds to a timestamp *)

Lemma seconds_of_year_fields (yr s : Z) :
  seconds_of_year
    (mkvex yr (s ÷ 86400) (Z.rem s 86400 ÷ 3600)
       (Z.rem (Z.rem s 86400) 3600 ÷ 60)
       (Z.rem (Z.rem (Z.rem s 86400) 3600) 60))
  = s.
Proof.
  unfold seconds_of_year. cbn [v_doy v_hh v_mm v_ss].
  pose proof (Z.quot_rem' s 86400).
  pose proof (Z.quot_rem' (Z.rem s 86400) 3600).
  pose proof (Z.quot_rem' (Z.rem (Z.rem s 86400) 3600) 60).
  lia.
Qed.

Lemma fields_of_seconds (s : Z) :
  0 <= s < 86400000 ->
  0 <= s ÷ 86400 <= 999 /\ 0 <= Z.rem s 86400 ÷ 3600 <= 23
  /\ 0 <= Z.rem (Z.rem s 86400) 3600 ÷ 60 <= 59
  /\ 0 <= Z.rem (Z.rem (Z.rem s 86400) 3600) 60 <= 59.
Proof.
  intros Hs.
  rewrite (Z.rem_mod_nonneg s 86400) by lia.
  rewrite (Z.quot_div_nonneg s 86400) by lia.
  pose proof (Z.mod_pos_bound s 86400 ltac:(lia)) as H1.
  set (r1 := s mod 86400) in *.
  rewrite (Z.rem_mod_nonneg r1 3600) by lia.
  rewrite (Z.quot_div_nonneg r1 3600) by lia.
  pose proof (Z.mod_pos_bound r1 3600 ltac:(lia)) as H2.
  set (r2 := r1 mod 3600) in *.
  rewrite (Z.rem_mod_nonneg r2 60) by lia.
  rewrite (Z.quot_div_nonneg r2 60) by lia.
  pose proof (Z.mod_pos_bound r2 60 ltac:(lia)) as H3.
  split_conj; try lia.
  - apply Z.div_pos; lia.
  - assert (s / 86400 < 1000) by (apply Z.div_lt_upper_bound; lia). lia.
  - apply Z.div_pos; lia.
  - assert (r1 / 3600 < 24) by (apply Z.div_lt_upper_bound; lia). lia.
  - apply Z.div_pos; lia.
  - assert (r2 / 60 < 60) by (apply Z.div_lt_upper_bound; lia). lia.
Qed.

Lemma seconds_of_year_columns (v : vexdate) :
  in_columns v -> -8600000 < seconds_of_year v < 86800000.
Proof.
  intros (_ & Hd & Hh & Hm & Hs). unfold seconds_of_year. lia.
Qed.

Lemma dateVEXaddsec_binary64 (v : vexdate) (sec : Z) :
  in_columns v -> - 2 ^ 53 < sec < 2 ^ 53 ->
  - 2 ^ 53 < seconds_of_year v + sec < 2 ^ 53 ->
  let s := seconds_of_year v + sec in
  dateVEXaddsec (F:=float) v sec
  = Return (mkvex (v_yr v)
              (s ÷ 86400)
              (Z.rem s 86400 ÷ 3600)
              (Z.rem (Z.rem s 86400) 3600 ÷ 60)
              (Z.rem (Z.rem (Z.rem s 86400) 3600) 60)).
Proof.
  intros Hv Hsec H53 s. unfold dateVEXaddsec. cbv zeta.
  destruct Hv as (_ & Hd & Hh & Hm & Hs).
  apply dateSec2VEX_binary64; [|exact H53].
  apply dbl_add_int; [now apply dateVEX2sec_binary64| |exact H53].
  now apply dbl_of_int.
Qed.

(** X6: at binary64 [dateVEXaddsec], on a timestamp that fits the columns
    of the format and a number of seconds that leads to a time from day 0
    to below day 1000, returns a timestamp of the same year whose
    seconds-of-year are those of the first plus the seconds added; hour,
    minute and second are in range and the day-of-year has at most three
    digits (it is not wrapped at the end of the year). *)
Theorem dateVEXaddsec_adds_seconds (v : vexdate) (sec : Z) :
  in_columns v ->
  0 <= seconds_of_year v + sec < 86400000 ->
  exists v',
    dateVEXaddsec (F:=float) v sec = Return v'
    /\ v_yr v' = v_yr v
    /\ seconds_of_year v' = seconds_of_year v + sec
    /\ 0 <= v_doy v' <= 999 /\ 0 <= v_hh v' <= 23 /\ 0 <= v_mm v' <= 59
    /\ 0 <= v_ss v' <= 59.
Proof.
  intros Hv Hs.
  pose proof (seconds_of_year_columns v Hv) as Hb.
  eexists. split.
  - apply dateVEXaddsec_binary64;
      [exact Hv| |]; change (2 ^ 53) with 9007199254740992; lia.
  - split; [reflexivity|]. split; [apply seconds_of_year_fields|].
    cbn [v_doy v_hh v_mm v_ss]. now apply fields_of_seconds.
Qed.

(** X7: at binary64, adding seconds in two steps is adding their sum, when
    the first timestamp fits the columns of the format, the timestamp in
    between is one the format holds (seconds-of-year from 0 to below 1000
    days), and the second number of seconds is below 2^52 in absolute
    value. *)
Theorem dateVEXaddsec_compose (v : vexdate) (a b : Z) :
  in_columns v ->
  0 <= seconds_of_year v + a < 86400000 ->
  - 2 ^ 52 < b < 2 ^ 52 ->
  (v1 <- dateVEXaddsec (F:=float) v a ;; dateVEXaddsec (F:=float) v1 b)
  = dateVEXaddsec (F:=float) v (a + b).
Proof.
  intros Hv Ha Hb.
  pose proof (seconds_of_year_columns v Hv) as Hs.
  assert (Hyr : -999 <= v_yr v <= 9999) by apply Hv.
  change (2 ^ 52) with 4503599627370496 in Hb.
  rewrite (dateVEXaddsec_binary64 v a Hv)
    by (change (2 ^ 53) with 9007199254740992; lia).
  cbn [bind].
  pose proof (fields_of_seconds _ Ha) as (F1 & F2 & F3 & F4).
  rewrite dateVEXaddsec_binary64;
    [|unfold in_columns; cbn [v_yr v_doy v_hh v_mm v_ss]; lia
     |change (2 ^ 53) with 9007199254740992; lia
     |rewrite seconds_of_year_fields;
      change (2 ^ 53) with 9007199254740992; lia].
  rewrite (dateVEXaddsec_binary64 v (a + b) Hv)
    by (change (2 ^ 53) with 9007199254740992; lia).
  cbv zeta. rewrite seconds_of_year_fields. cbn [v_yr].
  now rewrite Z.add_assoc.
Qed.

(** X8: from 1582-10-15 on, at binary64, the MJD of the timestamp that
    [dateVEXaddsec] returns is the MJD of the timestamp it was given plus
    the seconds added, as a fraction of a day of 86400 s, within twice
    [mjd_tolerance]; also when the day-of-year has run past the end of the
    year, as long as the format holds it. *)
Theorem dateVEXaddsec_advances_mjd (v v' : vexdate) (sec : Z) :
  gregorian_day v -> in_columns v ->
  0 <= seconds_of_year v + sec < 86400000 ->
  dateVEXaddsec (F:=float) v sec = Return v' ->
  gregorian_day v' ->
  exists d d' q q',
    dateVEX2split (F:=float) v = Return d
    /\ dateVEX2split (F:=float) v' = Return d'
    /\ value (d_mjd d) = Finite q
    /\ value (d_mjd d') = Finite q'
    /\ (q + inject_Z sec / 86400 - 2 * mjd_tolerance <= q')%Q
    /\ (q' <= q + inject_Z sec / 86400 + 2 * mjd_tolerance)%Q.
Proof.
  intros Hv Hc Hs Hadd Hv'.
  pose proof (seconds_of_year_columns v Hc) as Hb.
  pose proof (dateVEXaddsec_binary64 v sec Hc) as Hw. cbv zeta in Hw.
  rewrite Hadd in Hw.
  specialize (Hw ltac:(change (2 ^ 53) with 9007199254740992; lia)
                 ltac:(change (2 ^ 53) with 9007199254740992; lia)).
  injection Hw as ->.
  pose proof (seconds_of_year_fields (v_yr v) (seconds_of_year v + sec))
    as Hsec.
  pose proof (fields_of_seconds _ Hs) as (F1 & F2 & F3 & F4).
  set (v' := mkvex (v_yr v) _ _ _ _) in *.
  assert (Hyr : v_yr v' = v_yr v) by reflexivity.
  destruct Hc as (_ & _ & Hh & Hm & Hss).
  pose proof Hv as [Hy HN]. pose proof Hv' as [Hy' HN'].
  destruct (mjd_binary64 v Hy ltac:(lia) Hh Hm Hss)
    as (d & dq & X & Ed & Eq & DX & _ & LX & UX).
  destruct (mjd_binary64 v' Hy' ltac:(lia))
    as (d' & dq' & X' & Ed' & Eq' & DX' & _ & LX' & UX');
    [unfold v'; cbn [v_hh]; lia|unfold v'; cbn [v_mm]; lia
    |unfold v'; cbn [v_ss]; lia|].
  destruct (mjd_gregorian v Hv) as (e & He & Hme).
  rewrite Eq in He. injection He as <-.
  destruct (mjd_gregorian v' Hv') as (e' & He' & Hme').
  rewrite Eq' in He'. injection He' as <-.
  destruct (dbl_value _ _ DX) as (q & Hq & EqX).
  destruct (dbl_value _ _ DX') as (q' & Hq' & EqX').
  exists d, d', q, q'.
  split; [exact Ed|]. split; [exact Ed'|].
  split; [exact Hq|]. split; [exact Hq'|].
  assert (E : (d_mjd dq' == d_mjd dq + inject_Z sec / 86400)%Q).
  { rewrite Hme, Hme'. unfold ordinal. rewrite Hyr.
    assert (E : 3600 * v_hh v' + 60 * v_mm v' + v_ss v'
                = 86400 * v_doy v - 86400 * v_doy v'
                  + (3600 * v_hh v + 60 * v_mm v + v_ss v) + sec)
      by (unfold seconds_of_year in Hsec; lia).
    rewrite E. unfold Z.sub.
    rewrite !inject_Z_plus, !inject_Z_opp, !inject_Z_mult.
    change (inject_Z 86400) with 86400%Q. change (inject_Z 3600) with 3600%Q.
    change (inject_Z 60) with 60%Q. change (inject_Z 678576) with 678576%Q.
    field. }
  rewrite EqX, EqX'. rewrite E in LX', UX'. split; lra.
Qed.

(** ** The block range of a gap *)

Lemma SF2value_sval (s : bool) (m : positive) (e : Z) (q : Q) :
  Binary64.SF2value (S754_finite s m e) = Finite q -> (q == sval s m e)%Q.
Proof.
  cbn [Binary64.SF2value]. intros E. injection E as <-. unfold sval.
  assert (En : (if s then Zneg m else Zpos m) = cond_Zopp s (Zpos m))
    by (destruct s; reflexivity).
  rewrite En. set (n := cond_Zopp s (Zpos m)).
  destruct (Z.leb_spec 0 e) as [Hpos|Hneg].
  - rewrite inject_Z_mult, pow2_inject by lia. reflexivity.
  - assert (Hp : 0 < 2 ^ (- e)) by (apply Z.pow_pos_nonneg; lia).
    rewrite Qmake_Qdiv, Z2Pos.id by exact Hp.
    rewrite pow2_inject by lia.
    assert (E2 : (2 ^ e == / 2 ^ (- e))%Q)
      by (rewrite <- Qpower_opp; now rewrite Z.opp_involutive).
    rewrite E2. reflexivity.
Qed.

(** A double whose value is zero or not below [2 ^ -1000] is a zero or a
    normal number. *)
Lemma value_dbl (x : float) (q : Q) :
  value (F:=float) x = Finite q -> sized (-1000) q -> dbl x q.
Proof.
  cbn [value binary64]. unfold dbl. pose proof (Prim2SF_valid x) as V.
  destruct (Prim2SF x) as [s|s| |s m e]; try discriminate.
  - intros E _. cbn [Binary64.SF2value] in E. injection E as <-.
    cbn [stands_for]. reflexivity.
  - intros E S. pose proof (SF2value_sval s m e q E) as Hq. clear E.
    cbn [valid_binary] in V. unfold bounded, canonical_mantissa in V.
    apply andb_true_iff in V. destruct V as [V1 V2].
    apply Z.eqb_eq in V1. apply Z.leb_le in V2.
    unfold fexp, emin, emax, prec in V1, V2.
    cbn [stands_for].
    destruct (Z_lt_le_dec (Zpos (digits2_pos m)) 53) as [Hsub|Hnorm].
    + exfalso.
      assert (He : e = -1074) by lia.
      pose proof (digits2_pos_bounds m) as [_ Hi].
      assert (Hm : Zpos m < 2 ^ 52).
      { apply (Z.lt_le_trans _ _ _ Hi). apply Z.pow_le_mono_r; lia. }
      assert (Hmq : (inject_Z (Zpos m) < 4503599627370496)%Q).
      { change 4503599627370496%Q with (inject_Z (2 ^ 52)).
        now rewrite <- Zlt_Qlt. }
      pose proof (pow2_pos e) as Pe. pose proof (sval_sign s m e) as Pv.
      assert (A : (inject_Z (Zpos m) * 2 ^ e < 4503599627370496 * 2 ^ e)%Q)
        by (apply Qmult_lt_compat_r; assumption).
      assert (B : (4503599627370496 * 2 ^ e == 2 ^ (-1022))%Q).
      { subst e. change 4503599627370496%Q with (2 ^ 52)%Q.
        rewrite <- pow2_add. reflexivity. }
      pose proof (pow2_le (-1022) (-1000) ltac:(lia)) as C.
      rewrite sval_signed in Hq.
      destruct s; cbn [signed] in Hq; destruct S as [S|[S|S]]; lra.
    + split; [lia|]. split; [lia|exact Hq].
Qed.

Lemma sub_step (x y : float) (X Y B : Q) (j : Z) :
  dbl x X -> dbl y Y -> sized j X -> sized j Y -> -900 <= j ->
  (- B <= X - Y)%Q -> (X - Y <= B)%Q -> (B <= huge)%Q ->
  exists v,
    dbl (x - y)%F v /\ sized (j - 53) v
    /\ (X - Y - B * eps <= v)%Q /\ (v <= X - Y + B * eps)%Q.
Proof.
  intros Hx Hy Sx Sy Hj L U HB.
  assert (HS : sized (j - 52) (X - Y)).
  { destruct (stands_for_grid _ X j Hx Sx) as (kx & Ex).
    destruct (stands_for_grid _ Y j Hy Sy) as (ky & Ey).
    apply (sized_comp _ (X + - Y)); [ring|].
    apply (grid_sum_sized X (- Y) kx (- ky) (j - 52) Ex).
    rewrite inject_Z_opp, Ey. ring. }
  destruct (dbl_sub x y X Y Hx Hy) as (v & Hv & HR).
  { apply (sized_ok_range (j - 52)); [lia|exact HS|lra|lra]. }
  exists v. split; [exact Hv|]. split.
  - replace (j - 53) with (j - 52 - 1) by lia.
    exact (rounded_sized _ _ _ HR HS).
  - exact (rounded_within _ _ B HR L U).
Qed.

(** A quotient by the block length. *)
Lemma quot_step (x y : float) (X Y : Q) (j : Z) :
  dbl x X -> dbl y Y -> sized j X -> -900 <= j ->
  (block_min <= Y)%Q -> (Y <= 1024)%Q ->
  (- 8388609 <= X)%Q -> (X <= 8388609)%Q ->
  exists v, dbl (x / y)%F v /\ rounded (X / Y) v.
Proof.
  intros Hx Hy Sx Hj Y1 Y2 X1 X2. unfold block_min in Y1.
  assert (Ypos : (0 < Y)%Q) by lra.
  apply (dbl_div x y X Y Hx Hy); [lra|].
  pose proof (pow2_pos j) as P.
  assert (E : (2 ^ (j - 10) == 2 ^ j / 1024)%Q)
    by (rewrite pow2_sub; change (2 ^ 10)%Q with 1024%Q; reflexivity).
  assert (K : (2 ^ j / 1024 * Y <= 2 ^ j)%Q).
  { assert (2 ^ j / 1024 * Y <= 2 ^ j / 1024 * 1024)%Q
      by (apply Qmult_le_l; [apply Qlt_shift_div_l; lra|lra]).
    assert (2 ^ j / 1024 * 1024 == 2 ^ j)%Q by field.
    lra. }
  assert (Hh : (8388609 <= huge * Y)%Q).
  { assert (huge * block_min <= huge * Y)%Q
      by (apply Qmult_le_l; [reflexivity|unfold block_min; lra]).
    assert (huge * block_min == 1152921504606846976)%Q by reflexivity.
    lra. }
  apply (sized_ok_range (j - 10)); [lia| | |].
  - unfold sized. rewrite E. destruct Sx as [H|[H|H]].
    + left. rewrite H. field. lra.
    + right; left. apply Qle_shift_div_l; lra.
    + right; right.
      assert (E2 : (- (X / Y) == (- X) / Y)%Q) by (field; lra).
      rewrite E2. apply Qle_shift_div_l; lra.
  - apply Qle_shift_div_l; [lra|].
    assert (E2 : (- huge * Y == - (huge * Y))%Q) by ring. lra.
  - apply Qle_shift_div_r; lra.
Qed.

(** What a rounded quotient is, times the divisor. *)
Lemma div_back (X Y v B : Q) :
  (0 < Y)%Q -> rounded (X / Y) v -> (- B <= X)%Q -> (X <= B)%Q ->
  (X - B * eps <= v * Y)%Q /\ (v * Y <= X + B * eps)%Q.
Proof.
  intros HY HR L U.
  assert (L' : (- (B / Y) <= X / Y)%Q).
  { assert (E : (- (B / Y) == (- B) / Y)%Q) by (field; lra).
    rewrite E. apply Qle_shift_div_l; [exact HY|].
    assert (E2 : (- B / Y * Y == - B)%Q) by (field; lra). lra. }
  assert (U' : (X / Y <= B / Y)%Q).
  { apply Qle_shift_div_l; [exact HY|].
    assert (E2 : (X / Y * Y == X)%Q) by (field; lra). lra. }
  destruct (rounded_within _ _ (B / Y) HR L' U') as [V1 V2].
  assert (M1 : ((X / Y - B / Y * eps) * Y <= v * Y)%Q)
    by (apply Qmult_le_compat_r; lra).
  assert (M2 : (v * Y <= (X / Y + B / Y * eps) * Y)%Q)
    by (apply Qmult_le_compat_r; lra).
  assert (E1 : ((X / Y - B / Y * eps) * Y == X - B * eps)%Q) by (field; lra).
  assert (E2 : ((X / Y + B / Y * eps) * Y == X + B * eps)%Q) by (field; lra).
  lra.
Qed.

Lemma is_zero_positive (x : float) (X : Q) :
  dbl x X -> (0 < X)%Q -> is_zero (F:=float) x = false.
Proof.
  unfold dbl. cbn [is_zero binary64]. unfold Binary64.is_zero.
  destruct (Prim2SF x) as [s|s| |s m e]; cbn [stands_for]; try contradiction.
  - intros H P. lra.
  - reflexivity.
Qed.

(** [(mjd - fb_Tstart) / fb_Tint] at binary64: times the block length, it
    is the difference of the two within [2 ^ -28] day. *)
Lemma block_offset_binary64 (G : globals float) (m t0 : float)
    (M T0 Bq : Q) :
  fb_Tstart G = PyNumber t0 ->
  dbl t0 T0 -> dbl (fb_Tint G) Bq -> dbl m M -> sized (-201) M ->
  (1 <= T0)%Q -> (T0 <= 4194304)%Q ->
  (block_min <= Bq)%Q -> (Bq <= 1024)%Q ->
  (- 4194304 <= M)%Q -> (M <= 4194304)%Q ->
  exists x X,
    block_offset G m = Return x /\ dbl x X
    /\ (M - T0 - 2 * mjd_tolerance <= X * Bq)%Q
    /\ (X * Bq <= M - T0 + 2 * mjd_tolerance)%Q.
Proof.
  intros Hstart Ht0 HB Hm Sm T1 T2 B1 B2 M1 M2.
  assert (Bpos : (0 < Bq)%Q) by (unfold block_min in B1; lra).
  unfold block_offset, pydiv. rewrite Hstart.
  rewrite (is_zero_positive _ _ HB Bpos).
  assert (St : sized (-201) T0).
  { right; left.
    pose proof (pow2_le (-201) 0 ltac:(lia)) as P.
    change (2 ^ 0)%Q with 1%Q in P. lra. }
  destruct (sub_step m t0 M T0 8388608 (-201) Hm Ht0 Sm St ltac:(lia))
    as (y & Dy & Sy & Ly & Uy); [lra|lra|unfold huge; lra|].
  unfold eps in Ly, Uy.
  destruct (quot_step _ (fb_Tint G) y Bq (-254) Dy HB Sy ltac:(lia) B1 B2)
    as (X & DX & RX); [lra|lra|].
  destruct (div_back y Bq X 8388609 Bpos RX) as [V1 V2]; [lra|lra|].
  eexists. exists X. split; [reflexivity|]. split; [exact DX|].
  unfold eps in V1, V2. unfold mjd_tolerance. split; lra.
Qed.

Lemma exact_mjd_bounds (v : vexdate) :
  gregorian_day v -> in_columns v ->
  (- 100841 <= exact_mjd v)%Q /\ (exact_mjd v <= 2973488)%Q.
Proof.
  intros [_ HN] (_ & _ & Hh & Hm & Hs). unfold exact_mjd.
  destruct (inject_Z_bounds (ordinal v - 678576) (-100840) 2973483
              ltac:(lia)) as [N1 N2].
  destruct (inject_Z_bounds (3600 * v_hh v + 60 * v_mm v + v_ss v)
              (-86400) 432000 ltac:(lia)) as [S1 S2].
  change (inject_Z (-100840)) with (-100840)%Q in N1.
  change (inject_Z 2973483) with 2973483%Q in N2.
  change (inject_Z (-86400)) with (-86400)%Q in S1.
  change (inject_Z 432000) with 432000%Q in S2.
  set (t := inject_Z (3600 * v_hh v + 60 * v_mm v + v_ss v)) in *.
  change (t / 86400)%Q with (t * (1 # 86400))%Q.
  split; lra.
Qed.

(** The MJD of a timestamp at binary64, with all that the block mapper
    needs of it. *)
Lemma mjd_for_blocks (v : vexdate) :
  gregorian_day v -> in_columns v ->
  exists (d : split_date float) (M : Q),
    dateVEX2split (F:=float) v = Return d
    /\ dbl (d_mjd d) M /\ sized (-201) M
    /\ (exact_mjd v - mjd_tolerance <= M)%Q
    /\ (M <= exact_mjd v + mjd_tolerance)%Q
    /\ (- 4194304 <= M)%Q /\ (M <= 4194304)%Q.
Proof.
  intros Hv Hc. pose proof (exact_mjd_bounds v Hv Hc) as [E1 E2].
  pose proof Hv as [Hy HN]. destruct Hc as (_ & _ & Hh & Hm & Hs).
  destruct (mjd_binary64 v Hy ltac:(lia) Hh Hm Hs)
    as (d & dq & M & Ed & Eq & DM & SM & LM & UM).
  destruct (mjd_gregorian v Hv) as (dq' & Eq' & Hm').
  rewrite Eq in Eq'. injection Eq' as <-.
  fold (exact_mjd v) in Hm'. rewrite Hm' in LM, UM.
  exists d, M. split; [exact Ed|]. split; [exact DM|]. split; [exact SM|].
  unfold mjd_tolerance in *. split_conj; lra.
Qed.

(** X9: at binary64, with a start reference [T0] from MJD 1 to 4194304 and
    a block length [B] from [2 ^ -40] day to 1024 days, the range
    [start:stop] that [doFlag] computes for a gap between two timestamps
    from 1582-10-15 on is, within [2 ^ -27] day, the tightest range of whole
    blocks around the gap: [T0 + stop * B] is not before the end of the gap
    and, if [stop > 0], [T0 + (stop - 1) * B] is before it;
    [T0 + (start + 1) * B] is after the start of the gap and, if
    [start > 0], [T0 + start * B] is not after it. *)
Theorem doFlag_tightest_block_range (G : globals float) (a b : vexdate)
    (fb_tstart : pyvalue float) (fb_tint : float)
    (zapints_list : list zapint) (t0 : float) (T0 B : Q) :
  fb_Tstart G = PyNumber t0 ->
  value t0 = Finite T0 -> (1 <= T0)%Q -> (T0 <= 4194304)%Q ->
  value (fb_Tint G) = Finite B -> (block_min <= B)%Q -> (B <= 1024)%Q ->
  gregorian_day a -> in_columns a -> gregorian_day b -> in_columns b ->
  exists start stop,
    doFlag G a b fb_tstart fb_tint zapints_list
    = Return (if start =? stop then zapints_list
              else zapints_list ++ [(start, stop)])
    /\ 0 <= start /\ 0 <= stop
    /\ (exact_mjd b - 4 * mjd_tolerance <= T0 + inject_Z stop * B)%Q
    /\ (0 < stop ->
        (T0 + inject_Z (stop - 1) * B < exact_mjd b + 4 * mjd_tolerance)%Q)
    /\ (exact_mjd a - 4 * mjd_tolerance < T0 + inject_Z (start + 1) * B)%Q
    /\ (0 < start ->
        (T0 + inject_Z start * B <= exact_mjd a + 4 * mjd_tolerance)%Q).
Proof.
  intros Hstart Ht0 T1 T2 HB B1 B2 Ha Ca Hb Cb.
  assert (Bpos : (0 < B)%Q) by (unfold block_min in B1; lra).
  assert (Dt0 : dbl t0 T0).
  { apply value_dbl; [exact Ht0|]. right; left.
    pose proof (pow2_le (-1000) 0 ltac:(lia)) as P.
    change (2 ^ 0)%Q with 1%Q in P. lra. }
  assert (DB : dbl (fb_Tint G) B).
  { apply value_dbl; [exact HB|]. right; left.
    pose proof (pow2_le (-1000) (-40) ltac:(lia)) as P.
    assert (E : (block_min == 2 ^ (-40))%Q) by reflexivity.
    rewrite <- E in P. lra. }
  destruct (mjd_for_blocks a Ha Ca)
    as (da & Ma & Ea & Da & Sa & La & Ua & La' & Ua').
  destruct (mjd_for_blocks b Hb Cb)
    as (db & Mb & Eb & Db & Sb & Lb & Ub & Lb' & Ub').
  destruct (block_offset_binary64 G (d_mjd da) t0 Ma T0 B Hstart Dt0 DB Da Sa
              T1 T2 B1 B2 La' Ua')
    as (x1 & X1 & Ex1 & Dx1 & L1 & U1).
  destruct (block_offset_binary64 G (d_mjd db) t0 Mb T0 B Hstart Dt0 DB Db Sb
              T1 T2 B1 B2 Lb' Ub')
    as (x2 & X2 & Ex2 & Dx2 & L2 & U2).
  exists (Z.max 0 (Qfloor X1)), (Z.max 0 (Qceiling X2)).
  split.
  { unfold doFlag. rewrite Ea, Eb. cbn [bind]. rewrite Ex1. cbn [bind].
    rewrite (dbl_floor _ _ Dx1). cbn [bind]. rewrite Ex2. cbn [bind].
    rewrite (dbl_ceil _ _ Dx2). cbn [bind].
    destruct (Z.max 0 (Qfloor X1) =? Z.max 0 (Qceiling X2)); reflexivity. }
  split; [lia|]. split; [lia|].
  unfold mjd_tolerance in *.
  pose proof (Qfloor_le X1) as F1. pose proof (Qlt_floor X1) as F2.
  pose proof (Qle_ceiling X2) as C1. pose proof (Qceiling_lt X2) as C2.
  split_conj.
  - assert (K : (inject_Z (Qceiling X2) <= inject_Z (Z.max 0 (Qceiling X2)))%Q)
      by (rewrite <- Zle_Qle; lia).
    assert (P : (X2 * B <= inject_Z (Z.max 0 (Qceiling X2)) * B)%Q)
      by (apply Qmult_le_compat_r; lra).
    lra.
  - intros Hpos.
    assert (E : Z.max 0 (Qceiling X2) = Qceiling X2) by lia.
    rewrite E.
    assert (P : (inject_Z (Qceiling X2 - 1) * B < X2 * B)%Q)
      by (apply Qmult_lt_compat_r; assumption).
    lra.
  - assert (K : (inject_Z (Qfloor X1 + 1)
                 <= inject_Z (Z.max 0 (Qfloor X1) + 1))%Q)
      by (rewrite <- Zle_Qle; lia).
    assert (P : (X1 * B < inject_Z (Z.max 0 (Qfloor X1) + 1) * B)%Q)
      by (apply Qmult_lt_compat_r; lra).
    lra.
  - intros Hpos.
    assert (E : Z.max 0 (Qfloor X1) = Qfloor X1) by lia.
    rewrite E.
    assert (P : (inject_Z (Qfloor X1) * B <= X1 * B)%Q)
      by (apply Qmult_le_compat_r; lra).
    lra.
Qed.

(** ** The two filters *)

(** X10: on a schedule dictionary the station filter and the source filter
    never fail a lookup, and in either order they leave, in file order, the
    scans that include the station and are on the source. *)
Theorem filters_compose (telescope source : string) (d : sched) :
  NoDup (dict_keys d) ->
  let both :=
    filter (fun kv => includes_station telescope (snd kv)
                      && on_source source (snd kv)) d in
  (d1 <- keep_station telescope (dict_keys d) d ;;
   keep_source source (dict_keys d1) d1) = Return both
  /\ (d2 <- keep_source source (dict_keys d) d ;;
      keep_station telescope (dict_keys d2) d2) = Return both.
Proof.
  intros ND both. split.
  - rewrite (keep_station_filter telescope d ND). cbn [bind].
    rewrite keep_source_filter by now apply dict_keys_filter_NoDup.
    f_equal. unfold source_filtered, station_filtered, both.
    apply filter_twice. intros kv _. reflexivity.
  - rewrite (keep_source_filter source d ND). cbn [bind].
    rewrite keep_station_filter by now apply dict_keys_filter_NoDup.
    f_equal. unfold source_filtered, station_filtered, both.
    apply filter_twice. intros kv _. apply andb_comm.
Qed.

(** ** The calendar date of a timestamp *)

Lemma date_returns (y m d : Z) (r : Z * Z * Z) :
  Datetime.date y m d = Return r ->
  r = (y, m, d) /\ 1 <= y <= 9999 /\ 1 <= m <= 12
  /\ 1 <= d <= Datetime.days_in_month y m.
Proof.
  unfold Datetime.date, Datetime.MINYEAR, Datetime.MAXYEAR.
  destruct ((1 <=? y) && (y <=? 9999)) eqn:Hy; cbn [negb]; [|discriminate].
  destruct ((1 <=? m) && (m <=? 12)) eqn:Hm; cbn [negb]; [|discriminate].
  destruct ((1 <=? d) && (d <=? Datetime.days_in_month y m)) eqn:Hd;
    cbn [negb]; [|discriminate].
  intros E. inversion E; subst.
  apply andb_true_iff in Hy, Hm, Hd. rewrite !Z.leb_le in *.
  repeat split; lia.
Qed.

Lemma days_in_month_le_31 (y m : Z) : Datetime.days_in_month y m <= 31.
Proof.
  unfold Datetime.days_in_month, Datetime.DAYS_IN_MONTH.
  destruct ((m =? 2) && Datetime.is_leap y); [lia|].
  destruct m as [|p|p]; try lia.
  do 4 (try destruct p as [p|p|]); lia.
Qed.

Lemma dateVEX2split_year_error {F : Type} {PF : PyFloat F} (v : vexdate) :
  v_yr v < 1 \/ 9999 < v_yr v -> dateVEX2split (F:=F) v = Raise ValueError.
Proof.
  intros Hy.
  assert (E : Datetime.date (v_yr v) 1 1 = Raise ValueError).
  { unfold Datetime.date, Datetime.MINYEAR, Datetime.MAXYEAR.
    assert (E : ((1 <=? v_yr v) && (v_yr v <=? 9999)) = false).
    { apply andb_false_iff. rewrite !Z.leb_gt. lia. }
    rewrite E. reflexivity. }
  unfold dateVEX2split. rewrite E. reflexivity.
Qed.

Lemma fromordinal_returns (n : Z) (r : Z * Z * Z) :
  Datetime.fromordinal n = Return r ->
  let '(y, m, d) := r in 1 <= m <= 12 /\ 1 <= d <= 31.
Proof.
  unfold Datetime.fromordinal.
  destruct (Datetime.ord2ymd n) as [[y' m'] d'].
  intros H. apply date_returns in H. destruct H as (-> & _ & Hm & Hd).
  pose proof (days_in_month_le_31 y' m'). lia.
Qed.

(** X12: [dateVEX2split] raises [ValueError] on a year outside 1..9999,
    whatever the other fields; when it returns, the year is in 1..9999, the
    fields of the timestamp are handed on as they are, and month and day of
    the month are a date of the calendar. *)
Theorem dateVEX2split_domain {F : Type} {PF : PyFloat F} (v : vexdate) :
  (v_yr v < 1 \/ 9999 < v_yr v -> dateVEX2split (F:=F) v = Raise ValueError)
  /\ (forall d, dateVEX2split (F:=F) v = Return d ->
        1 <= v_yr v <= 9999
        /\ d_vex d = v /\ d_yr F d = v_yr v /\ d_doy F d = v_doy v
        /\ d_hh F d = v_hh v /\ d_mm F d = v_mm v /\ d_ss F d = v_ss v
        /\ 1 <= d_mon d <= 12 /\ 1 <= d_mday d <= 31).
Proof.
  split; [apply dateVEX2split_year_error|].
  intros d Hd. unfold dateVEX2split in Hd.
  apply bind_returns_inv in Hd. destruct Hd as (jan1 & Hjan & Hd).
  apply date_returns in Hjan. destruct Hjan as (_ & Hy & _).
  apply bind_returns_inv in Hd. destruct Hd as ([[y m] dd] & Hfrom & Hd).
  apply fromordinal_returns in Hfrom.
  apply bind_returns_inv in Hd. destruct Hd as (jd & _ & Hd).
  inversion Hd; subst d.
  cbn [d_vex d_yr d_doy d_hh d_mm d_ss d_mon d_mday].
  split_conj; try reflexivity; lia.
Qed.

(** ** The command file *)

Local Open Scope string_scope.

Lemma append_assoc (a b c : string) : (a ++ b) ++ c = a ++ b ++ c.
Proof. induction a as [|x a IH]; simpl; [reflexivity|now rewrite IH]. Qed.

Lemma append_empty (a : string) : a ++ "" = a.
Proof. induction a as [|x a IH]; simpl; [reflexivity|now rewrite IH]. Qed.

Lemma write_zapints_joins (rest : list string) :
  forall (done : list string) (out : string),
    write_zapints (done ++ rest)%list
      (seq (List.length done) (List.length rest)) out
    = Return (out ++ String.concat "," rest).
Proof.
  induction rest as [|z rest IH]; intros done out.
  - simpl. now rewrite append_empty.
  - cbn [List.length seq write_zapints]. unfold list_get.
    rewrite nth_error_app2 by lia. rewrite Nat.sub_diag. cbn [nth_error bind].
    replace (done ++ z :: rest)%list with ((done ++ [z]) ++ rest)%list
      by (rewrite <- app_assoc; reflexivity).
    replace (S (List.length done)) with (List.length (done ++ [z])%list)
      by (rewrite length_app; simpl; lia).
    rewrite IH. f_equal.
    rewrite !length_app. cbn [List.length].
    destruct rest as [|z' rest'].
    + cbn [List.length String.concat].
      destruct (Z.ltb_spec (Z.of_nat (List.length done))
                  (Z.of_nat (List.length done + 1 + 0) - 1)); [lia|].
      now rewrite append_empty.
    + cbn [List.length].
      destruct (Z.ltb_spec (Z.of_nat (List.length done))
                  (Z.of_nat (List.length done + 1 + S (List.length rest'))
                   - 1)); [|lia].
      change (String.concat "," (z :: z' :: rest'))
        with (z ++ "," ++ String.concat "," (z' :: rest')).
      now rewrite !append_assoc.
Qed.

(** X13: the command file holds the [rfifind] call with the [-blocks] value
    and the experiment name, then the ranges as [start:stop] in the order
    they were found, separated by commas with none after the last, then the
    [-filterbank] option if one was given; the writer's indexing never
    fails. *)
Theorem command_file_text (blocks : Z) (exper : string)
    (zapints_list : list zapint) (filterbankfile : option string) :
  write_command blocks exper zapints_list filterbankfile
  = Return ("rfifind -blocks " ++ format_d blocks ++ " -o " ++ exper
            ++ " -zapints "
            ++ String.concat "," (map zapint_text zapints_list)
            ++ match filterbankfile with
               | Some f => " -filterbank " ++ f
               | None => ""
               end).
Proof.
  unfold write_command. cbv zeta.
  rewrite (write_zapints_joins (map zapint_text zapints_list) []).
  cbn [bind].
  destruct filterbankfile as [f|]; f_equal.
  - now rewrite !append_assoc.
  - now rewrite append_empty, !append_assoc.
Qed.

(** The text of the ranges of the specification's example. *)
Lemma command_file_example :
  write_command 1 "N15DH01A" [(0, 4); (4, 6)]%list (Some "n15dh01a.fil")
  = Return "rfifind -blocks 1 -o N15DH01A -zapints 0:4,4:6 -filterbank n15dh01a.fil"
  /\ format_d (-3) = "-3".
Proof. split; reflexivity. Qed.

Local Close Scope string_scope.

(** ** Instances *)

Lemma mjd_rolls_over_the_year_witness :
  1 <= 2015 <= 9998
  /\ 0 <= 1 /\ days_in_year 2015 + 1 <= 999
  /\ mjd_of (F:=float) (mkvex 2015 (days_in_year 2015 + 1) 0 0 0)
     = mjd_of (F:=float) (mkvex (2015 + 1) 1 0 0 0).
Proof.
  assert (H : days_in_year 2015 + 1 <= 999) by (vm_compute; discriminate).
  split; [lia|]. split; [lia|]. split; [exact H|].
  apply (mjd_rolls_over_the_year (F:=float) 2015 1 0 0 0); [lia|lia|exact H].
Defined.

Lemma dateVEXaddsec_adds_seconds_witness :
  in_columns (mkvex 2015 365 23 59 0)
  /\ 0 <= seconds_of_year (mkvex 2015 365 23 59 0) + 120 < 86400000
  /\ exists v',
       dateVEXaddsec (F:=float) (mkvex 2015 365 23 59 0) 120 = Return v'
       /\ v_yr v' = 2015
       /\ seconds_of_year v' = seconds_of_year (mkvex 2015 365 23 59 0) + 120
       /\ 0 <= v_doy v' <= 999 /\ 0 <= v_hh v' <= 23 /\ 0 <= v_mm v' <= 59
       /\ 0 <= v_ss v' <= 59.
Proof.
  assert (H1 : in_columns (mkvex 2015 365 23 59 0))
    by (unfold in_columns; simpl; lia).
  assert (H2 : 0 <= seconds_of_year (mkvex 2015 365 23 59 0) + 120
               < 86400000)
    by (unfold seconds_of_year; simpl; lia).
  split; [exact H1|]. split; [exact H2|].
  exact (dateVEXaddsec_adds_seconds (mkvex 2015 365 23 59 0) 120 H1 H2).
Defined.

Lemma dateVEXaddsec_compose_witness :
  in_columns (mkvex 2015 262 11 0 0)
  /\ 0 <= seconds_of_year (mkvex 2015 262 11 0 0) + 300 < 86400000
  /\ - 2 ^ 52 < 600 < 2 ^ 52
  /\ (v1 <- dateVEXaddsec (F:=float) (mkvex 2015 262 11 0 0) 300 ;;
      dateVEXaddsec (F:=float) v1 600)
     = dateVEXaddsec (F:=float) (mkvex 2015 262 11 0 0) (300 + 600).
Proof.
  assert (H1 : in_columns (mkvex 2015 262 11 0 0))
    by (unfold in_columns; simpl; lia).
  assert (H2 : 0 <= seconds_of_year (mkvex 2015 262 11 0 0) + 300 < 86400000)
    by (unfold seconds_of_year; simpl; lia).
  assert (H3 : - 2 ^ 52 < 600 < 2 ^ 52) by (vm_compute; split; reflexivity).
  split; [exact H1|]. split; [exact H2|]. split; [exact H3|].
  exact (dateVEXaddsec_compose (mkvex 2015 262 11 0 0) 300 600 H1 H2 H3).
Defined.

Lemma mjd_counts_days_from_1858_witness :
  gregorian_day (mkvex 2015 262 11 0 0)
  /\ in_columns (mkvex 2015 262 11 0 0)
  /\ exists d q,
       dateVEX2split (F:=float) (mkvex 2015 262 11 0 0) = Return d
       /\ value (d_mjd d) = Finite q
       /\ (inject_Z (ordinal (mkvex 2015 262 11 0 0) - 678576)
           + inject_Z (3600 * 11 + 60 * 0 + 0) / 86400
           - mjd_tolerance <= q)%Q
       /\ (q <= inject_Z (ordinal (mkvex 2015 262 11 0 0) - 678576)
                + inject_Z (3600 * 11 + 60 * 0 + 0) / 86400
                + mjd_tolerance)%Q.
Proof.
  assert (H1 : gregorian_day (mkvex 2015 262 11 0 0))
    by (unfold gregorian_day, ordinal; simpl; lia).
  assert (H2 : in_columns (mkvex 2015 262 11 0 0))
    by (unfold in_columns; simpl; lia).
  split; [exact H1|]. split; [exact H2|].
  exact (mjd_counts_days_from_1858 (mkvex 2015 262 11 0 0) H1 H2).
Defined.

Lemma dateVEXaddsec_advances_mjd_witness :
  gregorian_day (mkvex 2015 365 23 59 0)
  /\ in_columns (mkvex 2015 365 23 59 0)
  /\ 0 <= seconds_of_year (mkvex 2015 365 23 59 0) + 120 < 86400000
  /\ dateVEXaddsec (F:=float) (mkvex 2015 365 23 59 0) 120
     = Return (mkvex 2015 366 0 1 0)
  /\ gregorian_day (mkvex 2015 366 0 1 0)
  /\ exists d d' q q',
       dateVEX2split (F:=float) (mkvex 2015 365 23 59 0) = Return d
       /\ dateVEX2split (F:=float) (mkvex 2015 366 0 1 0) = Return d'
       /\ value (d_mjd d) = Finite q
       /\ value (d_mjd d') = Finite q'
       /\ (q + inject_Z 120 / 86400 - 2 * mjd_tolerance <= q')%Q
       /\ (q' <= q + inject_Z 120 / 86400 + 2 * mjd_tolerance)%Q.
Proof.
  assert (H1 : gregorian_day (mkvex 2015 365 23 59 0))
    by (unfold gregorian_day, ordinal; simpl; lia).
  assert (Hc : in_columns (mkvex 2015 365 23 59 0))
    by (unfold in_columns; simpl; lia).
  assert (H2 : dateVEXaddsec (F:=float) (mkvex 2015 365 23 59 0) 120
               = Return (mkvex 2015 366 0 1 0))
    by (vm_compute; reflexivity).
  assert (H3 : gregorian_day (mkvex 2015 366 0 1 0))
    by (unfold gregorian_day, ordinal; simpl; lia).
  assert (H4 : 0 <= seconds_of_year (mkvex 2015 365 23 59 0) + 120
               < 86400000)
    by (unfold seconds_of_year; simpl; lia).
  split; [exact H1|]. split; [exact Hc|]. split; [exact H4|].
  split; [exact H2|]. split; [exact H3|].
  exact (dateVEXaddsec_advances_mjd
           (mkvex 2015 365 23 59 0) (mkvex 2015 366 0 1 0) 120
           H1 Hc H4 H2 H3).
Defined.

Lemma doFlag_tightest_block_range_witness :
  let G := mkglobals (PyNumber (lit (F:=float) 57284.25))
             (lit (F:=float) 0.00390625) in
  let a := mkvex 2015 262 11 5 0 in
  let b := mkvex 2015 262 11 20 0 in
  exists T0 B,
    value (lit (F:=float) 57284.25) = Finite T0
    /\ (1 <= T0)%Q /\ (T0 <= 4194304)%Q
    /\ value (fb_Tint G) = Finite B
    /\ (block_min <= B)%Q /\ (B <= 1024)%Q
    /\ gregorian_day a /\ in_columns a /\ gregorian_day b /\ in_columns b
    /\ exists start stop,
         doFlag G a b PyNone 0%float []%list
         = Return (if start =? stop then []%list
                   else ([] ++ [(start, stop)])%list)
         /\ 0 <= start /\ 0 <= stop
         /\ (exact_mjd b - 4 * mjd_tolerance <= T0 + inject_Z stop * B)%Q
         /\ (0 < stop ->
             (T0 + inject_Z (stop - 1) * B
              < exact_mjd b + 4 * mjd_tolerance)%Q)
         /\ (exact_mjd a - 4 * mjd_tolerance
             < T0 + inject_Z (start + 1) * B)%Q
         /\ (0 < start ->
             (T0 + inject_Z start * B <= exact_mjd a + 4 * mjd_tolerance)%Q).
Proof.
  cbv zeta.
  assert (Ha : gregorian_day (mkvex 2015 262 11 5 0))
    by (unfold gregorian_day, ordinal; simpl; lia).
  assert (Ca : in_columns (mkvex 2015 262 11 5 0))
    by (unfold in_columns; simpl; lia).
  assert (Hb : gregorian_day (mkvex 2015 262 11 20 0))
    by (unfold gregorian_day, ordinal; simpl; lia).
  assert (Cb : in_columns (mkvex 2015 262 11 20 0))
    by (unfold in_columns; simpl; lia).
  assert (Ht : value (lit (F:=float) 57284.25)
               = Finite (7873087370428416 # 137438953472))
    by (vm_compute; reflexivity).
  assert (HB : value (lit (F:=float) 0.00390625)
               = Finite (4503599627370496 # 1152921504606846976))
    by (vm_compute; reflexivity).
  assert (T1 : (1 <= 7873087370428416 # 137438953472)%Q)
    by (vm_compute; discriminate).
  assert (T2 : (7873087370428416 # 137438953472 <= 4194304)%Q)
    by (vm_compute; discriminate).
  assert (B1 : (block_min <= 4503599627370496 # 1152921504606846976)%Q)
    by (vm_compute; discriminate).
  assert (B2 : (4503599627370496 # 1152921504606846976 <= 1024)%Q)
    by (vm_compute; discriminate).
  exists (7873087370428416 # 137438953472)%Q,
         (4503599627370496 # 1152921504606846976)%Q.
  split; [exact Ht|]. split; [exact T1|]. split; [exact T2|].
  split; [exact HB|]. split; [exact B1|]. split; [exact B2|].
  split; [exact Ha|]. split; [exact Ca|]. split; [exact Hb|].
  split; [exact Cb|].
  exact (doFlag_tightest_block_range
           (mkglobals (PyNumber (lit (F:=float) 57284.25))
              (lit (F:=float) 0.00390625))
           (mkvex 2015 262 11 5 0) (mkvex 2015 262 11 20 0) PyNone 0%float
           []%list (lit (F:=float) 57284.25) _ _
           eq_refl Ht T1 T2 HB B1 B2 Ha Ca Hb Cb).
Defined.

Local Open Scope string_scope.

Lemma filters_compose_witness :
  NoDup (dict_keys example_schedule)
  /\ (let both :=
        filter (fun kv => includes_station "STATIONA" (snd kv)
                          && on_source "X" (snd kv)) example_schedule in
      (d1 <- keep_station "STATIONA" (dict_keys example_schedule)
               example_schedule ;;
       keep_source "X" (dict_keys d1) d1) = Return both
      /\ (d2 <- keep_source "X" (dict_keys example_schedule)
                  example_schedule ;;
          keep_station "STATIONA" (dict_keys d2) d2) = Return both).
Proof.
  split; [exact example_keys_NoDup|].
  exact (filters_compose "STATIONA" "X" example_schedule example_keys_NoDup).
Defined.

Local Close Scope string_scope.
